(** * AutomatonBuilderGUI: NodeWrapper and TokenWrapper

    A shallow embedding of [src/NodeWrapper.ts] and [src/TokenWrapper.ts].

    Modelling conventions.
    - A JavaScript [number] is an exact rational ([Q]) and the arithmetic of
      the methods is exact; [Math.round] rounds to the nearest integer with
      ties towards plus infinity, [Math.abs] is [Qabs].  The source computes
      in binary64: [binary64] rounds an exact result to the nearest binary64
      number, [snapped64] is the grid coordinate as the source computes it.
      On every binary64 coordinate of magnitude at most [2 ^ 52] the source
      computes the grid coordinate of the exact formula
      ([snapped64_binary64]), and sums of multiples of a power of two within
      53 bits are exact ([binary64_sum]); beyond that the two differ
      ([binary64_is_not_exact]).  The statements on the position
      [snapToGrid] computes and on the sums of a group drag are made within
      that range ([binary64Coordinate], [dyadic]) and say that the binary64
      computation gives the same values.  Infinities and NaN are not
      modelled.
    - Wrapper objects are shared by reference between the selection, the
      tentative transition and the event handlers: they live in a store
      indexed by references.  The Konva objects a wrapper creates for itself
      are owned by it and are kept inside the wrapper.
    - A Konva node is its attribute dictionary ([attrs]), as in Konva itself.
    - Reading a field that is still [undefined] is a [TypeError]: methods run
      in a state-and-error monad and return [None] in that case.
    - Calls into collaborators that are not part of the two files (the
      operation log, the scene graph, the transitions) are recorded, newest
      first, in the [calls] trace of the state. *)

From Stdlib Require Import QArith Qround Qabs Qpower ZArith Lia Lqa.
From stdpp Require Import base option list gmap strings.

Local Open Scope string_scope.

(** ** Konva values *)

(** [Vector2d] of konva/lib/types. *)
Record Vector2d := mkVector2d { x : Q; y : Q }.

Inductive AttrValue :=
| VNum (q : Q)
| VStr (s : string)
| VBool (b : bool)
| VVec (v : Vector2d).

Inductive ClassName := Circle | Text.

(** A Konva shape: its class and its attribute dictionary. *)
Record Shape := mkShape { className : ClassName; attrs : gmap string AttrValue }.

(** What a group holds: the three shapes the wrapper also keeps in its own
    fields (the same objects, so they are named rather than copied) and
    shapes that only the group refers to. *)
Inductive Child :=
| BackgroundChild
| AcceptCircleChild
| LabelChild
| OwnedChild (s : Shape).

(** A Konva group: its attributes, its children, and whether it has been
    added to a layer ([group.getLayer()] is then the layer, and [null]
    otherwise). *)
Record Group := mkGroup {
  groupAttrs : gmap string AttrValue;
  children : list Child;
  onLayer : bool
}.

Definition setAttr (k : string) (v : AttrValue) (sh : Shape) : Shape :=
  mkShape (className sh) (<[k := v]> (attrs sh)).

(** Konva getter of a numeric attribute; an unset coordinate reads as 0. *)
Definition getNum (k : string) (a : gmap string AttrValue) : Q :=
  match a !! k with
  | Some (VNum q) => q
  | _ => 0%Q
  end.

(** [node.name()]; an unset name reads as the empty string. *)
Definition getName (a : gmap string AttrValue) : string :=
  match a !! "name" with
  | Some (VStr s) => s
  | _ => ""
  end.

(** [group.position()] builds a fresh vector from the x and y attributes. *)
Definition position (g : Group) : Vector2d :=
  mkVector2d (getNum "x" (groupAttrs g)) (getNum "y" (groupAttrs g)).

(** [group.position(p)] copies the two coordinates into the attributes. *)
Definition setGroupPosition (p : Vector2d) (g : Group) : Group :=
  mkGroup (<["y" := VNum (y p)]> (<["x" := VNum (x p)]> (groupAttrs g))) (children g)
    (onLayer g).

(** [group.add(child)] *)
Definition addChild (c : Child) (g : Group) : Group :=
  mkGroup (groupAttrs g) (children g ++ [c]) (onLayer g).

(** [layer.add(group)]: what the canvas does with the group of a node it
    shows; that code is not part of the two files. *)
Definition addToLayer (g : Group) : Group :=
  mkGroup (groupAttrs g) (children g) true.

(** [group.destroy()]: the group leaves its parent and its children are
    destroyed with it. *)
Definition destroyGroup (g : Group) : Group :=
  mkGroup (groupAttrs g) [] false.

(** ** JavaScript numbers *)

(** [Math.round]: nearest integer, a tie goes to the larger one. *)
Definition Math_round (q : Q) : Q := inject_Z (Qfloor (q + (1 # 2))).

Definition Math_abs (q : Q) : Q := Qabs q.

(** [a > b] on numbers. *)
Definition gtb (a b : Q) : bool := negb (Qle_bool a b).

(** The literal [1e-5]. *)
Definition epsilon : Q := 1 # 100000.

(** *** binary64

    The source computes with binary64 numbers: every arithmetic operation
    returns the binary64 number nearest to the exact result, a tie going to
    the one with the even significand. *)

(** [⌊log2 |q|⌋], for [q] other than 0. *)
Definition floorLog2 (q : Q) : Z :=
  let e := (Z.log2 (Z.abs (Qnum q)) - Z.log2 (Zpos (Qden q)))%Z in
  if Qle_bool (2 ^ e) (Qabs q) then e else (e - 1)%Z.

(** The nearest integer, a tie going to the even one. *)
Definition roundHalfEven (q : Q) : Z :=
  let f := Qfloor q in
  match Qcompare (q - inject_Z f) (1 # 2) with
  | Lt => f
  | Gt => (f + 1)%Z
  | Eq => if Z.even f then f else (f + 1)%Z
  end.

(** The exponent of the last place of the binary64 numbers around [q]: 53
    significant bits, and nothing finer than [2 ^ -1074]. *)
Definition lastPlace (q : Q) : Z := Z.max (floorLog2 q - 52) (-1074).

(** The binary64 number nearest to [q] (for [|q|] below [2 ^ 1024]). *)
Definition binary64 (q : Q) : Q :=
  if Qeq_bool q 0 then 0%Q
  else (inject_Z (roundHalfEven (q / 2 ^ lastPlace q)) * 2 ^ lastPlace q)%Q.

(** [Math.round(c / 50) * 50] as the source computes it. *)
Definition snapped64 (c : Q) : Q := binary64 (Math_round (binary64 (c / 50)) * 50).

(** ** Identity wrappers *)

Definition ref := positive.

(** Modelled from the spec: the enum of [src/Tool.ts], which is not part of
    the two files; the spec lists the modes [Select | States | Transitions]. *)
Inductive Tool := Select | States | Transitions.

Definition Tool_eqb (a b : Tool) : bool :=
  match a, b with
  | Select, Select | States, States | Transitions, Transitions => true
  | _, _ => false
  end.

Record NodeWrapper := mkNodeWrapper {
  nodeBackground : option Shape;
  nodeAcceptCircle : option Shape;
  nodeLabel : option Shape;
  nodeGroup : option Group;
  lastPos : option Vector2d;
  lastSnappedPos : Vector2d;
  _isAcceptNode : bool;
  _labelText : string;
  _id : string
}.

(** [SerializableState] of StateManager. *)
Record SerializableState := mkSerializableState {
  s_id : string; s_x : Q; s_y : Q; s_label : string
}.

Record TokenWrapper := mkTokenWrapper { symbol : string; t_id : string }.

(** [SerializableToken] of StateManager. *)
Record SerializableToken := mkSerializableToken { st_id : string; st_symbol : string }.

(** Modelled from the spec: the transition class is not part of the two
    files; the spec describes a transition as a relation between two node
    identities, which is all [involvesNode] needs. *)
Record TransitionWrapper := mkTransitionWrapper { sourceNode : ref; destNode : ref }.

(** The two kinds of [SelectableObject]; [obj instanceof NodeWrapper] is a
    match on the constructor. *)
Inductive SelectableObject :=
| NodeObject (r : ref)
| TransitionObject (t : TransitionWrapper).

(** [a === b] on selectable objects. *)
Definition SelectableObject_eqb (a b : SelectableObject) : bool :=
  match a, b with
  | NodeObject r, NodeObject r' => Pos.eqb r r'
  | TransitionObject t, TransitionObject t' =>
      Pos.eqb (sourceNode t) (sourceNode t') && Pos.eqb (destNode t) (destNode t')
  | _, _ => false
  end.

(** [StateManager.colorScheme]: the constants are not part of the two files
    and are carried as data. *)
Record ColorScheme := mkColorScheme {
  nodeFill : string;
  nodeStrokeColor : string;
  nodeAcceptStrokeColor : string;
  nodeLabelColor : string;
  selectedNodeStrokeColor : string;
  newConnectionGlowColor : string;
  newConnectionShadowOpacity : Q;
  newConnectionShadowBlur : Q;
  nodeDragDropShadowColor : string;
  nodeDragDropShadowOpacity : Q;
  nodeDragDropShadowBlur : Q
}.

(** The fields of a mouse event the handlers read. *)
Record MouseEvent := mkMouseEvent {
  shiftKey : bool; pageX : Q; pageY : Q; movementX : Q; movementY : Q
}.

(** Calls that leave the two files. *)
Inductive Call :=
| startDragStatesOperation_call (p : Vector2d)
| completeDragStatesOperation_call (p : Vector2d)
| updateStartNodePosition_call
| endTentativeTransition_call (source target : option ref)
| stopDrag_call (node : ref)
| fire_move_call (node : ref)
| batchDraw_call (node : ref)
| updatePoints_call (transition : TransitionWrapper)
| transition_select_call (transition : TransitionWrapper)
| transition_deselect_call (transition : TransitionWrapper).

(** The store of node wrappers together with the static fields of
    StateManager that the two files read or write. *)
Record State := mkState {
  nodes : gmap ref NodeWrapper;
  currentTool : Tool;
  snapToGridEnabled : bool;
  selectedObjects : list SelectableObject;
  tentativeTransitionInProgress : bool;
  tentativeTransitionSource : option ref;
  tentativeTransitionTarget : option ref;
  tentativeTransitionHead : option Vector2d;
  transitions : list TransitionWrapper;
  colorScheme : ColorScheme;
  calls : list Call
}.

(** ** The state-and-error monad *)

Definition M (A : Type) : Type := State → option (A * State).

#[global] Instance M_ret : MRet M := λ A a s, Some (a, s).

#[global] Instance M_bind : MBind M := λ A B f m s,
  match m s with
  | Some (a, s') => f a s'
  | None => None
  end.

(** A [TypeError]. *)
Definition throw {A} : M A := λ _, None.

Definition gets {A} (f : State → A) : M A := λ s, Some (f s, s).

Definition modify (f : State → State) : M unit := λ s, Some (tt, f s).

(** [o.field] where the field may still be [undefined]. *)
Definition defined {A} (o : option A) : M A :=
  match o with
  | Some a => mret a
  | None => throw
  end.

(** [l.forEach(f)] *)
Fixpoint forEach {A} (f : A → M unit) (l : list A) : M unit :=
  match l with
  | [] => mret tt
  | a :: l' => f a ≫= λ _, forEach f l'
  end.

(** [l.forEach(f)] where [f] assigns to one captured local variable. *)
Fixpoint forEachWith {A B} (f : B → A → M B) (b : B) (l : list A) : M B :=
  match l with
  | [] => mret b
  | a :: l' => f b a ≫= λ b', forEachWith f b' l'
  end.

(** ** Field updates *)

Definition set_nodes (v : gmap ref NodeWrapper) (s : State) : State :=
  mkState v (currentTool s) (snapToGridEnabled s) (selectedObjects s)
    (tentativeTransitionInProgress s) (tentativeTransitionSource s)
    (tentativeTransitionTarget s) (tentativeTransitionHead s)
    (transitions s) (colorScheme s) (calls s).

Definition set_selectedObjects (v : list SelectableObject) (s : State) : State :=
  mkState (nodes s) (currentTool s) (snapToGridEnabled s) v
    (tentativeTransitionInProgress s) (tentativeTransitionSource s)
    (tentativeTransitionTarget s) (tentativeTransitionHead s)
    (transitions s) (colorScheme s) (calls s).

Definition set_tentativeTransitionInProgress (v : bool) (s : State) : State :=
  mkState (nodes s) (currentTool s) (snapToGridEnabled s) (selectedObjects s)
    v (tentativeTransitionSource s)
    (tentativeTransitionTarget s) (tentativeTransitionHead s)
    (transitions s) (colorScheme s) (calls s).

Definition set_tentativeTransitionSource (v : option ref) (s : State) : State :=
  mkState (nodes s) (currentTool s) (snapToGridEnabled s) (selectedObjects s)
    (tentativeTransitionInProgress s) v
    (tentativeTransitionTarget s) (tentativeTransitionHead s)
    (transitions s) (colorScheme s) (calls s).

Definition set_tentativeTransitionTarget (v : option ref) (s : State) : State :=
  mkState (nodes s) (currentTool s) (snapToGridEnabled s) (selectedObjects s)
    (tentativeTransitionInProgress s) (tentativeTransitionSource s)
    v (tentativeTransitionHead s)
    (transitions s) (colorScheme s) (calls s).

Definition set_tentativeTransitionHead (v : option Vector2d) (s : State) : State :=
  mkState (nodes s) (currentTool s) (snapToGridEnabled s) (selectedObjects s)
    (tentativeTransitionInProgress s) (tentativeTransitionSource s)
    (tentativeTransitionTarget s) v
    (transitions s) (colorScheme s) (calls s).

Definition set_calls (v : list Call) (s : State) : State :=
  mkState (nodes s) (currentTool s) (snapToGridEnabled s) (selectedObjects s)
    (tentativeTransitionInProgress s) (tentativeTransitionSource s)
    (tentativeTransitionTarget s) (tentativeTransitionHead s)
    (transitions s) (colorScheme s) v.

Definition set_nodeBackground (v : option Shape) (n : NodeWrapper) : NodeWrapper :=
  mkNodeWrapper v (nodeAcceptCircle n) (nodeLabel n) (nodeGroup n) (lastPos n)
    (lastSnappedPos n) (_isAcceptNode n) (_labelText n) (_id n).

Definition set_nodeGroup (v : option Group) (n : NodeWrapper) : NodeWrapper :=
  mkNodeWrapper (nodeBackground n) (nodeAcceptCircle n) (nodeLabel n) v (lastPos n)
    (lastSnappedPos n) (_isAcceptNode n) (_labelText n) (_id n).

Definition set_lastPos (v : option Vector2d) (n : NodeWrapper) : NodeWrapper :=
  mkNodeWrapper (nodeBackground n) (nodeAcceptCircle n) (nodeLabel n) (nodeGroup n) v
    (lastSnappedPos n) (_isAcceptNode n) (_labelText n) (_id n).

Definition set_lastSnappedPos (v : Vector2d) (n : NodeWrapper) : NodeWrapper :=
  mkNodeWrapper (nodeBackground n) (nodeAcceptCircle n) (nodeLabel n) (nodeGroup n)
    (lastPos n) v (_isAcceptNode n) (_labelText n) (_id n).

(** ** Access to the wrapper a method runs on *)

(** The object behind a reference; a reference to nothing cannot arise in
    JavaScript and counts as an error. *)
Definition readNode (r : ref) : M NodeWrapper :=
  λ s, match nodes s !! r with
       | Some n => Some (n, s)
       | None => None
       end.

Definition writeNode (r : ref) (n : NodeWrapper) : M unit :=
  modify (λ s, set_nodes (<[r := n]> (nodes s)) s).

Definition call (c : Call) : M unit :=
  modify (λ s, set_calls (c :: calls s) s).

(** [this.nodeBackground.attr(...)...]: a sequence of setter calls on the
    background circle. *)
Definition onBackground (this : ref) (f : Shape → Shape) : M unit :=
  n ← readNode this;
  bg ← defined (nodeBackground n);
  writeNode this (set_nodeBackground (Some (f bg)) n).

Definition onGroup (this : ref) (f : Group → Group) : M unit :=
  n ← readNode this;
  g ← defined (nodeGroup n);
  writeNode this (set_nodeGroup (Some (f g)) n).

(** [this.nodeGroup.position()] *)
Definition nodePosition (this : ref) : M Vector2d :=
  n ← readNode this;
  g ← defined (nodeGroup n);
  mret (position g).

(** [this.nodeGroup.getLayer()?.batchDraw()]: the layer is redrawn when the
    group has one. *)
Definition batchDrawLayer (this : ref) : M unit :=
  n ← readNode this;
  g ← defined (nodeGroup n);
  if onLayer g then call (batchDraw_call this) else mret tt.

(** ** TokenWrapper.ts *)

(** [new TokenWrapper(symbol, id)]; [uuid] is what [uuidv4()] would return. *)
Definition TokenWrapper_new (uuid : string) (symbol : option string) (id : option string)
  : TokenWrapper :=
  mkTokenWrapper (default "" symbol) (default uuid id).

Definition TokenWrapper_toSerializable (t : TokenWrapper) : SerializableToken :=
  mkSerializableToken (t_id t) (symbol t).

(** Modelled from the spec: loading a token is done by StateManager, which is
    not part of the two files; the spec describes it as constructing with
    the same id (and symbol). *)
Definition TokenWrapper_deserialize (uuid : string) (d : SerializableToken) : TokenWrapper :=
  TokenWrapper_new uuid (Some (st_symbol d)) (Some (st_id d)).

(** ** NodeWrapper.ts: construction and serialization *)

Definition NodeRadius : Q := 30.
Definition SelectedStrokeWidth : Q := 4.
Definition StrokeWidth : Q := 2.

Definition origin : Vector2d := mkVector2d 0 0.

(** [new NodeWrapper(label, id)]: the field initializers, then the body of
    the constructor.  The new object gets a reference that is not in use. *)
Definition NodeWrapper_new (uuid : string) (label : string) (id : option string) : M ref :=
  λ s, let r := fresh (dom (nodes s)) in
       let n := mkNodeWrapper None None None None None origin false label (default uuid id) in
       Some (r, set_nodes (<[r := n]> (nodes s)) s).

Definition toSerializable (this : ref) : M SerializableState :=
  n ← readNode this;
  g ← defined (nodeGroup n);
  mret (mkSerializableState (_id n) (getNum "x" (groupAttrs g)) (getNum "y" (groupAttrs g))
          (_labelText n)).

Definition createKonvaObjects (this : ref) (x y : Q) : M unit :=
  n ← readNode this;
  cs ← gets colorScheme;
  let nodeGroup := mkGroup (list_to_map [("x", VNum x); ("y", VNum y)]) [] false in
  let nodeBackground := mkShape Circle (list_to_map [
    ("x", VNum 0); ("y", VNum 0); ("radius", VNum NodeRadius);
    ("fill", VStr (nodeFill cs)); ("stroke", VStr (nodeStrokeColor cs));
    ("strokeWidth", VNum StrokeWidth)]) in
  let nodeAcceptCircle := mkShape Circle (list_to_map [
    ("x", VNum 0); ("y", VNum 0); ("radius", VNum (NodeRadius * (8 # 10)));
    ("fill", VStr "transparent"); ("stroke", VStr (nodeAcceptStrokeColor cs));
    ("strokeWidth", VNum (15 # 10)); ("visible", VBool (_isAcceptNode n))]) in
  let nodeLabel := mkShape Text (list_to_map [
    ("x", VNum ((- NodeRadius * 2 * (75 # 100)) / 2));
    ("y", VNum ((- NodeRadius * 2 * (75 # 100)) / 2));
    ("width", VNum (NodeRadius * 2 * (75 # 100)));
    ("height", VNum (NodeRadius * 2 * (75 # 100)));
    ("align", VStr "center"); ("verticalAlign", VStr "middle");
    ("text", VStr (_labelText n)); ("fontSize", VNum 15);
    ("fill", VStr (nodeLabelColor cs))]) in
  let nodeGroup := addChild BackgroundChild nodeGroup in
  let nodeGroup := addChild AcceptCircleChild nodeGroup in
  let nodeGroup := addChild LabelChild nodeGroup in
  let nodeGroup := mkGroup (<["draggable" := VBool true]> (groupAttrs nodeGroup))
                     (children nodeGroup) (onLayer nodeGroup) in
  writeNode this (mkNodeWrapper (Some nodeBackground) (Some nodeAcceptCircle)
                    (Some nodeLabel) (Some nodeGroup) (lastPos n) (lastSnappedPos n)
                    (_isAcceptNode n) (_labelText n) (_id n)).

(** Modelled from the spec: loading a node is done by StateManager, which is
    not part of the two files; the spec describes it as constructing with
    the same id (and label) and placing the node at the stored position. *)
Definition deserialize (uuid : string) (d : SerializableState) : M ref :=
  r ← NodeWrapper_new uuid (s_label d) (Some (s_id d));
  _ ← createKonvaObjects r (s_x d) (s_y d);
  mret r.

(** ** NodeWrapper.ts: appearance *)

Definition select (this : ref) : M unit :=
  cs ← gets colorScheme;
  onBackground this (λ bg,
    setAttr "strokeWidth" (VNum SelectedStrokeWidth)
      (setAttr "stroke" (VStr (selectedNodeStrokeColor cs)) bg)).

Definition deselect (this : ref) : M unit :=
  cs ← gets colorScheme;
  onBackground this (λ bg,
    setAttr "strokeWidth" (VNum StrokeWidth)
      (setAttr "stroke" (VStr (nodeStrokeColor cs)) bg)).

Definition enableNewConnectionGlow (this : ref) : M unit :=
  cs ← gets colorScheme;
  onBackground this (λ bg,
    setAttr "shadowEnabled" (VBool true)
      (setAttr "shadowBlur" (VNum (newConnectionShadowBlur cs))
        (setAttr "shadowOpacity" (VNum (newConnectionShadowOpacity cs))
          (setAttr "shadowOffset" (VVec (mkVector2d 0 0))
            (setAttr "shadowColor" (VStr (newConnectionGlowColor cs)) bg))))).

Definition disableShadowEffects (this : ref) : M unit :=
  onBackground this (setAttr "shadowEnabled" (VBool false)).

Definition enableDragDropShadow (this : ref) : M unit :=
  cs ← gets colorScheme;
  onBackground this (λ bg,
    setAttr "shadowEnabled" (VBool true)
      (setAttr "shadowBlur" (VNum (nodeDragDropShadowBlur cs))
        (setAttr "shadowOpacity" (VNum (nodeDragDropShadowOpacity cs))
          (setAttr "shadowOffset" (VVec (mkVector2d 0 3))
            (setAttr "shadowColor" (VStr (nodeDragDropShadowColor cs)) bg))))).

Definition setPosition (this : ref) (position : Vector2d) : M unit :=
  onGroup this (setGroupPosition position).

(** [konvaObject()] returns the field [nodeGroup], [undefined] included. *)
Definition konvaObject (this : ref) : M (option Group) :=
  n ← readNode this;
  mret (nodeGroup n).

(** [node.konvaObject().fire('move', ev)] *)
Definition fireMove (node : ref) : M unit :=
  g ← konvaObject node;
  _ ← defined g;
  call (fire_move_call node).

Definition deleteKonvaObjects (this : ref) : M unit :=
  onGroup this destroyGroup.

(** ** StateManager: the collaborators the handlers call *)

(** Modelled from the spec: [deselectAll()] removes every object from the
    set, applying the unselected visual state to each. *)
Definition deselectAllObjects : M unit :=
  selected ← gets selectedObjects;
  _ ← forEach (λ obj, match obj with
                      | NodeObject r => deselect r
                      | TransitionObject t => call (transition_deselect_call t)
                      end) selected;
  modify (set_selectedObjects []).

(** Modelled from the spec: [select(obj)] adds the object to the selection
    set and applies the selected visual state to it; it does nothing when
    the object is already selected. *)
Definition selectObject (obj : SelectableObject) : M unit :=
  selected ← gets selectedObjects;
  if existsb (SelectableObject_eqb obj) selected then mret tt
  else
    _ ← modify (set_selectedObjects (selected ++ [obj]));
    match obj with
    | NodeObject r => select r
    | TransitionObject t => call (transition_select_call t)
    end.

(** Modelled from the spec: beginning a tentative transition sets its source
    and creates the record, with no target yet. *)
Definition startTentativeTransition (node : ref) : M unit :=
  modify (λ s, set_tentativeTransitionHead None
                 (set_tentativeTransitionTarget None
                   (set_tentativeTransitionSource (Some node)
                     (set_tentativeTransitionInProgress true s)))).

(** Modelled from the spec: the free endpoint of the tentative transition
    follows the page coordinates of the pointer. *)
Definition updateTentativeTransitionHead (x y : Q) : M unit :=
  modify (set_tentativeTransitionHead (Some (mkVector2d x y))).

(** Modelled from the spec: ending hands source and target to the transition
    collaborator and clears the record unconditionally. *)
Definition endTentativeTransition : M unit :=
  src ← gets tentativeTransitionSource;
  tgt ← gets tentativeTransitionTarget;
  _ ← call (endTentativeTransition_call src tgt);
  modify (λ s, set_tentativeTransitionHead None
                 (set_tentativeTransitionTarget None
                   (set_tentativeTransitionSource None
                     (set_tentativeTransitionInProgress false s)))).

(** The operation log and the start-node marker are external: the calls are
    recorded. *)
Definition startDragStatesOperation (p : Vector2d) : M unit :=
  call (startDragStatesOperation_call p).

Definition completeDragStatesOperation (p : Vector2d) : M unit :=
  call (completeDragStatesOperation_call p).

Definition updateStartNodePosition : M unit :=
  call updateStartNodePosition_call.

(** Modelled from the spec: a transition involves a node when the node is
    one of its two endpoints. *)
Definition involvesNode (t : TransitionWrapper) (node : ref) : bool :=
  Pos.eqb (sourceNode t) node || Pos.eqb (destNode t) node.

Definition updatePoints (t : TransitionWrapper) : M unit :=
  call (updatePoints_call t).

(** ** NodeWrapper.ts: event handlers *)

Definition isNodeWrapper (obj : SelectableObject) : bool :=
  match obj with
  | NodeObject _ => true
  | TransitionObject _ => false
  end.

Definition onClick (this : ref) (ev : MouseEvent) : M unit :=
  tool ← gets currentTool;
  if Tool_eqb tool Select then
    _ ← (if negb (shiftKey ev) then deselectAllObjects else mret tt);
    selectObject (NodeObject this)
  else mret tt.

Definition onMouseEnter (this : ref) : M unit :=
  tool ← gets currentTool;
  inProgress ← gets tentativeTransitionInProgress;
  if Tool_eqb tool Transitions && inProgress then
    _ ← modify (set_tentativeTransitionTarget (Some this));
    enableNewConnectionGlow this
  else mret tt.

Definition onMouseLeave (this : ref) : M unit :=
  tool ← gets currentTool;
  if Tool_eqb tool Transitions then
    inProgress ← gets tentativeTransitionInProgress;
    target ← gets tentativeTransitionTarget;
    if inProgress && bool_decide (target = Some this) then
      _ ← modify (set_tentativeTransitionTarget None);
      disableShadowEffects this
    else mret tt
  else mret tt.

Definition onDragStart (this : ref) (ev : MouseEvent) : M unit :=
  p ← nodePosition this;
  n ← readNode this;
  _ ← writeNode this (set_lastPos (Some p) n);
  tool ← gets currentTool;
  if Tool_eqb tool States then
    call (stopDrag_call this)
  else if Tool_eqb tool Transitions then
    startTentativeTransition this
  else if Tool_eqb tool Select then
    selected ← gets selectedObjects;
    _ ← (if negb (shiftKey ev) && (length selected =? 1)%nat
         then deselectAllObjects else mret tt);
    _ ← selectObject (NodeObject this);
    selected ← gets selectedObjects;
    _ ← forEach (λ obj, match obj with
                        | NodeObject r => enableDragDropShadow r
                        | TransitionObject _ => mret tt
                        end) selected;
    n ← readNode this;
    lastPos ← defined (lastPos n);
    startDragStatesOperation lastPos
  else mret tt.

Definition onDragMove (this : ref) (ev : MouseEvent) : M unit :=
  tool ← gets currentTool;
  if Tool_eqb tool Transitions then
    n ← readNode this;
    lastPos ← defined (lastPos n);
    _ ← setPosition this lastPos;
    updateTentativeTransitionHead (pageX ev) (pageY ev)
  else if Tool_eqb tool Select then
    _ ← fireMove this;
    selected ← gets selectedObjects;
    let allOtherSelected :=
      filter (λ i, negb (SelectableObject_eqb i (NodeObject this))) selected in
    forEach (λ obj, match obj with
                    | NodeObject r =>
                        p ← nodePosition r;
                        _ ← setPosition r (mkVector2d (x p + movementX ev) (y p + movementY ev));
                        fireMove r
                    | TransitionObject _ => mret tt
                    end) allOtherSelected
  else mret tt.

Definition gridCellSize : Q := 50.

Definition snapToGrid (this : ref) : M Vector2d :=
  nodePos ← nodePosition this;
  let snappedX := (Math_round (x nodePos / gridCellSize) * gridCellSize)%Q in
  let snappedY := (Math_round (y nodePos / gridCellSize) * gridCellSize)%Q in
  _ ← setPosition this (mkVector2d snappedX snappedY);
  ts ← gets transitions;
  _ ← forEach (λ transition,
         if involvesNode transition this then updatePoints transition else mret tt) ts;
  _ ← batchDrawLayer this;
  mret (mkVector2d snappedX snappedY).

Definition onDragEnd (this : ref) : M unit :=
  tool ← gets currentTool;
  snap ← gets snapToGridEnabled;
  if Tool_eqb tool States then mret tt
  else if Tool_eqb tool Select && snap then
    selected ← gets selectedObjects;
    let nodes := filter isNodeWrapper selected in
    snappedPos ← forEachWith (λ snappedPos node,
        match node with
        | NodeObject r =>
            snapped ← snapToGrid r;
            mret (if SelectableObject_eqb node (NodeObject this) then snapped else snappedPos)
        | TransitionObject _ => mret snappedPos
        end) (mkVector2d 0 0) nodes;
    _ ← updateStartNodePosition;
    n ← readNode this;
    if gtb (Math_abs (x (lastSnappedPos n) - x snappedPos)) epsilon
       || gtb (Math_abs (y (lastSnappedPos n) - y snappedPos)) epsilon
    then
      _ ← writeNode this (set_lastSnappedPos snappedPos n);
      p ← nodePosition this;
      completeDragStatesOperation p
    else mret tt
  else if Tool_eqb tool Transitions then
    endTentativeTransition
  else if Tool_eqb tool Select then
    selected ← gets selectedObjects;
    _ ← forEach (λ obj, match obj with
                        | NodeObject r => disableShadowEffects r
                        | TransitionObject _ => mret tt
                        end) selected;
    p ← nodePosition this;
    completeDragStatesOperation p
  else mret tt.

(** ** NodeWrapper.ts: the error overlay *)

(** The name of a child of the node's group. *)
Definition childName (n : NodeWrapper) (c : Child) : string :=
  match c with
  | BackgroundChild => from_option (λ sh, getName (attrs sh)) "" (nodeBackground n)
  | AcceptCircleChild => from_option (λ sh, getName (attrs sh)) "" (nodeAcceptCircle n)
  | LabelChild => from_option (λ sh, getName (attrs sh)) "" (nodeLabel n)
  | OwnedChild sh => getName (attrs sh)
  end.

(** Whether the selector ['.errorIcon, .errorText'] matches a child. *)
Definition isErrorElement (n : NodeWrapper) (c : Child) : bool :=
  String.eqb (childName n c) "errorIcon" || String.eqb (childName n c) "errorText".

(** [group.find(selector).forEach(el => el.destroy())]: a destroyed node
    leaves its parent. *)
Definition destroyErrorElements (n : NodeWrapper) (g : Group) : Group :=
  mkGroup (groupAttrs g) (filter (λ c, negb (isErrorElement n c)) (children g))
    (onLayer g).

Definition setErrorState (this : ref) (isError : bool) : M unit :=
  n ← readNode this;
  _ ← onGroup this (destroyErrorElements n);
  cs ← gets colorScheme;
  _ ← (if isError then
         _ ← onBackground this (λ bg,
               setAttr "strokeWidth" (VNum 4)
                 (setAttr "stroke" (VStr "rgb(220, 38, 37)")
                   (setAttr "fill" (VStr "rgb(254, 226, 225)") bg)));
         let errorIcon := mkShape Circle (list_to_map [
           ("x", VNum 0); ("y", VNum (NodeRadius - 1)); ("radius", VNum 10);
           ("fill", VStr "rgb(220, 38, 37)"); ("name", VStr "errorIcon")]) in
         let errorText := mkShape Text (list_to_map [
           ("text", VStr "✕"); ("fontSize", VNum 14); ("fill", VStr "white");
           ("align", VStr "center"); ("verticalAlign", VStr "middle");
           ("width", VNum 20); ("height", VNum 20); ("name", VStr "errorText")]) in
         let errorText := setAttr "offsetX" (VNum (getNum "width" (attrs errorText) / 2)) errorText in
         let errorText := setAttr "offsetY" (VNum (getNum "height" (attrs errorText) / 2)) errorText in
         let errorText := setAttr "y" (VNum (NodeRadius - 1)) (setAttr "x" (VNum 0) errorText) in
         _ ← onGroup this (addChild (OwnedChild errorIcon));
         onGroup this (addChild (OwnedChild errorText))
       else
         onBackground this (λ bg,
           setAttr "strokeWidth" (VNum StrokeWidth)
             (setAttr "stroke" (VStr (nodeStrokeColor cs))
               (setAttr "fill" (VStr (nodeFill cs)) bg))));
  batchDrawLayer this.

(** ** Events, as [createKonvaObjects] registers them on the group *)

Inductive Event :=
| mouseenter
| mouseleave
| click (ev : MouseEvent)
| dragstart (ev : MouseEvent)
| dragmove (ev : MouseEvent)
| dragend.

Definition fire (this : ref) (e : Event) : M unit :=
  match e with
  | mouseenter => onMouseEnter this
  | mouseleave => onMouseLeave this
  | click ev => onClick this ev
  | dragstart ev => onDragStart this ev
  | dragmove ev => onDragMove this ev
  | dragend => onDragEnd this
  end.

(** ** Vocabulary of the statements *)

#[global] Instance TransitionWrapper_eq_dec : EqDecision TransitionWrapper.
Proof. solve_decision. Defined.

#[global] Instance SelectableObject_eq_dec : EqDecision SelectableObject.
Proof. solve_decision. Defined.

(** The coordinate [snapToGrid] computes from a coordinate [c]. *)
Definition snapped (c : Q) : Q := (Math_round (c / gridCellSize) * gridCellSize)%Q.

Definition snappedPosition (p : Vector2d) : Vector2d :=
  mkVector2d (snapped (x p)) (snapped (y p)).

(** The grid line [50 * k] is nearest to [c], a tie going to the higher line. *)
Definition nearestGridLine (k : Z) (c : Q) : Prop :=
  (inject_Z k * 50 - 25 <= c < inject_Z k * 50 + 25)%Q.

(** Both coordinates are multiples of 50. *)
Definition onGrid (p : Vector2d) : Prop :=
  ∃ a b : Z, (x p == inject_Z a * 50)%Q ∧ (y p == inject_Z b * 50)%Q.

(** The test of [onDragEnd] on the last and the new snapped position. *)
Definition moved (last p : Vector2d) : bool :=
  gtb (Math_abs (x last - x p)) epsilon || gtb (Math_abs (y last - y p)) epsilon.

(** [createKonvaObjects] has run on the wrapper. *)
Definition hasKonvaObjects (n : NodeWrapper) : bool :=
  bool_decide (is_Some (nodeBackground n)) && bool_decide (is_Some (nodeAcceptCircle n))
  && bool_decide (is_Some (nodeLabel n)) && bool_decide (is_Some (nodeGroup n)).

(** A selectable object that is a node is in the store and has its Konva
    objects. *)
Definition rendered (m : gmap ref NodeWrapper) (obj : SelectableObject) : Prop :=
  match obj with
  | NodeObject r => ∃ n, m !! r = Some n ∧ hasKonvaObjects n = true
  | TransitionObject _ => True
  end.

(** The same, as a test. *)
Definition renderedb (m : gmap ref NodeWrapper) (obj : SelectableObject) : bool :=
  match obj with
  | NodeObject r => from_option hasKonvaObjects false (m !! r)
  | TransitionObject _ => true
  end.

(** The fields [lastSnappedPos] and [lastPos] of a node of the store. *)
Definition lastSnappedPosOf (m : gmap ref NodeWrapper) (r : ref) : Vector2d :=
  from_option lastSnappedPos origin (m !! r).

Definition lastPosOf (m : gmap ref NodeWrapper) (r : ref) : option Vector2d :=
  n ← m !! r; lastPos n.

(** The position of a node of the store (the origin when it has none). *)
Definition positionOf (m : gmap ref NodeWrapper) (r : ref) : Vector2d :=
  from_option (λ n, from_option position origin (nodeGroup n)) origin (m !! r).

(** The [shadowEnabled] attribute of the background circle of a node. *)
Definition shadowEnabledOf (m : gmap ref NodeWrapper) (r : ref) : option AttrValue :=
  n ← m !! r; bg ← nodeBackground n; attrs bg !! "shadowEnabled".

(** The calls made between two states, newest first. *)
Definition callsSince (s s' : State) : list Call :=
  take (length (calls s') - length (calls s)) (calls s').


(** How many children of the node's group carry a given name. *)
Definition countNamed (name : string) (n : NodeWrapper) : nat :=
  length (filter (λ c, childName n c = name) (from_option children [] (nodeGroup n))).

(** The effect of one [snapToGrid] on a group, on a wrapper, on the store. *)
Definition snapGroup (g : Group) : Group := setGroupPosition (snappedPosition (position g)) g.

Definition snapNode (n : NodeWrapper) : NodeWrapper :=
  set_nodeGroup (snapGroup <$> nodeGroup n) n.

Definition unshadowNode (n : NodeWrapper) : NodeWrapper :=
  set_nodeBackground (setAttr "shadowEnabled" (VBool false) <$> nodeBackground n) n.

Definition alterObject (f : NodeWrapper → NodeWrapper) (m : gmap ref NodeWrapper)
    (obj : SelectableObject) : gmap ref NodeWrapper :=
  match obj with
  | NodeObject r => alter f r m
  | TransitionObject _ => m
  end.

Definition alterNodes (f : NodeWrapper → NodeWrapper) (l : list SelectableObject)
    (m : gmap ref NodeWrapper) : gmap ref NodeWrapper :=
  foldl (alterObject f) m l.

Definition transitionCalls (r : ref) (ts : list TransitionWrapper) : list Call :=
  reverse (updatePoints_call <$> filter (λ t, involvesNode t r = true) ts).

(** Whether the group of a node of the store is on a layer, and the calls
    of [batchDrawLayer] on it. *)
Definition layerOf (m : gmap ref NodeWrapper) (r : ref) : bool :=
  from_option (λ n, from_option onLayer false (nodeGroup n)) false (m !! r).

Definition drawCalls (m : gmap ref NodeWrapper) (r : ref) : list Call :=
  if layerOf m r then [batchDraw_call r] else [].

(** The calls of one [snapToGrid], newest first. *)
Definition snapCalls (m : gmap ref NodeWrapper) (r : ref) (ts : list TransitionWrapper)
  : list Call :=
  drawCalls m r ++ transitionCalls r ts.





(** A step that may restyle nodes but leaves the mode, the snap setting,
    the transitions and, for every node, its group, its [lastPos], its
    [lastSnappedPos] and the presence of its Konva objects as they were. *)
Definition keepsLayout (s s' : State) : Prop :=
  currentTool s' = currentTool s
  ∧ snapToGridEnabled s' = snapToGridEnabled s
  ∧ transitions s' = transitions s
  ∧ ∀ r, match nodes s !! r with
         | Some n => ∃ n', nodes s' !! r = Some n'
                           ∧ nodeGroup n' = nodeGroup n
                           ∧ lastPos n' = lastPos n
                           ∧ lastSnappedPos n' = lastSnappedPos n
                           ∧ hasKonvaObjects n' = hasKonvaObjects n
         | None => nodes s' !! r = None
         end.

(** ** A drag gesture in Transitions mode *)

(** Modelled from the spec: between two handlers the scene graph's native
    drag moves the dragged node to follow the pointer, and then fires
    [dragmove]. *)
Definition nativeDrag (this : ref) (p : Vector2d) : M unit := setPosition this p.

Definition dragMoves (this : ref) (moves : list (Vector2d * MouseEvent)) : M unit :=
  forEach (λ m, _ ← nativeDrag this m.1; fire this (dragmove m.2)) moves.

Definition dragGesture (this : ref) (ev : MouseEvent) (moves : list (Vector2d * MouseEvent))
  : M unit :=
  _ ← fire this (dragstart ev);
  dragMoves this moves.

(** The pointer position of the last move, if any. *)
Definition lastPointer (moves : list (Vector2d * MouseEvent)) : option Vector2d :=
  (λ m, mkVector2d (pageX m.2) (pageY m.2)) <$> last moves.

(** ** Example states *)

Definition exampleColors : ColorScheme :=
  mkColorScheme "white" "black" "black" "black" "#018ED5" "#018ED5" (5 # 10) 10
    "black" (3 # 10) 5.

Definition emptyState (tool : Tool) (snap : bool) : State :=
  mkState ∅ tool snap [] false None None None [] exampleColors [].

(** A state with one node, created at [(px, py)] and not yet selected. *)
Definition oneNode (tool : Tool) (snap : bool) (px py : Q) : State :=
  match (r ← NodeWrapper_new "uuid-1" "q0" None; createKonvaObjects r px py)
          (emptyState tool snap) with
  | Some (_, s) => s
  | None => emptyState tool snap
  end.

(** The same node picked up by a drag start in the given mode. *)
Definition pickedUp (tool : Tool) (snap : bool) (px py : Q) : State :=
  match onDragStart 1%positive (mkMouseEvent false 0 0 0 0) (oneNode tool snap px py) with
  | Some (_, s) => s
  | None => oneNode tool snap px py
  end.

(** A node that is the glowing target of a tentative transition drawn from
    another node. *)
Definition hoveredTarget : State :=
  match (a ← NodeWrapper_new "uuid-1" "q0" None;
         _ ← createKonvaObjects a 0 0;
         b ← NodeWrapper_new "uuid-2" "q1" None;
         _ ← createKonvaObjects b 200 0;
         _ ← fire a (dragstart (mkMouseEvent false 0 0 0 0));
         fire b mouseenter) (emptyState Transitions false) with
  | Some (_, s) => s
  | None => emptyState Transitions false
  end.

(** ** NodeWrapper.ts: the accept flag, the label and the colours *)

Definition set_nodeAcceptCircle (v : option Shape) (n : NodeWrapper) : NodeWrapper :=
  mkNodeWrapper (nodeBackground n) v (nodeLabel n) (nodeGroup n) (lastPos n)
    (lastSnappedPos n) (_isAcceptNode n) (_labelText n) (_id n).

Definition set_nodeLabel (v : option Shape) (n : NodeWrapper) : NodeWrapper :=
  mkNodeWrapper (nodeBackground n) (nodeAcceptCircle n) v (nodeGroup n) (lastPos n)
    (lastSnappedPos n) (_isAcceptNode n) (_labelText n) (_id n).

Definition set__isAcceptNode (v : bool) (n : NodeWrapper) : NodeWrapper :=
  mkNodeWrapper (nodeBackground n) (nodeAcceptCircle n) (nodeLabel n) (nodeGroup n)
    (lastPos n) (lastSnappedPos n) v (_labelText n) (_id n).

Definition set__labelText (v : string) (n : NodeWrapper) : NodeWrapper :=
  mkNodeWrapper (nodeBackground n) (nodeAcceptCircle n) (nodeLabel n) (nodeGroup n)
    (lastPos n) (lastSnappedPos n) (_isAcceptNode n) v (_id n).

(** A sequence of setter calls on the accept circle, on the label. *)
Definition onAcceptCircle (this : ref) (f : Shape → Shape) : M unit :=
  n ← readNode this;
  c ← defined (nodeAcceptCircle n);
  writeNode this (set_nodeAcceptCircle (Some (f c)) n).

Definition onLabel (this : ref) (f : Shape → Shape) : M unit :=
  n ← readNode this;
  l ← defined (nodeLabel n);
  writeNode this (set_nodeLabel (Some (f l)) n).

(** [get id()] *)
Definition get_id (this : ref) : M string :=
  n ← readNode this; mret (_id n).

(** [get isAcceptNode()] *)
Definition get_isAcceptNode (this : ref) : M bool :=
  n ← readNode this; mret (_isAcceptNode n).

(** [set isAcceptNode(value)] *)
Definition set_isAcceptNode (this : ref) (value : bool) : M unit :=
  n ← readNode this;
  _ ← writeNode this (set__isAcceptNode value n);
  n ← readNode this;
  if _isAcceptNode n
  then onAcceptCircle this (setAttr "visible" (VBool true))
  else onAcceptCircle this (setAttr "visible" (VBool false)).

Definition toggleAcceptNode (this : ref) : M unit :=
  n ← readNode this;
  set_isAcceptNode this (negb (_isAcceptNode n)).

(** [get labelText()] *)
Definition get_labelText (this : ref) : M string :=
  n ← readNode this; mret (_labelText n).

Definition updateColorScheme (this : ref) : M unit :=
  cs ← gets colorScheme;
  _ ← onBackground this (setAttr "fill" (VStr (nodeFill cs)));
  _ ← onBackground this (setAttr "stroke" (VStr (nodeStrokeColor cs)));
  _ ← onAcceptCircle this (setAttr "stroke" (VStr (nodeAcceptStrokeColor cs)));
  onLabel this (setAttr "fill" (VStr (nodeLabelColor cs))).

(** [a < b] on numbers. *)
Definition ltb (a b : Q) : bool := negb (Qle_bool b a).

(** [text.fontSize()]; Konva's default font size is 12. *)
Definition getFontSize (a : gmap string AttrValue) : Q :=
  match a !! "fontSize" with
  | Some (VNum q) => q
  | _ => 12%Q
  end.

Definition maxTextWidth : Q := (NodeRadius * 2 * (75 # 100))%Q.

Section FontFit.

(** The width of the client rectangle of a Konva text with the given text
    and font size: the measurement is Konva's and is taken as given. *)
Variable measure : string → Q → Q.

(** The first loop of [adjustFontSize].  Every turn needs [fontSize > 10]
    and lowers the size by one, so the fuel [adjustFontSize] passes is
    enough. *)
Fixpoint shrinkFont (fuel : nat) (text : string) (fontSize : Q) : Q :=
  match fuel with
  | O => fontSize
  | S fuel' =>
      if gtb (measure text fontSize) maxTextWidth && gtb fontSize 10
      then shrinkFont fuel' text (fontSize - 1)%Q
      else fontSize
  end.

(** The second loop. *)
Fixpoint growFont (fuel : nat) (text : string) (fontSize : Q) : Q :=
  match fuel with
  | O => fontSize
  | S fuel' =>
      if ltb (measure text fontSize) maxTextWidth && ltb fontSize 15
      then growFont fuel' text (fontSize + 1)%Q
      else fontSize
  end.

(** The font size [adjustFontSize] settles on. *)
Definition fitFontSize (text : string) (fontSize : Q) : Q :=
  if gtb (measure text fontSize) maxTextWidth && gtb fontSize 10
  then shrinkFont (Z.to_nat (Qceiling (fontSize - 10))) text fontSize
  else if ltb (measure text fontSize) maxTextWidth && ltb fontSize 15
  then growFont (Z.to_nat (Qceiling (15 - fontSize))) text fontSize
  else fontSize.

Definition adjustFontSize (this : ref) : M unit :=
  n ← readNode this;
  l ← defined (nodeLabel n);
  let fontSize := fitFontSize (_labelText n) (getFontSize (attrs l)) in
  onLabel this (λ l,
    setAttr "verticalAlign" (VStr "middle")
      (setAttr "align" (VStr "center")
        (setAttr "wrap" (VStr "word")
          (setAttr "fontSize" (VNum fontSize) l)))).

(** [set labelText(value)] *)
Definition set_labelText (this : ref) (value : string) : M unit :=
  n ← readNode this;
  _ ← writeNode this (set__labelText value n);
  n ← readNode this;
  _ ← onLabel this (setAttr "text" (VStr (_labelText n)));
  adjustFontSize this.

(** The public methods of a node wrapper, with their arguments. *)
Inductive Method :=
| call_toSerializable
| call_createKonvaObjects (x y : Q)
| call_adjustFontSize
| call_select
| call_deselect
| call_get_isAcceptNode
| call_set_isAcceptNode (value : bool)
| call_toggleAcceptNode
| call_enableNewConnectionGlow
| call_disableShadowEffects
| call_enableDragDropShadow
| call_setPosition (position : Vector2d)
| call_snapToGrid
| call_get_labelText
| call_set_labelText (value : string)
| call_updateColorScheme
| call_setErrorState (isError : bool)
| call_konvaObject
| call_deleteKonvaObjects
| call_handler (e : Event).

Definition invoke (this : ref) (m : Method) : M unit :=
  match m with
  | call_toSerializable => _ ← toSerializable this; mret tt
  | call_createKonvaObjects x y => createKonvaObjects this x y
  | call_adjustFontSize => adjustFontSize this
  | call_select => select this
  | call_deselect => deselect this
  | call_get_isAcceptNode => _ ← get_isAcceptNode this; mret tt
  | call_set_isAcceptNode value => set_isAcceptNode this value
  | call_toggleAcceptNode => toggleAcceptNode this
  | call_enableNewConnectionGlow => enableNewConnectionGlow this
  | call_disableShadowEffects => disableShadowEffects this
  | call_enableDragDropShadow => enableDragDropShadow this
  | call_setPosition position => setPosition this position
  | call_snapToGrid => _ ← snapToGrid this; mret tt
  | call_get_labelText => _ ← get_labelText this; mret tt
  | call_set_labelText value => set_labelText this value
  | call_updateColorScheme => updateColorScheme this
  | call_setErrorState isError => setErrorState this isError
  | call_konvaObject => _ ← konvaObject this; mret tt
  | call_deleteKonvaObjects => deleteKonvaObjects this
  | call_handler e => fire this e
  end.

End FontFit.

(** A sequence of events, each on its node. *)
Definition fireAll (events : list (ref * Event)) : M unit :=
  forEach (λ e, fire e.1 e.2) events.


(** A sequence of method calls, each on its node. *)
Definition invokeAll (measure : string → Q → Q) (calls : list (ref * Method)) : M unit :=
  forEach (λ c, invoke measure c.1 c.2) calls.

(** ** Vocabulary of the further properties *)

(** The tests of the two loops of [adjustFontSize]. *)
Definition tooWide (measure : string → Q → Q) (text : string) (fontSize : Q) : bool :=
  gtb (measure text fontSize) maxTextWidth && gtb fontSize 10.

Definition tooNarrow (measure : string → Q → Q) (text : string) (fontSize : Q) : bool :=
  ltb (measure text fontSize) maxTextWidth && ltb fontSize 15.

(** A property [J] of the nodes of the store holds in a state whose
    references in use are [D]. *)
Definition holds (J : ref → NodeWrapper → Prop) (D : gset ref) (s : State) : Prop :=
  dom (nodes s) = D ∧ ∀ r n, nodes s !! r = Some n → J r n.

(** If the action returns from a state where the property holds and [P]
    holds, the property holds again. *)
Definition keepsGiven {A} (J : ref → NodeWrapper → Prop) (D : gset ref) (P : State → Prop)
    (m : M A) : Prop :=
  ∀ s a s', holds J D s → P s → m s = Some (a, s') → holds J D s'.

Definition keeps {A} (J : ref → NodeWrapper → Prop) (D : gset ref) (m : M A) : Prop :=
  keepsGiven J D (λ _, True) m.

(** The fields no handler writes. *)
Definition sameData (n n' : NodeWrapper) : Prop :=
  _id n' = _id n ∧ _labelText n' = _labelText n ∧ _isAcceptNode n' = _isAcceptNode n
  ∧ nodeAcceptCircle n' = nodeAcceptCircle n ∧ nodeLabel n' = nodeLabel n
  ∧ hasKonvaObjects n' = hasKonvaObjects n.

(** The state a sequence of events leaves (the state itself if a handler
    throws). *)
Definition afterEvents (events : list (ref * Event)) (s : State) : State :=
  match fireAll events s with
  | Some (_, s') => s'
  | None => s
  end.

(** The same for a sequence of method calls. *)
Definition afterCalls (measure : string → Q → Q) (calls : list (ref * Method)) (s : State)
  : State :=
  match invokeAll measure calls s with
  | Some (_, s') => s'
  | None => s
  end.

(** What is drawn agrees with the fields: the label shows [_labelText] and
    the accept ring is visible exactly when [_isAcceptNode] is set. *)
Definition inSync (n : NodeWrapper) : Prop :=
  (∀ l, nodeLabel n = Some l → attrs l !! "text" = Some (VStr (_labelText n)))
  ∧ (∀ c, nodeAcceptCircle n = Some c → attrs c !! "visible" = Some (VBool (_isAcceptNode n))).

(** The wrapper [set isAcceptNode] leaves behind. *)
Definition acceptSet (value : bool) (c : Shape) (n : NodeWrapper) : NodeWrapper :=
  set_nodeAcceptCircle (Some (setAttr "visible" (VBool value) c)) (set__isAcceptNode value n).

(** The label shape [adjustFontSize] leaves behind. *)
Definition fontFitted (measure : string → Q → Q) (text : string) (l : Shape) : Shape :=
  setAttr "verticalAlign" (VStr "middle")
    (setAttr "align" (VStr "center")
      (setAttr "wrap" (VStr "word")
        (setAttr "fontSize" (VNum (fitFontSize measure text (getFontSize (attrs l)))) l))).

(** The wrapper [set labelText] leaves behind. *)
Definition labelSet (measure : string → Q → Q) (value : string) (l : Shape) (n : NodeWrapper)
  : NodeWrapper :=
  set_nodeLabel (Some (fontFitted measure value (setAttr "text" (VStr value) l)))
    (set__labelText value n).

(** The accept flag of a node of the store, and the [visible] attribute of
    its accept ring. *)
Definition isAcceptNodeOf (m : gmap ref NodeWrapper) (r : ref) : option bool :=
  _isAcceptNode <$> m !! r.

Definition acceptRingVisibleOf (m : gmap ref NodeWrapper) (r : ref) : option AttrValue :=
  n ← m !! r; c ← nodeAcceptCircle n; attrs c !! "visible".

(** The [text] attribute and the font size of the label of a node. *)
Definition labelShownOf (m : gmap ref NodeWrapper) (r : ref) : option AttrValue :=
  n ← m !! r; l ← nodeLabel n; attrs l !! "text".

Definition fontSizeOf (m : gmap ref NodeWrapper) (r : ref) : Q :=
  from_option (λ n, from_option (λ l, getFontSize (attrs l)) 12%Q (nodeLabel n)) 12%Q (m !! r).

(** An attribute of the background circle of a node. *)
Definition backgroundAttrOf (k : string) (m : gmap ref NodeWrapper) (r : ref)
  : option AttrValue :=
  n ← m !! r; bg ← nodeBackground n; attrs bg !! k.

(** The children of the group of a node. *)
Definition childrenOf (m : gmap ref NodeWrapper) (r : ref) : list Child :=
  from_option (λ n, from_option children [] (nodeGroup n)) [] (m !! r).

(** A width measurement for the examples: every character is 0.6 times
    the font size wide. *)
Definition exampleMeasure (text : string) (fontSize : Q) : Q :=
  (inject_Z (Z.of_nat (String.length text)) * fontSize * (6 # 10))%Q.

Definition exampleEvents : list (ref * Event) :=
  [(1%positive, dragstart (mkMouseEvent false 73 124 0 0));
   (1%positive, dragmove (mkMouseEvent false 90 140 17 16));
   (1%positive, dragend); (1%positive, click (mkMouseEvent true 90 140 0 0))].

Definition exampleCalls : list (ref * Method) :=
  [(1%positive, call_set_labelText "q_accept");
   (1%positive, call_toggleAcceptNode);
   (1%positive, call_setErrorState true);
   (1%positive, call_handler (dragstart (mkMouseEvent false 73 124 0 0)));
   (1%positive, call_handler dragend);
   (1%positive, call_updateColorScheme);
   (1%positive, call_setErrorState false)].

(** Which methods use the Konva objects of the wrapper they run on. *)
Definition needsKonvaObjects (m : Method) : bool :=
  match m with
  | call_get_isAcceptNode | call_get_labelText | call_createKonvaObjects _ _
  | call_konvaObject => false
  | call_handler (dragstart _) => true
  | call_handler _ => false
  | _ => true
  end.

(** A node as the constructor leaves it. *)
Definition headless (n : NodeWrapper) : Prop :=
  nodeBackground n = None ∧ nodeAcceptCircle n = None ∧ nodeLabel n = None
  ∧ nodeGroup n = None.

(** The effect of a group drag on another selected node. *)
Definition translate (p : Vector2d) (dx dy : Q) : Vector2d :=
  mkVector2d (x p + dx) (y p + dy).

Definition translateNode (dx dy : Q) (n : NodeWrapper) : NodeWrapper :=
  set_nodeGroup ((λ g, setGroupPosition (translate (position g) dx dy) g) <$> nodeGroup n) n.

(** A state with one node as the constructor leaves it. *)
Definition newNode (tool : Tool) (snap : bool) : State :=
  match NodeWrapper_new "uuid-1" "q0" None (emptyState tool snap) with
  | Some (_, s) => s
  | None => emptyState tool snap
  end.

(** [inSync] as a test, for one node and for the store. *)
Definition inSyncb (n : NodeWrapper) : bool :=
  match nodeLabel n with
  | Some l => match attrs l !! "text" with
              | Some (VStr t) => String.eqb t (_labelText n)
              | _ => false
              end
  | None => true
  end
  && match nodeAcceptCircle n with
     | Some c => match attrs c !! "visible" with
                 | Some (VBool b) => Bool.eqb b (_isAcceptNode n)
                 | _ => false
                 end
     | None => true
     end.

Definition allInSyncb (m : gmap ref NodeWrapper) : bool :=
  forallb (λ rn, inSyncb rn.2) (map_to_list m).

(** An attribute of the accept ring and of the label of a node. *)
Definition acceptCircleAttrOf (k : string) (m : gmap ref NodeWrapper) (r : ref)
  : option AttrValue :=
  n ← m !! r; c ← nodeAcceptCircle n; attrs c !! k.

Definition labelAttrOf (k : string) (m : gmap ref NodeWrapper) (r : ref) : option AttrValue :=
  n ← m !! r; l ← nodeLabel n; attrs l !! k.

(** The wrapper [updateColorScheme] leaves behind. *)
Definition recoloured (cs : ColorScheme) (bg c l : Shape) (n : NodeWrapper) : NodeWrapper :=
  set_nodeLabel (Some (setAttr "fill" (VStr (nodeLabelColor cs)) l))
    (set_nodeAcceptCircle (Some (setAttr "stroke" (VStr (nodeAcceptStrokeColor cs)) c))
      (set_nodeBackground
         (Some (setAttr "stroke" (VStr (nodeStrokeColor cs))
                  (setAttr "fill" (VStr (nodeFill cs)) bg))) n)).

(** A coordinate [snapToGrid] is exact on: a binary64 number of magnitude at
    most [2 ^ 51], so that the grid line it snaps to is within [2 ^ 52]. *)
Definition binary64Coordinate (c : Q) : Prop :=
  (binary64 c == c)%Q ∧ (Qabs c <= 2 ^ 51)%Q.

Definition binary64Position (p : Vector2d) : Prop :=
  binary64Coordinate (x p) ∧ binary64Coordinate (y p).

(** The same as tests. *)
Definition binary64Coordinateb (c : Q) : bool :=
  Qeq_bool (binary64 c) c && Qle_bool (Qabs c) (2 ^ 51).

Definition binary64Positionb (p : Vector2d) : bool :=
  binary64Coordinateb (x p) && binary64Coordinateb (y p).

(** Coordinates whose sums are exact: the multiples of [2 ^ - m] that are at
    most [2 ^ 51] steps from 0; the whole numbers up to [2 ^ 51] for
    [m = 0]. *)
Definition dyadic (m : Z) (c : Q) : Prop :=
  ∃ z : Z, (c == inject_Z z / 2 ^ m)%Q ∧ (Z.abs z <= 2 ^ 51)%Z.

Definition dyadicPosition (m : Z) (p : Vector2d) : Prop :=
  dyadic m (x p) ∧ dyadic m (y p).

(** The same as tests. *)
Definition dyadicb (m : Z) (c : Q) : bool :=
  Qeq_bool (c * 2 ^ m) (inject_Z (Qfloor (c * 2 ^ m)))
  && (Z.abs (Qfloor (c * 2 ^ m)) <=? 2 ^ 51)%Z.

Definition dyadicPositionb (m : Z) (p : Vector2d) : bool :=
  dyadicb m (x p) && dyadicb m (y p).

(** The ['move'] events the loop of [onDragMove] fires, newest first. *)
Fixpoint moveCalls (l : list SelectableObject) : list Call :=
  match l with
  | [] => []
  | NodeObject r :: l' => moveCalls l' ++ [fire_move_call r]
  | TransitionObject _ :: l' => moveCalls l'
  end.

(** Two nodes picked up together: both selected, the first one dragged. *)
Definition twoSelected : State :=
  match (a ← NodeWrapper_new "uuid-1" "q0" None;
         _ ← createKonvaObjects a 0 0;
         b ← NodeWrapper_new "uuid-2" "q1" None;
         _ ← createKonvaObjects b 200 40;
         _ ← fire b (click (mkMouseEvent false 0 0 0 0));
         fire a (dragstart (mkMouseEvent true 0 0 0 0))) (emptyState Select false) with
  | Some (_, s) => s
  | None => emptyState Select false
  end.

(** The two selected nodes with transitions between them: a loop on the
    first node, an edge from the first to the second, a loop on the second. *)
Definition linked : State :=
  mkState (nodes twoSelected) (currentTool twoSelected) (snapToGridEnabled twoSelected)
    (selectedObjects twoSelected) (tentativeTransitionInProgress twoSelected)
    (tentativeTransitionSource twoSelected) (tentativeTransitionTarget twoSelected)
    (tentativeTransitionHead twoSelected)
    [mkTransitionWrapper 1%positive 1%positive; mkTransitionWrapper 1%positive 2%positive;
     mkTransitionWrapper 2%positive 2%positive]
    (colorScheme twoSelected) (calls twoSelected).

(** The state in which the canvas has put the group of a node on its layer
    (Konva's [layer.add(group)]). *)
Definition shown (r : ref) (s : State) : State :=
  match onGroup r addToLayer s with
  | Some (_, s') => s'
  | None => s
  end.

(** The linked nodes with the first one on the layer and the second one not,
    and the given snap setting. *)
Definition linkedOnLayer (snap : bool) : State :=
  let s := shown 1%positive linked in
  mkState (nodes s) (currentTool s) snap (selectedObjects s)
    (tentativeTransitionInProgress s) (tentativeTransitionSource s)
    (tentativeTransitionTarget s) (tentativeTransitionHead s) (transitions s)
    (colorScheme s) (calls s).

(** Two nodes and three gestures in Select mode with snap-to-grid enabled.
    The second node, created at (100, 100), is picked up and dropped where it
    is.  Then the first node is added to the selection and dragged by
    (100, 100), which takes the second node to (200, 200), and dropped.  Then
    the second node is selected alone, picked up and dragged back to
    (100, 100); the state is the one before it is dropped. *)
Definition draggedBack : State :=
  match (a ← NodeWrapper_new "uuid-1" "q0" None;
         _ ← createKonvaObjects a 0 0;
         b ← NodeWrapper_new "uuid-2" "q1" None;
         _ ← createKonvaObjects b 100 100;
         _ ← fire b (dragstart (mkMouseEvent false 100 100 0 0));
         _ ← fire b dragend;
         _ ← fire a (dragstart (mkMouseEvent true 0 0 0 0));
         _ ← nativeDrag a (mkVector2d 100 100);
         _ ← fire a (dragmove (mkMouseEvent true 100 100 100 100));
         _ ← fire a dragend;
         _ ← fire b (click (mkMouseEvent false 200 200 0 0));
         _ ← fire b (dragstart (mkMouseEvent false 200 200 0 0));
         _ ← nativeDrag b (mkVector2d 100 100);
         fire b (dragmove (mkMouseEvent false 100 100 (-100) (-100))))
          (emptyState Select true) with
  | Some (_, s) => s
  | None => emptyState Select true
  end.

(** Whether a child of the group of a node of the store is part of the
    error overlay. *)
Definition errorChildOf (m : gmap ref NodeWrapper) (r : ref) (c : Child) : bool :=
  from_option (λ n, isErrorElement n c) false (m !! r).

(** The font size of the label is a whole number from 10 to 15. *)
Definition fontInRange (n : NodeWrapper) : Prop :=
  ∀ l, nodeLabel n = Some l →
       ∃ z : Z, (getFontSize (attrs l) == inject_Z z)%Q ∧ (10 <= z <= 15)%Z.

(** The same as a test, for one node and for the store. *)
Definition fontInRangeb (n : NodeWrapper) : bool :=
  match nodeLabel n with
  | Some l => let q := getFontSize (attrs l) in
              Qeq_bool q (inject_Z (Qfloor q)) && Qle_bool 10 q && Qle_bool q 15
  | None => true
  end.

Definition allFontInRangeb (m : gmap ref NodeWrapper) : bool :=
  forallb (λ rn, fontInRangeb rn.2) (map_to_list m).

(** * Properties *)

Local Open Scope list_scope.

(** ** Rounding to the grid *)

Section Rounding.
Local Open Scope Q_scope.

Lemma Math_round_bounds (q : Q) : Math_round q - (1 # 2) <= q < Math_round q + (1 # 2).
Proof.
  unfold Math_round.
  pose proof (Qfloor_le (q + (1 # 2))) as Hl.
  pose proof (Qlt_floor (q + (1 # 2))) as Hu.
  rewrite inject_Z_plus in Hu. change (inject_Z 1) with 1 in Hu.
  split; lra.
Qed.

Lemma round_floor_unique (q : Q) (k : Z) :
  inject_Z k - (1 # 2) <= q < inject_Z k + (1 # 2) → Qfloor (q + (1 # 2)) = k.
Proof.
  intros [Hl Hu].
  pose proof (Qfloor_le (q + (1 # 2))) as Hfl.
  pose proof (Qlt_floor (q + (1 # 2))) as Hfu.
  assert (inject_Z (Qfloor (q + (1 # 2))) < inject_Z (k + 1)) as H1.
  { rewrite inject_Z_plus. change (inject_Z 1) with 1. lra. }
  assert (inject_Z k < inject_Z (Qfloor (q + (1 # 2)) + 1)) as H2 by lra.
  rewrite <- Zlt_Qlt in H1, H2. lia.
Qed.

Lemma snapped_eq (c : Q) :
  snapped c = inject_Z (Qfloor (c / gridCellSize + (1 # 2)) * 50).
Proof. reflexivity. Qed.

Lemma snapped_nearest (c : Q) : snapped c - 25 <= c < snapped c + 25.
Proof.
  unfold snapped. pose proof (Math_round_bounds (c / gridCellSize)) as [Hl Hu].
  unfold gridCellSize in *.
  assert (c / 50 * 50 == c) as E by field.
  split.
  - rewrite <- E at 2. lra.
  - rewrite <- E at 1. lra.
Qed.

Lemma snapped_grid (c : Q) (k : Z) : nearestGridLine k c → snapped c = inject_Z (k * 50).
Proof.
  intros [Hl Hu]. rewrite snapped_eq. do 2 f_equal.
  apply round_floor_unique. unfold gridCellSize.
  assert (c / 50 * 50 == c) as E by field. lra.
Qed.

Lemma snapped_nearestGridLine (c : Q) :
  nearestGridLine (Qfloor (c / gridCellSize + (1 # 2))) c.
Proof.
  pose proof (snapped_nearest c) as H. rewrite snapped_eq, inject_Z_mult in H.
  exact H.
Qed.

Lemma snapped_on_grid (c : Q) (k : Z) : c == inject_Z k * 50 → snapped c = inject_Z (k * 50).
Proof. intros E. apply snapped_grid. unfold nearestGridLine. lra. Qed.

Lemma snapped_halfway (c : Q) (k : Z) :
  c == inject_Z k * 50 + 25 → snapped c = inject_Z ((k + 1) * 50).
Proof.
  intros E. apply snapped_grid. unfold nearestGridLine.
  rewrite inject_Z_plus. change (inject_Z 1) with 1. lra.
Qed.

Lemma snapped_idempotent (c : Q) : snapped (snapped c) = snapped c.
Proof.
  rewrite (snapped_eq c). apply snapped_on_grid.
  unfold Qeq. simpl. lia.
Qed.

Lemma snappedPosition_idempotent (p : Vector2d) :
  snappedPosition (snappedPosition p) = snappedPosition p.
Proof. unfold snappedPosition. cbn. by rewrite !snapped_idempotent. Qed.

Lemma snappedPosition_origin : snappedPosition origin = origin.
Proof. reflexivity. Qed.

Lemma gtb_false (a b : Q) : gtb a b = false ↔ a <= b.
Proof.
  unfold gtb. rewrite negb_false_iff. apply Qle_bool_iff.
Qed.

Lemma gtb_true (a b : Q) : gtb a b = true ↔ b < a.
Proof.
  unfold gtb. rewrite negb_true_iff. split.
  - intros H. apply Qnot_le_lt. intros Hle. apply Qle_bool_iff in Hle. congruence.
  - intros H. destruct (Qle_bool a b) eqn:E; [|done].
    apply Qle_bool_iff in E. lra.
Qed.



(** Equal coordinates are never reported as moved. *)
Lemma moved_same (p q : Vector2d) : x p == x q → y p == y q → moved p q = false.
Proof.
  intros Ex Ey. unfold moved. apply orb_false_iff.
  split; apply gtb_false; unfold Math_abs, epsilon; apply Qabs_Qle_condition; split; lra.
Qed.

(** ** binary64 and the exact arithmetic *)

Lemma Qfloor_unique (q : Q) (k : Z) : inject_Z k <= q < inject_Z k + 1 → Qfloor q = k.
Proof.
  intros [H1 H2]. pose proof (Qfloor_le q) as F1. pose proof (Qlt_floor q) as F2.
  rewrite inject_Z_plus in F2. change (inject_Z 1) with 1 in F2.
  assert (inject_Z (Qfloor q) < inject_Z k + 1) as A by lra.
  assert (inject_Z k < inject_Z (Qfloor q) + 1) as B by lra.
  change 1 with (inject_Z 1) in A, B. rewrite <- inject_Z_plus in A, B.
  rewrite <- Zlt_Qlt in A, B. lia.
Qed.

Lemma roundHalfEven_comp (p q : Q) : p == q → roundHalfEven p = roundHalfEven q.
Proof.
  intros E. unfold roundHalfEven. rewrite (Qfloor_comp _ _ E).
  assert (p - inject_Z (Qfloor q) == q - inject_Z (Qfloor q)) as E' by (rewrite E; reflexivity).
  rewrite (Qcompare_comp _ _ E' (1 # 2) (1 # 2)) by reflexivity. reflexivity.
Qed.

Lemma roundHalfEven_inject_Z (z : Z) : roundHalfEven (inject_Z z) = z.
Proof.
  unfold roundHalfEven. rewrite Qfloor_Z.
  destruct (Qcompare_spec (inject_Z z - inject_Z z) (1 # 2)) as [E|E|E];
    [lra|reflexivity|lra].
Qed.

Lemma roundHalfEven_close (q : Q) : Qabs (inject_Z (roundHalfEven q) - q) <= 1 # 2.
Proof.
  unfold roundHalfEven. pose proof (Qfloor_le q) as F1. pose proof (Qlt_floor q) as F2.
  rewrite inject_Z_plus in F2. change (inject_Z 1) with 1 in F2.
  apply Qabs_Qle_condition.
  destruct (Qcompare_spec (q - inject_Z (Qfloor q)) (1 # 2)) as [E|E|E].
  - destruct (Z.even (Qfloor q)).
    + split; lra.
    + rewrite inject_Z_plus. change (inject_Z 1) with 1. split; lra.
  - split; lra.
  - rewrite inject_Z_plus. change (inject_Z 1) with 1. split; lra.
Qed.

Lemma two_power_pos (n : Z) : 0 < 2 ^ n.
Proof. apply Qpower_0_lt. reflexivity. Qed.

Lemma two_power_Z (n : Z) : (0 <= n)%Z → 2 ^ n == inject_Z (2 ^ n).
Proof. intros H. rewrite Zpower_Qpower by exact H. reflexivity. Qed.

Lemma floorLog2_le (q : Q) : ¬ q == 0 → 2 ^ floorLog2 q <= Qabs q.
Proof.
  intros Hq. unfold floorLog2.
  set (e := (Z.log2 (Z.abs (Qnum q)) - Z.log2 (Zpos (Qden q)))%Z).
  destruct (Qle_bool (2 ^ e) (Qabs q)) eqn:T; [now apply Qle_bool_iff|].
  clear T. subst e. destruct q as [n d]. cbn [Qnum Qden].
  assert (0 < Z.abs n)%Z as Ha.
  { destruct n; [|lia|lia]. exfalso. apply Hq. reflexivity. }
  pose proof (Z.log2_spec _ Ha) as [A1 _].
  pose proof (Z.log2_spec (Zpos d) ltac:(lia)) as [_ B2].
  pose proof (Z.log2_nonneg (Z.abs n)) as La.
  pose proof (Z.log2_nonneg (Zpos d)) as Lb.
  rewrite <- Z.add_1_r in B2.
  set (la := Z.log2 (Z.abs n)) in *. set (lb := Z.log2 (Zpos d)) in *.
  replace (la - lb - 1)%Z with (la - (lb + 1))%Z by lia.
  rewrite Qpower_minus by discriminate.
  rewrite (two_power_Z la), (two_power_Z (lb + 1)) by lia.
  set (A := (2 ^ la)%Z) in *. set (B := (2 ^ (lb + 1))%Z) in *.
  apply Qle_shift_div_r; [change 0 with (inject_Z 0); rewrite <- Zlt_Qlt; lia|].
  change (Qabs (n # d)) with (Z.abs n # d).
  unfold Qle, Qmult, inject_Z. cbn [Qnum Qden]. nia.
Qed.

Lemma lastPlace_le (q : Q) (n : Z) :
  ¬ q == 0 → Qabs q < 2 ^ n → (-1021 <= n)%Z → (lastPlace q <= n - 53)%Z.
Proof.
  intros Hq Hlt Hn. pose proof (floorLog2_le q Hq) as Hle.
  assert (2 ^ floorLog2 q < 2 ^ n) as H by lra.
  apply Qpower_lt_compat_l_inv in H; [|reflexivity].
  unfold lastPlace. lia.
Qed.

Lemma binary64_zero (q : Q) : q == 0 → binary64 q = 0.
Proof. intros E. unfold binary64. apply Qeq_bool_iff in E. now rewrite E. Qed.

Lemma binary64_exact (q : Q) (z n : Z) :
  (0 <= n)%Z → q == inject_Z z / 2 ^ n → (lastPlace q <= - n)%Z → binary64 q == q.
Proof.
  intros Hn Hq He. unfold binary64. destruct (Qeq_bool q 0) eqn:T.
  { apply Qeq_bool_iff in T. now rewrite T. }
  set (e := lastPlace q) in *.
  assert (q / 2 ^ e == inject_Z (z * 2 ^ (- n - e))) as E.
  { rewrite inject_Z_mult, <- two_power_Z by lia.
    rewrite Qpower_minus, Qpower_opp by discriminate. rewrite Hq.
    field. split; apply Qpower_not_0; discriminate. }
  rewrite (roundHalfEven_comp _ _ E), roundHalfEven_inject_Z.
  rewrite inject_Z_mult, <- two_power_Z by lia.
  rewrite Qpower_minus, Qpower_opp by discriminate. rewrite Hq.
  field. split; apply Qpower_not_0; discriminate.
Qed.

Lemma binary64_close (q : Q) : Qabs (binary64 q - q) <= 2 ^ lastPlace q * (1 # 2).
Proof.
  pose proof (two_power_pos (lastPlace q)) as P.
  unfold binary64. destruct (Qeq_bool q 0) eqn:T.
  { apply Qeq_bool_iff in T. set (w := 2 ^ lastPlace q) in *. clearbody w.
    apply Qabs_Qle_condition. split; lra. }
  set (e := lastPlace q) in *.
  pose proof (roundHalfEven_close (q / 2 ^ e)) as C.
  set (m := inject_Z (roundHalfEven (q / 2 ^ e))) in *.
  assert (m * 2 ^ e - q == (m - q / 2 ^ e) * 2 ^ e) as ->.
  { field. apply Qpower_not_0. discriminate. }
  rewrite Qabs_Qmult, (Qabs_pos (2 ^ e)) by apply Qlt_le_weak, P.
  rewrite (Qmult_comm (2 ^ e)).
  apply Qmult_le_compat_r; [exact C|apply Qlt_le_weak, P].
Qed.

(** An integer below [2 ^ 53] in magnitude is a binary64 number. *)
Lemma binary64_integer (q : Q) (z : Z) :
  q == inject_Z z → (Z.abs z < 2 ^ 53)%Z → binary64 q == q.
Proof.
  intros Hq Hz. destruct (Qeq_dec q 0) as [E|E].
  { rewrite (binary64_zero q E). now rewrite E. }
  apply (binary64_exact q z 0); [lia|rewrite Hq; change (2 ^ 0) with 1; field|].
  apply (lastPlace_le q 53); [exact E| |lia].
  rewrite Hq. change (Qabs (inject_Z z)) with (inject_Z (Z.abs z)).
  rewrite two_power_Z by lia. rewrite <- Zlt_Qlt. exact Hz.
Qed.

(** So is an integer and a half below [2 ^ 52]. *)
Lemma binary64_half (q : Q) (z : Z) :
  q == inject_Z z - (1 # 2) → Qabs q < 2 ^ 52 → binary64 q == q.
Proof.
  intros Hq Hlt. destruct (Qeq_dec q 0) as [E|E].
  { rewrite (binary64_zero q E). now rewrite E. }
  apply (binary64_exact q (2 * z - 1) 1); [lia| |].
  - rewrite Hq. unfold Zminus. rewrite inject_Z_plus, inject_Z_mult, inject_Z_opp.
    change (2 ^ 1) with 2. change (inject_Z 2) with 2. change (inject_Z 1) with 1. field.
  - apply (lastPlace_le q 52); [exact E|exact Hlt|lia].
Qed.

Lemma binary64_near (q : Q) (n : Z) :
  Qabs q < 2 ^ n → (-1021 <= n)%Z → Qabs (binary64 q - q) <= 2 ^ (n - 53) * (1 # 2).
Proof.
  intros Hlt Hn. destruct (Qeq_dec q 0) as [E|E].
  { rewrite (binary64_zero q E). pose proof (two_power_pos (n - 53)).
    set (w := 2 ^ (n - 53)) in *. clearbody w. apply Qabs_Qle_condition. split; lra. }
  eapply Qle_trans; [apply binary64_close|].
  apply Qmult_le_compat_r; [|discriminate].
  apply Qpower_le_compat_l; [|discriminate]. now apply lastPlace_le.
Qed.

Lemma floorLog2_lt (q : Q) : ~ q == 0 → Qabs q < 2 ^ (floorLog2 q + 1).
Proof.
  intros Hq. unfold floorLog2.
  set (e := (Z.log2 (Z.abs (Qnum q)) - Z.log2 (Zpos (Qden q)))%Z).
  destruct (Qle_bool (2 ^ e) (Qabs q)) eqn:T.
  - clear T. subst e. destruct q as [n d]. cbn [Qnum Qden].
    assert (0 < Z.abs n)%Z as Ha.
    { destruct n; [|lia|lia]. exfalso. apply Hq. reflexivity. }
    pose proof (Z.log2_spec _ Ha) as [_ A2].
    pose proof (Z.log2_spec (Zpos d) ltac:(lia)) as [B1 _].
    pose proof (Z.log2_nonneg (Z.abs n)) as La.
    pose proof (Z.log2_nonneg (Zpos d)) as Lb.
    rewrite <- Z.add_1_r in A2.
    set (la := Z.log2 (Z.abs n)) in *. set (lb := Z.log2 (Zpos d)) in *.
    replace (la - lb + 1)%Z with ((la + 1) - lb)%Z by lia.
    rewrite Qpower_minus by discriminate.
    rewrite (two_power_Z (la + 1)), (two_power_Z lb) by lia.
    assert (0 < 2 ^ lb)%Z as Bpos by (apply Z.pow_pos_nonneg; lia).
    set (A := (2 ^ (la + 1))%Z) in *. set (B := (2 ^ lb)%Z) in *.
    apply Qlt_shift_div_l; [change 0 with (inject_Z 0); rewrite <- Zlt_Qlt; lia|].
    change (Qabs (n # d)) with (Z.abs n # d).
    unfold Qlt, Qmult, inject_Z. cbn [Qnum Qden]. nia.
  - replace (e - 1 + 1)%Z with e by lia.
    apply Qnot_le_lt. intros H. apply Qle_bool_iff in H. congruence.
Qed.

(** A binary64 number is its significand, an integer below [2 ^ 53] in
    magnitude, times the power of two of its last place. *)
Lemma binary64_significand (c : Q) :
  ¬ c == 0 → binary64 c == c →
  c == inject_Z (roundHalfEven (c / 2 ^ lastPlace c)) * 2 ^ lastPlace c
  ∧ (Z.abs (roundHalfEven (c / 2 ^ lastPlace c)) < 2 ^ 53)%Z.
Proof.
  intros Hc Hb. set (e := lastPlace c). set (r := roundHalfEven (c / 2 ^ e)).
  assert (binary64 c = inject_Z r * 2 ^ e) as Hdef.
  { unfold binary64. destruct (Qeq_bool c 0) eqn:T; [|reflexivity].
    apply Qeq_bool_iff in T. contradiction. }
  assert (c == inject_Z r * 2 ^ e) as E by (rewrite <- Hdef; symmetry; exact Hb).
  split; [exact E|].
  pose proof (floorLog2_lt c Hc) as Hlt. pose proof (two_power_pos e) as We.
  assert (floorLog2 c + 1 <= e + 53)%Z as He by (unfold e, lastPlace; lia).
  assert (2 ^ (floorLog2 c + 1) <= 2 ^ (e + 53)) as Hle
    by (apply Qpower_le_compat_l; [exact He|discriminate]).
  rewrite (Qpower_plus 2 e 53) in Hle by discriminate.
  assert (Qabs c == inject_Z (Z.abs r) * 2 ^ e) as Ea.
  { rewrite E at 1. rewrite Qabs_Qmult, (Qabs_pos (2 ^ e)) by apply Qlt_le_weak, We.
    reflexivity. }
  rewrite Ea in Hlt.
  assert (inject_Z (Z.abs r) * 2 ^ e < 2 ^ 53 * 2 ^ e) as H.
  { eapply Qlt_le_trans; [exact Hlt|]. rewrite (Qmult_comm (2 ^ 53)). exact Hle. }
  apply Qmult_lt_r in H; [|exact We].
  rewrite two_power_Z in H by lia. rewrite <- Zlt_Qlt in H. exact H.
Qed.

(** Rounding the quotient by 50 of a binary64 number with last place
    [2 ^ - m] does not change the integer nearest to it. *)
Lemma round_quotient_dyadic (q : Q) (z m k : Z) :
  (0 <= m <= 1000)%Z → q * 50 * 2 ^ m == inject_Z z → (Z.abs z < 2 ^ 53)%Z →
  k = Qfloor (q + (1 # 2)) → Qfloor (binary64 q + (1 # 2)) = k.
Proof.
  intros Hm Hq Hz Hk.
  pose proof (Qfloor_le (q + (1 # 2))) as F1. pose proof (Qlt_floor (q + (1 # 2))) as F2.
  rewrite <- Hk in F1, F2. clear Hk.
  rewrite inject_Z_plus in F2. change (inject_Z 1) with 1 in F2.
  pose proof (two_power_pos m) as Wpos.
  pose proof (two_power_Z m ltac:(lia)) as WZ.
  assert (0 < 2 ^ m)%Z as WZpos by (apply Z.pow_pos_nonneg; lia).
  set (W := (2 ^ m)%Z) in *. set (w := 2 ^ m) in *.
  change (2 ^ 53)%Z with 9007199254740992%Z in Hz.
  (* the size of q *)
  assert (Qabs q * w < 2 ^ 48) as Hsize.
  { assert (Qabs q * 50 * w == inject_Z (Z.abs z)) as Ea.
    { change (inject_Z (Z.abs z)) with (Qabs (inject_Z z)). rewrite <- Hq.
      rewrite !Qabs_Qmult. rewrite (Qabs_pos w) by apply Qlt_le_weak, Wpos.
      reflexivity. }
    assert (inject_Z (Z.abs z) < 9007199254740992) as Hz'
      by (change 9007199254740992 with (inject_Z 9007199254740992); rewrite <- Zlt_Qlt; exact Hz).
    change (2 ^ 48) with 281474976710656.
    set (a := Qabs q * w) in *.
    assert (a * 50 == inject_Z (Z.abs z)) as Ea' by (rewrite <- Ea; unfold a; ring).
    lra. }
  assert (Qabs q < 2 ^ (48 - m)) as Hq48.
  { rewrite Qpower_minus by discriminate. fold w. apply Qlt_shift_div_l; [exact Wpos|exact Hsize]. }
  pose proof (binary64_near q (48 - m) Hq48 ltac:(lia)) as Hnear.
  replace (48 - m - 53)%Z with (-5 - m)%Z in Hnear by lia.
  rewrite Qpower_minus in Hnear by discriminate. fold w in Hnear.
  change (2 ^ (-5)) with (1 # 32) in Hnear.
  set (u := / w).
  assert (0 < u) as Upos by (apply Qinv_lt_0_compat; exact Wpos).
  assert (u * w == 1) as Uw by (unfold u; field; apply Qpower_not_0; discriminate).
  assert ((1 # 32) / w * (1 # 2) == u * (1 # 64)) as Eu
    by (unfold u; field; apply Qpower_not_0; discriminate).
  rewrite Eu in Hnear. clear Eu.
  assert (q * 50 == inject_Z z * u) as Hqu.
  { rewrite <- Hq. transitivity (q * 50 * (u * w)); [rewrite Uw; ring|ring]. }
  destruct (Qeq_dec q (inject_Z k - (1 # 2))) as [E|E].
  - rewrite (Qfloor_comp (binary64 q + (1 # 2)) (q + (1 # 2))).
    + apply Qfloor_unique. split; lra.
    + rewrite (binary64_half q k E); [reflexivity|].
      eapply Qlt_le_trans; [exact Hq48|]. apply Qpower_le_compat_l; [lia|discriminate].
  - (* the integer inequalities *)
    assert (inject_Z ((50 * k - 25) * W) <= inject_Z z) as L1.
    { rewrite inject_Z_mult, <- WZ, <- Hq. unfold Zminus.
      rewrite inject_Z_plus, inject_Z_mult, inject_Z_opp.
      change (inject_Z 50) with 50. change (inject_Z 25) with 25.
      apply Qmult_le_compat_r; [lra|apply Qlt_le_weak, Wpos]. }
    assert (inject_Z z < inject_Z ((50 * k + 25) * W)) as L2.
    { rewrite inject_Z_mult, <- WZ, <- Hq.
      rewrite inject_Z_plus, inject_Z_mult.
      change (inject_Z 50) with 50. change (inject_Z 25) with 25.
      apply Qmult_lt_compat_r; [exact Wpos|lra]. }
    rewrite <- Zle_Qle in L1. rewrite <- Zlt_Qlt in L2.
    assert ((50 * k - 25) * W <> z)%Z as Hne.
    { intros Hz0. apply E.
      assert (q * 50 * w == (inject_Z k * 50 - 25) * w) as E1.
      { rewrite Hq, <- Hz0, inject_Z_mult, <- WZ. unfold Zminus.
        rewrite inject_Z_plus, inject_Z_mult, inject_Z_opp.
        change (inject_Z 50) with 50. change (inject_Z 25) with 25. ring. }
      apply Qmult_inj_r in E1; [lra|]. apply Qpower_not_0. discriminate. }
    assert ((50 * inject_Z k - 25) * w + 1 <= inject_Z z) as M1.
    { assert (inject_Z ((50 * k - 25) * W + 1) <= inject_Z z) as H
        by (rewrite <- Zle_Qle; lia).
      rewrite inject_Z_plus, inject_Z_mult in H. unfold Zminus in H.
      rewrite inject_Z_plus, inject_Z_mult, inject_Z_opp, <- WZ in H.
      change (inject_Z 50) with 50 in H. change (inject_Z 25) with 25 in H.
      change (inject_Z 1) with 1 in H. lra. }
    assert (inject_Z z <= (50 * inject_Z k + 25) * w - 1) as M2.
    { assert (inject_Z z <= inject_Z ((50 * k + 25) * W - 1)) as H
        by (rewrite <- Zle_Qle; lia).
      unfold Zminus in H. rewrite inject_Z_plus, inject_Z_mult in H.
      rewrite inject_Z_plus, inject_Z_mult, inject_Z_opp, <- WZ in H.
      change (inject_Z 50) with 50 in H. change (inject_Z 25) with 25 in H.
      change (inject_Z 1) with 1 in H. lra. }
    assert ((50 * inject_Z k - 25) + u <= inject_Z z * u) as N1.
    { apply Qmult_le_compat_r with (z := u) in M1; [|apply Qlt_le_weak, Upos].
      assert (((50 * inject_Z k - 25) * w + 1) * u == (50 * inject_Z k - 25) + u) as <-
        by (transitivity ((50 * inject_Z k - 25) * (u * w) + u); [ring|rewrite Uw; ring]).
      exact M1. }
    assert (inject_Z z * u <= (50 * inject_Z k + 25) - u) as N2.
    { apply Qmult_le_compat_r with (z := u) in M2; [|apply Qlt_le_weak, Upos].
      assert (((50 * inject_Z k + 25) * w - 1) * u == (50 * inject_Z k + 25) - u) as <-
        by (transitivity ((50 * inject_Z k + 25) * (u * w) - u); [ring|rewrite Uw; ring]).
      exact M2. }
    apply Qabs_Qle_condition in Hnear as [N3 N4].
    set (b := binary64 q) in *. set (zu := inject_Z z * u) in *. clearbody b zu.
    clear - N1 N2 N3 N4 Hqu Upos.
    apply Qfloor_unique. split; lra.
Qed.

(** The grid coordinate as the source computes it is the exact one, for
    every binary64 coordinate of magnitude at most [2 ^ 52]. *)
Lemma snapped64_binary64 (c : Q) :
  binary64 c == c → Qabs c <= 2 ^ 52 → snapped64 c == Math_round (c / 50) * 50.
Proof.
  intros Hb Hc. unfold snapped64, Math_round.
  assert (Qfloor (binary64 (c / 50) + (1 # 2)) = Qfloor (c / 50 + (1 # 2))) as ->.
  { destruct (Qlt_le_dec (Qabs c) 1) as [Hsmall|Hbig].
    - assert (Qabs (c / 50) < 2 ^ (-5)) as H5.
      { change (2 ^ (-5)) with (1 # 32). apply Qabs_Qlt_condition in Hsmall as [S1 S2].
        apply Qabs_Qlt_condition. assert (c / 50 * 50 == c) as E by field. split; lra. }
      pose proof (binary64_near (c / 50) (-5) H5 ltac:(lia)) as Hnear.
      change (2 ^ (-5 - 53) * (1 # 2)) with (1 # 576460752303423488) in Hnear.
      apply Qabs_Qle_condition in Hnear as [N1 N2].
      change (2 ^ (-5)) with (1 # 32) in H5. apply Qabs_Qlt_condition in H5 as [S1 S2].
      transitivity 0%Z; [|symmetry]; apply Qfloor_unique; change (inject_Z 0) with 0; split; lra.
    - assert (~ c == 0) as Hc0.
      { intros E. rewrite E in Hbig. revert Hbig. apply Qlt_not_le. reflexivity. }
      destruct (binary64_significand c Hc0 Hb) as [E Hr].
      pose proof (floorLog2_le c Hc0) as Hfl. pose proof (floorLog2_lt c Hc0) as Hfu.
      assert (floorLog2 c <= 52)%Z as H52.
      { apply (Qpower_le_compat_l_inv 2 (floorLog2 c) 52); [|reflexivity].
        eapply Qle_trans; [exact Hfl|exact Hc]. }
      assert (0 <= floorLog2 c)%Z as H0.
      { assert (2 ^ 0 < 2 ^ (floorLog2 c + 1)) as H
          by (eapply Qle_lt_trans; [exact Hbig|exact Hfu]).
        apply (Qpower_lt_compat_l_inv 2 0 (floorLog2 c + 1)) in H; [lia|reflexivity]. }
      assert (lastPlace c = floorLog2 c - 52)%Z as El by (unfold lastPlace; lia).
      set (r := roundHalfEven (c / 2 ^ lastPlace c)) in *.
      apply (round_quotient_dyadic (c / 50) r (- lastPlace c)); [lia| |exact Hr|reflexivity].
      rewrite Qpower_opp. rewrite E at 1. field. apply Qpower_not_0. discriminate. }
  set (k := Qfloor (c / 50 + (1 # 2))).
  apply (binary64_integer _ (k * 50)); [rewrite inject_Z_mult; reflexivity|].
  pose proof (Qfloor_le (c / 50 + (1 # 2))) as F1. pose proof (Qlt_floor (c / 50 + (1 # 2))) as F2.
  fold k in F1, F2. rewrite inject_Z_plus in F2. change (inject_Z 1) with 1 in F2.
  change (2 ^ 52) with 4503599627370496 in Hc. apply Qabs_Qle_condition in Hc as [C1 C2].
  assert (c / 50 * 50 == c) as E by field.
  assert (inject_Z (-9007199254740992) < inject_Z (k * 50) < inject_Z 9007199254740992) as [K1 K2].
  { rewrite inject_Z_mult. change (inject_Z 50) with 50.
    change (inject_Z (-9007199254740992)) with (-9007199254740992).
    change (inject_Z 9007199254740992) with 9007199254740992. split; lra. }
  rewrite <- Zlt_Qlt in K1, K2. change (2 ^ 53)%Z with 9007199254740992%Z. lia.
Qed.

(** A sum of two multiples of [2 ^ - m] that stays within 53 bits is
    exact. *)
Lemma binary64_sum (a b : Q) (m : Z) :
  (0 <= m <= 1000)%Z → dyadic m a → dyadic m b → binary64 (a + b) == a + b.
Proof.
  intros Hm (za & Ha & Hza) (zb & Hb & Hzb).
  pose proof (two_power_pos m) as Wpos.
  assert (a + b == inject_Z (za + zb) / 2 ^ m) as E.
  { rewrite Ha, Hb, inject_Z_plus. field. apply Qpower_not_0. discriminate. }
  destruct (Qeq_dec (a + b) 0) as [E0|E0].
  { rewrite (binary64_zero _ E0). by rewrite E0. }
  apply (binary64_exact _ (za + zb) m); [lia|exact E|].
  replace (- m)%Z with (53 - m - 53)%Z by lia.
  apply lastPlace_le; [exact E0| |lia].
  rewrite Qpower_minus by discriminate. apply Qlt_shift_div_l; [exact Wpos|].
  rewrite <- (Qabs_pos (2 ^ m)) at 1 by apply Qlt_le_weak, Wpos.
  rewrite <- Qabs_Qmult.
  assert ((a + b) * 2 ^ m == inject_Z (za + zb)) as ->
    by (rewrite E; field; apply Qpower_not_0; discriminate).
  change (Qabs (inject_Z (za + zb))) with (inject_Z (Z.abs (za + zb))).
  rewrite two_power_Z by lia. rewrite <- Zlt_Qlt.
  change (2 ^ 51)%Z with 2251799813685248%Z in *.
  change (2 ^ 53)%Z with 9007199254740992%Z. lia.
Qed.

(** Beyond that range the source does not compute the exact values: the
    coordinate [2 ^ 60] is left where it is, which is not what the exact
    formula gives; [1801439850948200192] moves by 256; and a sum of
    fractions is rounded. *)
Lemma binary64_is_not_exact :
  ¬ snapped64 (inject_Z (2 ^ 60)) == Math_round (inject_Z (2 ^ 60) / 50) * 50
  ∧ snapped64 (inject_Z (2 ^ 60)) == inject_Z (2 ^ 60)
  ∧ snapped64 1801439850948200192 == 1801439850948200192 - 256
  ∧ ¬ binary64 (binary64 (1 # 10) + binary64 (2 # 10)) == binary64 (3 # 10).
Proof.
  split; [|split; [|split]].
  - intros H. vm_compute in H. discriminate H.
  - vm_compute. reflexivity.
  - vm_compute. reflexivity.
  - intros H. vm_compute in H. discriminate H.
Qed.

Lemma binary64Coordinateb_spec (c : Q) : binary64Coordinateb c = true → binary64Coordinate c.
Proof.
  unfold binary64Coordinateb. intros [E H]%andb_true_iff.
  split; [by apply Qeq_bool_iff|by apply Qle_bool_iff].
Qed.

Lemma binary64Positionb_spec (p : Vector2d) : binary64Positionb p = true → binary64Position p.
Proof.
  unfold binary64Positionb. intros [H1 H2]%andb_true_iff.
  split; by apply binary64Coordinateb_spec.
Qed.

Lemma dyadicb_spec (m : Z) (c : Q) : dyadicb m c = true → dyadic m c.
Proof.
  unfold dyadicb. intros [E H]%andb_true_iff.
  exists (Qfloor (c * 2 ^ m)). split; [|by apply Z.leb_le].
  apply Qeq_bool_iff in E. rewrite <- E. field. apply Qpower_not_0. discriminate.
Qed.

Lemma dyadicPositionb_spec (m : Z) (p : Vector2d) :
  dyadicPositionb m p = true → dyadicPosition m p.
Proof.
  unfold dyadicPositionb. intros [H1 H2]%andb_true_iff. split; by apply dyadicb_spec.
Qed.

(** On such a coordinate the source computes the grid line of the model,
    and computes it again from that grid line. *)
Lemma snapped64_snapped (c : Q) : binary64Coordinate c → snapped64 c == snapped c.
Proof.
  intros [Hb Hc]. unfold snapped, gridCellSize. apply snapped64_binary64; [exact Hb|].
  eapply Qle_trans; [exact Hc|]. apply Qpower_le_compat_l; [lia|discriminate].
Qed.

Lemma snapped64_again (c : Q) : binary64Coordinate c → snapped64 (snapped c) == snapped c.
Proof.
  intros [_ Hc]. rewrite <- (snapped_idempotent c) at 2.
  unfold snapped at 3. unfold gridCellSize.
  pose proof (snapped_nearest c) as [H1 H2]. rewrite snapped_eq in H1, H2 |- *.
  set (k := (Qfloor (c / gridCellSize + (1 # 2)) * 50)%Z) in *.
  change (2 ^ 51) with 2251799813685248 in Hc. apply Qabs_Qle_condition in Hc as [C1 C2].
  assert (inject_Z (-4503599627370496) <= inject_Z k <= inject_Z 4503599627370496) as [K1 K2].
  { change (inject_Z (-4503599627370496)) with (-4503599627370496).
    change (inject_Z 4503599627370496) with 4503599627370496. split; lra. }
  apply snapped64_binary64.
  - apply (binary64_integer _ k); [reflexivity|].
    rewrite <- Zle_Qle in K1, K2. change (2 ^ 53)%Z with 9007199254740992%Z. lia.
  - change (2 ^ 52) with 4503599627370496. apply Qabs_Qle_condition.
    change (inject_Z (-4503599627370496)) with (-4503599627370496) in K1.
    change (inject_Z 4503599627370496) with 4503599627370496 in K2. split; lra.
Qed.
End Rounding.

(** ** Running the primitives *)

Lemma bind_run {A B} (m : M A) (f : A → M B) (s : State) :
  (m ≫= f) s = match m s with Some (a, s') => f a s' | None => None end.
Proof. reflexivity. Qed.

(** One step through a bind whose first action is a primitive. *)
Ltac mstep := rewrite bind_run; cbn [gets modify]; cbv beta iota.

Lemma readNode_run s r n : nodes s !! r = Some n → readNode r s = Some (n, s).
Proof. intros H. unfold readNode. by rewrite H. Qed.

Lemma nodePosition_run s r n g :
  nodes s !! r = Some n → nodeGroup n = Some g → nodePosition r s = Some (position g, s).
Proof.
  intros Hn Hg. unfold nodePosition. rewrite bind_run, (readNode_run _ _ _ Hn).
  cbv beta iota. by rewrite Hg.
Qed.

Lemma onGroup_run s r n g f :
  nodes s !! r = Some n → nodeGroup n = Some g →
  onGroup r f s = Some (tt, set_nodes (<[r := set_nodeGroup (Some (f g)) n]> (nodes s)) s).
Proof.
  intros Hn Hg. unfold onGroup. rewrite bind_run, (readNode_run _ _ _ Hn).
  cbv beta iota. by rewrite Hg.
Qed.

Lemma onBackground_run s r n bg f :
  nodes s !! r = Some n → nodeBackground n = Some bg →
  onBackground r f s
  = Some (tt, set_nodes (<[r := set_nodeBackground (Some (f bg)) n]> (nodes s)) s).
Proof.
  intros Hn Hg. unfold onBackground. rewrite bind_run, (readNode_run _ _ _ Hn).
  cbv beta iota. by rewrite Hg.
Qed.

Lemma hasKonvaObjects_group n : hasKonvaObjects n = true → ∃ g, nodeGroup n = Some g.
Proof.
  unfold hasKonvaObjects. rewrite !andb_true_iff, !bool_decide_eq_true.
  intros [_ [g Hg]]. eauto.
Qed.

Lemma hasKonvaObjects_background n : hasKonvaObjects n = true → ∃ bg, nodeBackground n = Some bg.
Proof.
  unfold hasKonvaObjects. rewrite !andb_true_iff, !bool_decide_eq_true.
  intros [[[[g Hg] _] _] _]. eauto.
Qed.

Lemma position_setGroupPosition p g : position (setGroupPosition p g) = p.
Proof.
  destruct p as [px py]. unfold position, setGroupPosition, getNum. cbn.
  rewrite lookup_insert_ne by done. rewrite !lookup_insert_eq. reflexivity.
Qed.

Lemma position_snapGroup g : position (snapGroup g) = snappedPosition (position g).
Proof. apply position_setGroupPosition. Qed.

Lemma insert_alter_Some (f : NodeWrapper → NodeWrapper) (m : gmap ref NodeWrapper) r n :
  m !! r = Some n → <[r := f n]> m = alter f r m.
Proof.
  intros Hn. apply map_eq. intros i. destruct (decide (r = i)) as [->|].
  - by rewrite lookup_insert_eq, lookup_alter_eq, Hn.
  - by rewrite lookup_insert_ne, lookup_alter_ne.
Qed.

Lemma callsSince_app (s s' : State) (new : list Call) :
  calls s' = new ++ calls s → callsSince s s' = new.
Proof.
  intros E. unfold callsSince. rewrite E, length_app.
  replace (length new + length (calls s) - length (calls s))%nat with (length new) by lia.
  by rewrite take_app_length.
Qed.

(** ** Applying a change to every selected node *)

Section AlterNodes.
Variable f : NodeWrapper → NodeWrapper.
Hypothesis f_idempotent : ∀ n, f (f n) = f n.
Hypothesis f_keeps_objects : ∀ n, hasKonvaObjects (f n) = hasKonvaObjects n.

Lemma elem_of_cons_node (r r' : ref) (l : list SelectableObject) :
  r' ≠ r → NodeObject r ∈ NodeObject r' :: l ↔ NodeObject r ∈ l.
Proof. intros H. rewrite elem_of_cons. split; [intros [?|?]; [congruence|done]|by right]. Qed.

Lemma elem_of_cons_transition (r : ref) t (l : list SelectableObject) :
  NodeObject r ∈ TransitionObject t :: l ↔ NodeObject r ∈ l.
Proof. rewrite elem_of_cons. split; [intros [?|?]; [congruence|done]|by right]. Qed.

Lemma alterNodes_lookup (l : list SelectableObject) (m : gmap ref NodeWrapper) (r : ref) :
  alterNodes f l m !! r = if decide (NodeObject r ∈ l) then f <$> m !! r else m !! r.
Proof.
  revert m. induction l as [|obj l IH]; intros m.
  - cbn. rewrite decide_False; [done|]. apply not_elem_of_nil.
  - cbn [alterNodes foldl]. fold (alterNodes f l (alterObject f m obj)). rewrite IH.
    destruct obj as [r'|t]; cbn [alterObject].
    + destruct (decide (r' = r)) as [->|Hne].
      * rewrite lookup_alter_eq.
        rewrite (decide_True (P := NodeObject r ∈ NodeObject r :: l))
          by (apply elem_of_cons; by left).
        case_decide; [|done]. rewrite <- option_fmap_compose.
        apply option_fmap_ext. intros n. apply f_idempotent.
      * rewrite lookup_alter_ne by done.
        apply decide_ext. symmetry. by apply elem_of_cons_node.
    + apply decide_ext. symmetry. apply elem_of_cons_transition.
Qed.

Lemma rendered_alterObject m obj obj' : rendered m obj → rendered (alterObject f m obj') obj.
Proof.
  destruct obj as [r|t], obj' as [r'|t']; cbn; try done.
  intros (n & Hn & Hk). destruct (decide (r' = r)) as [->|Hne].
  - exists (f n). rewrite lookup_alter_eq, Hn. by rewrite f_keeps_objects.
  - exists n. by rewrite lookup_alter_ne.
Qed.

Lemma rendered_alterNodes m l obj : rendered m obj → rendered (alterNodes f l m) obj.
Proof.
  revert m. induction l as [|obj' l IH]; intros m H; [done|].
  cbn [alterNodes foldl]. apply IH. by apply rendered_alterObject.
Qed.
End AlterNodes.

Lemma snapGroup_idempotent g : snapGroup (snapGroup g) = snapGroup g.
Proof.
  unfold snapGroup at 1. rewrite position_snapGroup, snappedPosition_idempotent.
  unfold snapGroup, setGroupPosition. cbn. f_equal.
  apply map_eq. intros k.
  destruct (decide (k = "y")) as [->|Hy]; [by rewrite !lookup_insert_eq|].
  rewrite !(lookup_insert_ne _ "y" k) by done.
  destruct (decide (k = "x")) as [->|Hx]; [by rewrite !lookup_insert_eq|].
  by rewrite !lookup_insert_ne.
Qed.

Lemma snapNode_idempotent n : snapNode (snapNode n) = snapNode n.
Proof.
  unfold snapNode. destruct n as [bg ac lb [g|] lp lsp acc lab i]; cbn; [|done].
  by rewrite snapGroup_idempotent.
Qed.

Lemma hasKonvaObjects_snapNode n : hasKonvaObjects (snapNode n) = hasKonvaObjects n.
Proof. unfold hasKonvaObjects, snapNode. cbn. destruct (nodeGroup n); reflexivity. Qed.

Lemma unshadowNode_idempotent n : unshadowNode (unshadowNode n) = unshadowNode n.
Proof.
  unfold unshadowNode. destruct n as [[bg|] ac lb g lp lsp acc lab i]; cbn; [|done].
  unfold setAttr. cbn. by rewrite insert_insert_eq.
Qed.

Lemma hasKonvaObjects_unshadowNode n : hasKonvaObjects (unshadowNode n) = hasKonvaObjects n.
Proof. unfold hasKonvaObjects, unshadowNode. cbn. destruct (nodeBackground n); reflexivity. Qed.



Lemma SelectableObject_eqb_node r r' :
  SelectableObject_eqb (NodeObject r) (NodeObject r') = bool_decide (r = r').
Proof.
  cbn. destruct (Pos.eqb_spec r r') as [->|H].
  - by rewrite bool_decide_eq_true_2.
  - by rewrite bool_decide_eq_false_2.
Qed.


(** ** snapToGrid *)

Lemma forEach_updatePoints (r : ref) (ts : list TransitionWrapper) (s : State) :
  forEach (λ transition, if involvesNode transition r then updatePoints transition else mret tt)
    ts s
  = Some (tt, set_calls (transitionCalls r ts ++ calls s) s).
Proof.
  revert s. induction ts as [|t ts IH]; intros s.
  - destruct s; reflexivity.
  - cbn [forEach]. rewrite bind_run. unfold transitionCalls. rewrite filter_cons.
    destruct (involvesNode t r) eqn:E.
    + cbn. rewrite IH. rewrite decide_True by done.
      rewrite fmap_cons, reverse_cons, <- app_assoc. reflexivity.
    + cbn. rewrite IH. rewrite decide_False by done. reflexivity.
Qed.

Lemma layerOf_lookup (m : gmap ref NodeWrapper) (r : ref) (n : NodeWrapper) (g : Group) :
  m !! r = Some n → nodeGroup n = Some g → layerOf m r = onLayer g.
Proof. intros Hn Hg. unfold layerOf. rewrite Hn. cbn. by rewrite Hg. Qed.

Lemma batchDrawLayer_run (s : State) (r : ref) (n : NodeWrapper) (g : Group) :
  nodes s !! r = Some n → nodeGroup n = Some g →
  batchDrawLayer r s = Some (tt, set_calls (drawCalls (nodes s) r ++ calls s) s).
Proof.
  intros Hn Hg. unfold batchDrawLayer, drawCalls.
  rewrite bind_run, (readNode_run _ _ _ Hn). cbv beta iota. rewrite Hg. cbn [defined].
  rewrite bind_run. cbn [mret M_ret]. rewrite (layerOf_lookup _ _ _ _ Hn Hg).
  destruct (onLayer g); [reflexivity|]. destruct s; reflexivity.
Qed.

Lemma onLayer_snapNode (n : NodeWrapper) :
  from_option onLayer false (nodeGroup (snapNode n)) = from_option onLayer false (nodeGroup n).
Proof. unfold snapNode. destruct (nodeGroup n); reflexivity. Qed.

Lemma layerOf_snap (m : gmap ref NodeWrapper) (r r' : ref) :
  layerOf (alter snapNode r m) r' = layerOf m r'.
Proof.
  unfold layerOf. destruct (decide (r = r')) as [->|Hne].
  - rewrite lookup_alter_eq. destruct (m !! r') as [n|]; [|done]. cbn. apply onLayer_snapNode.
  - by rewrite lookup_alter_ne.
Qed.


Lemma snapToGrid_run (s : State) (r : ref) (n : NodeWrapper) (g : Group) :
  nodes s !! r = Some n → nodeGroup n = Some g →
  snapToGrid r s = Some (snappedPosition (position g),
    set_calls (snapCalls (nodes s) r (transitions s) ++ calls s)
      (set_nodes (<[r := snapNode n]> (nodes s)) s)).
Proof.
  intros Hn Hg. unfold snapToGrid.
  rewrite bind_run, (nodePosition_run _ _ _ _ Hn Hg). cbv beta iota.
  unfold setPosition. rewrite bind_run, (onGroup_run _ _ _ _ _ Hn Hg). cbv beta iota.
  rewrite bind_run. cbn [gets transitions set_nodes]. cbv beta iota.
  rewrite bind_run, forEach_updatePoints. cbv beta iota.
  rewrite bind_run.
  erewrite batchDrawLayer_run;
    [|cbn [nodes set_nodes set_calls]; apply lookup_insert_eq|reflexivity].
  cbv beta iota. cbn [nodes set_nodes set_calls calls mret M_ret].
  unfold snapCalls, drawCalls, snapNode. rewrite Hg.
  rewrite (layerOf_lookup (nodes s) r n g Hn Hg).
  erewrite layerOf_lookup; [|apply lookup_insert_eq|reflexivity].
  cbn [onLayer snapGroup setGroupPosition]. rewrite <- app_assoc. reflexivity.
Qed.



(** ** onDragEnd in Select mode *)

Lemma forEach_disableShadowEffects (l : list SelectableObject) (s : State) :
  Forall (rendered (nodes s)) l →
  forEach (λ obj, match obj with
                  | NodeObject r => disableShadowEffects r
                  | TransitionObject _ => mret tt
                  end) l s
  = Some (tt, set_nodes (alterNodes unshadowNode l (nodes s)) s).
Proof.
  revert s. induction l as [|obj l IH]; intros s Hl.
  - destruct s; reflexivity.
  - apply Forall_cons in Hl as [Hobj Hl]. cbn [forEach]. rewrite bind_run.
    destruct obj as [r|t].
    + destruct Hobj as (n & Hn & Hk). destruct (hasKonvaObjects_background _ Hk) as [bg Hbg].
      unfold disableShadowEffects. rewrite (onBackground_run _ _ _ _ _ Hn Hbg).
      cbv beta iota.
      replace (set_nodeBackground (Some (setAttr "shadowEnabled" (VBool false) bg)) n)
        with (unshadowNode n) by (unfold unshadowNode; by rewrite Hbg).
      rewrite (insert_alter_Some unshadowNode _ _ _ Hn). rewrite IH.
      * reflexivity.
      * cbn [nodes set_nodes]. eapply Forall_impl; [exact Hl|]. intros obj Hr.
        apply (rendered_alterObject unshadowNode hasKonvaObjects_unshadowNode _ _
                 (NodeObject r) Hr).
    + cbn [mret M_ret]. rewrite IH by done. reflexivity.
Qed.



Lemma positionOf_unshadow (l : list SelectableObject) (m : gmap ref NodeWrapper) (r : ref) :
  positionOf (alterNodes unshadowNode l m) r = positionOf m r.
Proof.
  unfold positionOf. rewrite (alterNodes_lookup unshadowNode unshadowNode_idempotent).
  case_decide; [|done]. by destruct (m !! r).
Qed.

Lemma onDragEnd_nosnap_run (this : ref) (s : State) :
  currentTool s = Select → snapToGridEnabled s = false →
  rendered (nodes s) (NodeObject this) →
  Forall (rendered (nodes s)) (selectedObjects s) →
  onDragEnd this s
  = Some (tt, set_calls (completeDragStatesOperation_call (positionOf (nodes s) this) :: calls s)
                (set_nodes (alterNodes unshadowNode (selectedObjects s) (nodes s)) s)).
Proof.
  intros Htool Hsnap Hthis Hsel.
  unfold onDragEnd. do 2 mstep. rewrite Htool, Hsnap.
  cbn [Tool_eqb andb]. cbv beta iota. mstep.
  rewrite bind_run, forEach_disableShadowEffects by done. cbv beta iota.
  apply (rendered_alterNodes unshadowNode hasKonvaObjects_unshadowNode _ (selectedObjects s))
    in Hthis as (n' & Hn' & Hk').
  destruct (hasKonvaObjects_group _ Hk') as [g' Hg'].
  rewrite bind_run. erewrite nodePosition_run; [|exact Hn'|exact Hg']. cbv beta iota.
  rewrite <- (positionOf_unshadow (selectedObjects s) (nodes s) this).
  unfold positionOf. rewrite Hn'. cbn [from_option]. rewrite Hg'. reflexivity.
Qed.

Lemma rendered_positionOf (m : gmap ref NodeWrapper) (r : ref) :
  rendered m (NodeObject r) →
  ∃ n g, m !! r = Some n ∧ hasKonvaObjects n = true ∧ nodeGroup n = Some g
         ∧ positionOf m r = position g.
Proof.
  intros (n & Hn & Hk). destruct (hasKonvaObjects_group _ Hk) as [g Hg].
  exists n, g. repeat split; try done. unfold positionOf. by rewrite Hn; cbn; rewrite Hg.
Qed.

Lemma renderedb_rendered (m : gmap ref NodeWrapper) (obj : SelectableObject) :
  renderedb m obj = true → rendered m obj.
Proof.
  destruct obj as [r|t]; [|done]. cbn. destruct (m !! r) as [n|]; [|done].
  intros H. by exists n.
Qed.

Lemma forallb_rendered (m : gmap ref NodeWrapper) (l : list SelectableObject) :
  forallb (renderedb m) l = true → Forall (rendered m) l.
Proof.
  induction l as [|obj l IH]; cbn; [constructor|].
  intros [H1 H2]%andb_true_iff. constructor; [by apply renderedb_rendered|by apply IH].
Qed.

Lemma existsb_selected (obj : SelectableObject) (l : list SelectableObject) :
  existsb (SelectableObject_eqb obj) l = true → obj ∈ l.
Proof.
  intros (o & Ho & E)%existsb_exists. apply list_elem_of_In in Ho.
  replace obj with o; [done|].
  destruct obj as [r|t], o as [r'|t']; cbn in E; try done.
  - apply Pos.eqb_eq in E. by subst.
  - apply andb_true_iff in E as [E1%Pos.eqb_eq E2%Pos.eqb_eq].
    destruct t, t'; cbn in *; by subst.
Qed.

(** Side conditions of the examples are settled by evaluation. *)
Ltac computed := vm_compute; reflexivity.
Ltac rendered_computed := apply renderedb_rendered; computed.
Ltac selection_computed := apply forallb_rendered; computed.
Ltac selected_computed := apply existsb_selected; computed.

(** ** Claims about snapping *)

(** C1.  [snapToGrid] moves the node to
    [(round(x / 50) * 50, round(y / 50) * 50)] and returns that position.
    The statement is made for a node whose coordinates are binary64 numbers
    of magnitude at most [2 ^ 51]: there the binary64 computation of the
    source gives the same position as the exact formula.  Each coordinate is the
    grid line nearest to the old one, a tie going to the higher line:
    (73, 124) snaps to (50, 100), (76, 126) to (100, 150), and a coordinate
    halfway between two lines, such as 75 or 125, goes up. *)
Theorem snapToGrid_rounds_to_grid (s : State) (this : ref) :
  rendered (nodes s) (NodeObject this) →
  binary64Position (positionOf (nodes s) this) →
  let pos := positionOf (nodes s) this in
  let p := mkVector2d (Math_round (x pos / 50) * 50) (Math_round (y pos / 50) * 50) in
  (∃ s', snapToGrid this s = Some (p, s') ∧ positionOf (nodes s') this = p) ∧
  ((snapped64 (x pos) == x p)%Q ∧ (snapped64 (y pos) == y p)%Q) ∧
  (∃ kx ky : Z, p = mkVector2d (inject_Z (kx * 50)) (inject_Z (ky * 50))
                ∧ nearestGridLine kx (x pos) ∧ nearestGridLine ky (y pos)) ∧
  ((x pos == 73)%Q → (y pos == 124)%Q → p = mkVector2d 50 100) ∧
  ((x pos == 76)%Q → (y pos == 126)%Q → p = mkVector2d 100 150) ∧
  (∀ k : Z, (x pos == inject_Z k * 50 + 25)%Q → x p = inject_Z ((k + 1) * 50)) ∧
  (∀ k : Z, (y pos == inject_Z k * 50 + 25)%Q → y p = inject_Z ((k + 1) * 50)).
Proof.
  intros Hthis [Hx Hy] pos p.
  destruct (rendered_positionOf _ _ Hthis) as (n & g & Hn & Hk & Hg & Hpos).
  change p with (snappedPosition pos). fold pos in Hx, Hy.
  split; [|split; [|repeat split]].
  - unfold pos. rewrite Hpos.
    eexists. split; [apply (snapToGrid_run _ _ _ _ Hn Hg)|].
    cbn [nodes set_nodes set_calls]. unfold positionOf. rewrite lookup_insert_eq.
    unfold snapNode. rewrite Hg. cbn. apply position_snapGroup.
  - split; cbn [x y snappedPosition]; by apply snapped64_snapped.
  - eexists _, _. split; [reflexivity|]. split; apply snapped_nearestGridLine.
  - intros Ex Ey. unfold snappedPosition.
    rewrite (snapped_grid _ 1), (snapped_grid _ 2); [reflexivity| |];
      unfold nearestGridLine, inject_Z; lra.
  - intros Ex Ey. unfold snappedPosition.
    rewrite (snapped_grid _ 2), (snapped_grid _ 3); [reflexivity| |];
      unfold nearestGridLine, inject_Z; lra.
  - intros k E. by apply snapped_halfway.
  - intros k E. by apply snapped_halfway.
Qed.

Lemma snapToGrid_rounds_to_grid_witness :
  ((∃ s', snapToGrid 1%positive (oneNode Select true 73 124) = Some (mkVector2d 50 100, s')
          ∧ positionOf (nodes s') 1%positive = mkVector2d 50 100)
   ∧ (snapped64 73 == 50)%Q ∧ (snapped64 124 == 100)%Q) ∧
  ((∃ s', snapToGrid 1%positive (oneNode Select true (151 # 2) (-497 # 4))
          = Some (mkVector2d 100 (-100), s')
          ∧ positionOf (nodes s') 1%positive = mkVector2d 100 (-100))
   ∧ (snapped64 (151 # 2) == 100)%Q ∧ (snapped64 (-497 # 4) == -100)%Q).
Proof.
  split.
  - destruct (snapToGrid_rounds_to_grid (oneNode Select true 73 124) 1%positive)
      as (Hrun & H64 & _).
    + rendered_computed.
    + apply binary64Positionb_spec. computed.
    + split; [exact Hrun|exact H64].
  - destruct (snapToGrid_rounds_to_grid (oneNode Select true (151 # 2) (-497 # 4)) 1%positive)
      as (Hrun & H64 & _).
    + rendered_computed.
    + apply binary64Positionb_spec. computed.
    + split; [exact Hrun|exact H64].
Defined.

(** ** Claims about the end of a drag in Select mode *)


(** C2, at an input where the code departs from it.  A node is picked up by
    a drag start in Select mode, which gives it the drag shadow.  With
    snap-to-grid enabled the drag end leaves the shadow on the selected node;
    with snap-to-grid disabled the same drag end removes it. *)
Theorem onDragEnd_snap_keeps_drag_shadow :
  (∃ s', onDragEnd 1%positive (pickedUp Select true 73 124) = Some (tt, s')
         ∧ selectedObjects s' = [NodeObject 1%positive]
         ∧ shadowEnabledOf (nodes (pickedUp Select true 73 124)) 1%positive = Some (VBool true)
         ∧ shadowEnabledOf (nodes s') 1%positive = Some (VBool true)) ∧
  (∃ s', onDragEnd 1%positive (pickedUp Select false 73 124) = Some (tt, s')
         ∧ selectedObjects s' = [NodeObject 1%positive]
         ∧ shadowEnabledOf (nodes (pickedUp Select false 73 124)) 1%positive = Some (VBool true)
         ∧ shadowEnabledOf (nodes s') 1%positive = Some (VBool false)).
Proof.
  split.
  - eexists. split; [vm_compute; reflexivity|]. repeat split; vm_compute; reflexivity.
  - eexists. split; [vm_compute; reflexivity|]. repeat split; vm_compute; reflexivity.
Qed.









(** C4, at inputs where the code departs from it.  On a grid point
    [snapToGrid] does return the position of the node.  But whether the drag
    end commits the move is decided by comparing the snapped position with
    [lastSnappedPos], which is written only for the node the drag end is
    called on, and not with the position at the start of the drag.  So a new
    node created on the grid point (100, 100), picked up and dropped without
    being moved, has a move committed.  And a node that was moved is not
    committed: the second node of [draggedBack] was dropped at (100, 100),
    went to (200, 200) in a group drag of the other node, and is dragged
    back alone from (200, 200) to (100, 100); this drag end completes no
    operation. *)
Theorem snapped_drag_commit_ignores_drag_start :
  (∃ s', onGrid (positionOf (nodes (oneNode Select true 100 100)) 1%positive)
         ∧ snapToGrid 1%positive (oneNode Select true 100 100)
           = Some (mkVector2d 100 100, s')
         ∧ positionOf (nodes s') 1%positive = mkVector2d 100 100) ∧
  (∃ s', positionOf (nodes (pickedUp Select true 100 100)) 1%positive = mkVector2d 100 100
         ∧ lastPosOf (nodes (pickedUp Select true 100 100)) 1%positive
           = Some (mkVector2d 100 100)
         ∧ onDragEnd 1%positive (pickedUp Select true 100 100) = Some (tt, s')
         ∧ positionOf (nodes s') 1%positive = mkVector2d 100 100
         ∧ completeDragStatesOperation_call (mkVector2d 100 100)
           ∈ callsSince (pickedUp Select true 100 100) s') ∧
  (∃ s', currentTool draggedBack = Select ∧ snapToGridEnabled draggedBack = true
         ∧ selectedObjects draggedBack = [NodeObject 2%positive]
         ∧ lastPosOf (nodes draggedBack) 2%positive = Some (mkVector2d 200 200)
         ∧ positionOf (nodes draggedBack) 2%positive = mkVector2d 100 100
         ∧ lastSnappedPosOf (nodes draggedBack) 2%positive = mkVector2d 100 100
         ∧ startDragStatesOperation_call (mkVector2d 200 200) ∈ calls draggedBack
         ∧ onDragEnd 2%positive draggedBack = Some (tt, s')
         ∧ positionOf (nodes s') 2%positive = mkVector2d 100 100
         ∧ callsSince draggedBack s' = [updateStartNodePosition_call]).
Proof.
  split; [|split].
  - exists (from_option snd (oneNode Select true 100 100)
              (snapToGrid 1%positive (oneNode Select true 100 100))).
    split; [|split].
    + exists 2%Z, 2%Z. split; reflexivity.
    + vm_compute. reflexivity.
    + vm_compute. reflexivity.
  - exists (from_option snd (pickedUp Select true 100 100)
              (onDragEnd 1%positive (pickedUp Select true 100 100))).
    do 4 (apply conj; [vm_compute; reflexivity|]).
    vm_compute. apply elem_of_cons. by left.
  - exists (from_option snd draggedBack (onDragEnd 2%positive draggedBack)).
    do 6 (apply conj; [vm_compute; reflexivity|]).
    apply conj; [vm_compute; apply elem_of_cons; right; apply elem_of_cons; by left|].
    do 2 (apply conj; [vm_compute; reflexivity|]).
    vm_compute. reflexivity.
Qed.

Lemma NodeWrapper_new_run (uuid label : string) (id : option string) (s : State) :
  ∃ r n, NodeWrapper_new uuid label id s = Some (r, set_nodes (<[r := n]> (nodes s)) s)
         ∧ nodes s !! r = None
         ∧ n = mkNodeWrapper None None None None None origin false label (default uuid id).
Proof.
  eexists _, _. split; [reflexivity|]. split; [|reflexivity].
  apply not_elem_of_dom, is_fresh.
Qed.



(** ** Serialization *)

Lemma toSerializable_run (s : State) (this : ref) (n : NodeWrapper) (g : Group) :
  nodes s !! this = Some n → nodeGroup n = Some g →
  toSerializable this s
  = Some (mkSerializableState (_id n) (x (position g)) (y (position g)) (_labelText n), s).
Proof.
  intros Hn Hg. unfold toSerializable. rewrite bind_run, (readNode_run _ _ _ Hn).
  cbv beta iota. by rewrite Hg.
Qed.

Lemma toSerializable_pure (s s' : State) (this : ref) (d : SerializableState) :
  toSerializable this s = Some (d, s') → s' = s.
Proof.
  unfold toSerializable, readNode. rewrite bind_run.
  destruct (nodes s !! this) as [n|]; [|done]. cbv beta iota.
  destruct (nodeGroup n); unfold defined, mbind, M_bind, mret, M_ret, throw; congruence.
Qed.

Lemma deserialize_toSerializable (uuid : string) (d : SerializableState) (s0 : State) :
  ∃ r s1 n1, deserialize uuid d s0 = Some (r, s1)
             ∧ nodes s0 !! r = None
             ∧ nodes s1 !! r = Some n1
             ∧ hasKonvaObjects n1 = true
             ∧ _id n1 = s_id d ∧ _labelText n1 = s_label d
             ∧ positionOf (nodes s1) r = mkVector2d (s_x d) (s_y d)
             ∧ (∀ r', r' ≠ r → nodes s1 !! r' = nodes s0 !! r')
             ∧ toSerializable r s1 = Some (d, s1).
Proof.
  destruct (NodeWrapper_new_run uuid (s_label d) (Some (s_id d)) s0) as (r & n & Hnew & Hfresh & ->).
  unfold deserialize. rewrite bind_run, Hnew. cbv beta iota.
  unfold createKonvaObjects. rewrite !bind_run.
  erewrite readNode_run by (cbn [nodes set_nodes]; apply lookup_insert_eq).
  cbv beta iota. cbn [gets]. cbv beta iota zeta. unfold writeNode. cbn [modify mret M_ret].
  eexists _, _, _. split; [reflexivity|]. split; [exact Hfresh|].
  cbn [nodes set_nodes].
  split; [apply lookup_insert_eq|]. split; [reflexivity|].
  split; [reflexivity|]. split; [reflexivity|].
  split; [unfold positionOf; rewrite lookup_insert_eq; by destruct d|].
  split; [intros r' Hr'; by rewrite !lookup_insert_ne|].
  erewrite toSerializable_run;
    [|cbn [nodes set_nodes]; apply lookup_insert_eq|reflexivity].
  destruct d as [i dx dy l]. reflexivity.
Qed.

(** C5, refuted as stated: a node as the constructor leaves it, before
    [createKonvaObjects], has no group to read a position from, and
    [toSerializable] throws. *)
Lemma toSerializable_before_createKonvaObjects :
  (∃ n, nodes (newNode Select true) !! 1%positive = Some n ∧ headless n
        ∧ _id n = "uuid-1" ∧ _labelText n = "q0")
  ∧ toSerializable 1%positive (newNode Select true) = None.
Proof.
  split; [|vm_compute; reflexivity].
  eexists. split; [vm_compute; reflexivity|]. repeat split.
Qed.

(** C5, amended.  On a node that has its Konva objects [toSerializable]
    returns the identifier, the position and the label of the node and
    leaves the state as it was; it changes no state whenever it returns.
    Building a node again from the serialized form, with the same
    identifier, label and position, gives a new node with that identifier,
    label and position, which serializes to the same form; the other nodes
    are untouched.  On a token [toSerializable] returns its identifier and
    its symbol, and building a token again from them gives the same token,
    hence the same serialized form. *)
Theorem toSerializable_round_trip (s : State) (this : ref) :
  rendered (nodes s) (NodeObject this) →
  (∃ d, toSerializable this s = Some (d, s)
        ∧ s_id d = from_option _id "" (nodes s !! this)
        ∧ s_label d = from_option _labelText "" (nodes s !! this)
        ∧ mkVector2d (s_x d) (s_y d) = positionOf (nodes s) this
        ∧ ∀ uuid s2, ∃ r s3,
            deserialize uuid d s2 = Some (r, s3)
            ∧ nodes s2 !! r = None
            ∧ rendered (nodes s3) (NodeObject r)
            ∧ from_option _id "" (nodes s3 !! r) = from_option _id "" (nodes s !! this)
            ∧ from_option _labelText "" (nodes s3 !! r)
              = from_option _labelText "" (nodes s !! this)
            ∧ positionOf (nodes s3) r = positionOf (nodes s) this
            ∧ (∀ r', r' ≠ r → nodes s3 !! r' = nodes s2 !! r')
            ∧ toSerializable r s3 = Some (d, s3)) ∧
  (∀ this0 s0 d s1, toSerializable this0 s0 = Some (d, s1) →
     s1 = s0
     ∧ ∀ uuid s2, ∃ r s3, deserialize uuid d s2 = Some (r, s3)
                          ∧ toSerializable r s3 = Some (d, s3)) ∧
  (∀ t : TokenWrapper,
     st_id (TokenWrapper_toSerializable t) = t_id t
     ∧ st_symbol (TokenWrapper_toSerializable t) = symbol t
     ∧ ∀ uuid,
         TokenWrapper_deserialize uuid (TokenWrapper_toSerializable t) = t
         ∧ TokenWrapper_toSerializable
             (TokenWrapper_deserialize uuid (TokenWrapper_toSerializable t))
           = TokenWrapper_toSerializable t).
Proof.
  intros Hthis. destruct (rendered_positionOf _ _ Hthis) as (n & g & Hn & Hk & Hg & Hpos).
  split; [|split].
  - eexists. split; [apply (toSerializable_run _ _ _ _ Hn Hg)|].
    rewrite Hn, Hpos. cbn [from_option s_id s_label s_x s_y].
    split; [reflexivity|]. split; [reflexivity|]. split; [by destruct (position g)|].
    intros uuid s2.
    destruct (deserialize_toSerializable uuid
                (mkSerializableState (_id n) (x (position g)) (y (position g)) (_labelText n)) s2)
      as (r & s3 & n3 & Hrun & Hfresh & Hn3 & Hk3 & Hid & Hlabel & Hpos3 & Hother & Hser).
    exists r, s3. split; [exact Hrun|]. split; [exact Hfresh|].
    split; [by exists n3|]. rewrite Hn3. cbn [from_option].
    split; [exact Hid|]. split; [exact Hlabel|].
    split; [rewrite Hpos3; by destruct (position g)|]. split; [exact Hother|exact Hser].
  - intros this0 s0 d s1 Hd. split; [by apply toSerializable_pure in Hd|].
    intros uuid s2.
    destruct (deserialize_toSerializable uuid d s2) as (r & s3 & _ & H1 & _ & _ & _ & _ & _ & _ & _ & H2).
    by exists r, s3.
  - intros [sym i]. split; [reflexivity|]. split; [reflexivity|]. intros uuid.
    split; reflexivity.
Qed.

Lemma toSerializable_round_trip_witness :
  ∃ d, toSerializable 1%positive (oneNode Select true 73 124)
       = Some (d, oneNode Select true 73 124)
       ∧ d = mkSerializableState "uuid-1" 73 124 "q0"
       ∧ ∃ r s1, deserialize "uuid-2" d (emptyState Select true) = Some (r, s1)
                 ∧ positionOf (nodes s1) r
                   = positionOf (nodes (oneNode Select true 73 124)) 1%positive
                 ∧ toSerializable r s1 = Some (d, s1).
Proof.
  destruct (toSerializable_round_trip (oneNode Select true 73 124) 1%positive)
    as [(d & Hd & _ & _ & _ & Hround) _].
  - rendered_computed.
  - exists d. split; [exact Hd|]. split.
    + assert (Some d = fst <$> toSerializable 1%positive (oneNode Select true 73 124)) as E
        by (rewrite Hd; reflexivity).
      vm_compute in E. by injection E as ->.
    + destruct (Hround "uuid-2" (emptyState Select true))
        as (r & s1 & Hrun & _ & _ & _ & _ & Hpos & _ & Hser).
      exists r, s1. split; [exact Hrun|]. split; [exact Hpos|exact Hser].
Defined.

(** ** The error overlay *)

Lemma getName_setAttr (k : string) (v : AttrValue) (sh : Shape) :
  k ≠ "name" → getName (attrs (setAttr k v sh)) = getName (attrs sh).
Proof. intros H. unfold getName, setAttr. cbn. by rewrite lookup_insert_ne. Qed.

Lemma filter_named_destroyed (n : NodeWrapper) (name : string) (l : list Child) :
  name = "errorIcon" ∨ name = "errorText" →
  filter (λ c, childName n c = name) (filter (λ c, negb (isErrorElement n c)) l) = [].
Proof.
  intros Hname. induction l as [|c l IH]; [done|].
  rewrite filter_cons. case_decide as Hc; [|done].
  rewrite filter_cons, IH. case_decide as Hn; [|done].
  exfalso. unfold isErrorElement in Hc. rewrite Hn in Hc.
  destruct Hname as [->| ->]; cbn in Hc; done.
Qed.

Lemma filter_ext_eq {A} (P Q : A → Prop) `{∀ a, Decision (P a)} `{∀ a, Decision (Q a)}
    (l : list A) :
  (∀ a, P a ↔ Q a) → filter P l = filter Q l.
Proof.
  intros HPQ. induction l as [|a l IH]; [done|].
  rewrite !filter_cons, IH. apply decide_ext, HPQ.
Qed.

(** The names of the children depend on the names of the three shapes of
    the wrapper only. *)
Lemma childName_ext (n n' : NodeWrapper) (c : Child) :
  (λ sh, getName (attrs sh)) <$> nodeBackground n' = (λ sh, getName (attrs sh)) <$> nodeBackground n →
  nodeAcceptCircle n' = nodeAcceptCircle n → nodeLabel n' = nodeLabel n →
  childName n' c = childName n c.
Proof.
  intros Hbg Hac Hlb. destruct c; cbn [childName]; rewrite ?Hac, ?Hlb; [|done..].
  destruct (nodeBackground n'), (nodeBackground n); cbn in *; congruence.
Qed.

Ltac same_names n Hbg :=
  intros c; rewrite (childName_ext n _ c); [done| |done|done];
  cbn [nodeBackground nodeAcceptCircle nodeLabel set_nodeGroup set_nodeBackground];
  rewrite Hbg; cbn [fmap option_fmap option_map]; rewrite ?getName_setAttr by done; done.

Lemma hasKonvaObjects_iff (n : NodeWrapper) :
  hasKonvaObjects n = true
  ↔ is_Some (nodeBackground n) ∧ is_Some (nodeAcceptCircle n)
    ∧ is_Some (nodeLabel n) ∧ is_Some (nodeGroup n).
Proof.
  unfold hasKonvaObjects. rewrite !andb_true_iff, !bool_decide_eq_true. tauto.
Qed.

Lemma setErrorState_run (s : State) (this : ref) (n : NodeWrapper) (isError : bool) :
  nodes s !! this = Some n → hasKonvaObjects n = true →
  ∃ s' n', setErrorState this isError s = Some (tt, s')
           ∧ nodes s' !! this = Some n'
           ∧ hasKonvaObjects n' = true
           ∧ countNamed "errorIcon" n' = (if isError then 1 else 0)%nat
           ∧ countNamed "errorText" n' = (if isError then 1 else 0)%nat
           ∧ callsSince s s' = drawCalls (nodes s) this.
Proof.
  intros Hn Hk.
  destruct (hasKonvaObjects_group _ Hk) as [g Hg].
  destruct (hasKonvaObjects_background _ Hk) as [bg Hbg].
  unfold setErrorState. rewrite bind_run, (readNode_run _ _ _ Hn). cbv beta iota.
  rewrite bind_run, (onGroup_run _ _ _ _ _ Hn Hg). cbv beta iota. mstep.
  rewrite bind_run. destruct isError.
  - rewrite bind_run.
    erewrite onBackground_run;
      [|cbn [nodes set_nodes]; apply lookup_insert_eq|exact Hbg].
    cbv beta iota zeta. rewrite bind_run.
    erewrite onGroup_run; [|cbn [nodes set_nodes]; apply lookup_insert_eq|reflexivity].
    cbv beta iota.
    erewrite onGroup_run; [|cbn [nodes set_nodes]; apply lookup_insert_eq|reflexivity].
    cbv beta iota.
    erewrite batchDrawLayer_run; [|cbn [nodes set_nodes]; apply lookup_insert_eq|reflexivity].
    eexists _, _. split; [reflexivity|]. cbn [nodes set_nodes set_calls calls].
    split; [apply lookup_insert_eq|]. split; [|split; [|split]].
    + apply hasKonvaObjects_iff in Hk as (_ & Hac & Hlb & _).
      apply hasKonvaObjects_iff. cbn. eauto.
    + unfold countNamed.
      cbn [nodeGroup set_nodeGroup from_option children addChild destroyErrorElements].
      rewrite <- app_assoc, filter_app, length_app.
      rewrite (filter_ext_eq _ (λ c, childName n c = "errorIcon")).
      2:{ same_names n Hbg. }
      rewrite filter_named_destroyed by by left. reflexivity.
    + unfold countNamed.
      cbn [nodeGroup set_nodeGroup from_option children addChild destroyErrorElements].
      rewrite <- app_assoc, filter_app, length_app.
      rewrite (filter_ext_eq _ (λ c, childName n c = "errorText")).
      2:{ same_names n Hbg. }
      rewrite filter_named_destroyed by by right. reflexivity.
    + apply callsSince_app. cbn [nodes set_nodes set_calls calls].
      unfold drawCalls. rewrite (layerOf_lookup (nodes s) this n g Hn Hg).
      erewrite layerOf_lookup; [|apply lookup_insert_eq|reflexivity]. reflexivity.
  - erewrite onBackground_run;
      [|cbn [nodes set_nodes]; apply lookup_insert_eq|exact Hbg].
    cbv beta iota.
    erewrite batchDrawLayer_run; [|cbn [nodes set_nodes]; apply lookup_insert_eq|reflexivity].
    eexists _, _. split; [reflexivity|]. cbn [nodes set_nodes set_calls calls].
    split; [apply lookup_insert_eq|]. split; [|split; [|split]].
    + apply hasKonvaObjects_iff in Hk as (_ & Hac & Hlb & _).
      apply hasKonvaObjects_iff. cbn. eauto.
    + unfold countNamed. cbn [nodeGroup set_nodeGroup set_nodeBackground from_option children
                                destroyErrorElements].
      rewrite (filter_ext_eq _ (λ c, childName n c = "errorIcon")).
      2:{ same_names n Hbg. }
      by rewrite filter_named_destroyed by by left.
    + unfold countNamed. cbn [nodeGroup set_nodeGroup set_nodeBackground from_option children
                                destroyErrorElements].
      rewrite (filter_ext_eq _ (λ c, childName n c = "errorText")).
      2:{ same_names n Hbg. }
      by rewrite filter_named_destroyed by by right.
    + apply callsSince_app. cbn [nodes set_nodes set_calls calls].
      unfold drawCalls. rewrite (layerOf_lookup (nodes s) this n g Hn Hg).
      erewrite layerOf_lookup; [|apply lookup_insert_eq|reflexivity]. reflexivity.
Qed.

(** C6.  After every call of [setErrorState], whatever calls came before,
    the group of the node holds exactly one error icon and one error glyph
    when the call was [setErrorState(true)] and none when it was
    [setErrorState(false)]: never more than one of each.  In particular two
    calls [setErrorState(true)] in a row leave one icon and one glyph. *)
Theorem setErrorState_single_overlay (s : State) (this : ref) (before : list bool)
    (isError : bool) :
  rendered (nodes s) (NodeObject this) →
  ∃ s' n', forEach (setErrorState this) (before ++ [isError]) s = Some (tt, s')
           ∧ nodes s' !! this = Some n'
           ∧ countNamed "errorIcon" n' = (if isError then 1 else 0)%nat
           ∧ countNamed "errorText" n' = (if isError then 1 else 0)%nat.
Proof.
  revert s. induction before as [|b before IH]; intros s (n & Hn & Hk).
  - destruct (setErrorState_run s this n isError Hn Hk)
      as (s' & n' & Hrun & Hn' & _ & Hicon & Htext & _).
    exists s', n'. cbn [app forEach]. rewrite bind_run, Hrun. done.
  - destruct (setErrorState_run s this n b Hn Hk)
      as (s1 & n1 & Hrun & Hn1 & Hk1 & _).
    destruct (IH s1) as (s' & n' & Hrest & Hn' & Hicon & Htext); [by exists n1|].
    exists s', n'. cbn [app forEach]. rewrite bind_run, Hrun. done.
Qed.

Lemma setErrorState_single_overlay_witness :
  ∃ s' n', forEach (setErrorState 1%positive) [true; true] (oneNode Select true 73 124)
           = Some (tt, s')
           ∧ nodes s' !! 1%positive = Some n'
           ∧ countNamed "errorIcon" n' = 1%nat
           ∧ countNamed "errorText" n' = 1%nat.
Proof.
  apply (setErrorState_single_overlay (oneNode Select true 73 124) 1%positive [true] true).
  rendered_computed.
Defined.

(** ** The Transitions and States tools *)

(** One native drag step followed by the [dragmove] handler, in Transitions
    mode: the node is put back where the drag started. *)
Lemma dragmove_Transitions_run (s : State) (this : ref) (n : NodeWrapper) (g : Group)
    (start p : Vector2d) (ev : MouseEvent) :
  currentTool s = Transitions →
  nodes s !! this = Some n → nodeGroup n = Some g → lastPos n = Some start →
  (nativeDrag this p ≫= λ _, fire this (dragmove ev)) s
  = Some (tt, set_tentativeTransitionHead (Some (mkVector2d (pageX ev) (pageY ev)))
                (set_nodes
                   (<[this := set_nodeGroup
                                (Some (setGroupPosition start (setGroupPosition p g))) n]>
                      (nodes s)) s)).
Proof.
  intros Htool Hn Hg Hlast. rewrite bind_run. unfold nativeDrag, setPosition.
  rewrite (onGroup_run _ _ _ _ _ Hn Hg). cbv beta iota.
  cbn [fire]. unfold onDragMove. mstep. cbn [currentTool set_nodes]. rewrite Htool.
  cbn [Tool_eqb]. cbv beta iota.
  rewrite bind_run.
  erewrite readNode_run by (cbn [nodes set_nodes]; apply lookup_insert_eq).
  cbv beta iota. cbn [lastPos set_nodeGroup]. rewrite Hlast. cbn [defined].
  rewrite bind_run. cbn [mret M_ret]. cbv beta iota. rewrite bind_run.
  unfold setPosition.
  erewrite onGroup_run; [|cbn [nodes set_nodes]; apply lookup_insert_eq|reflexivity].
  cbv beta iota. unfold updateTentativeTransitionHead. cbn [modify].
  cbn [nodes set_nodes set_nodeGroup nodeBackground nodeAcceptCircle nodeLabel lastPos
         lastSnappedPos _isAcceptNode _labelText _id].
  rewrite insert_insert_eq. reflexivity.
Qed.

Lemma dragMoves_Transitions_run (moves : list (Vector2d * MouseEvent)) (s : State)
    (this : ref) (n : NodeWrapper) (g : Group) :
  currentTool s = Transitions →
  nodes s !! this = Some n → nodeGroup n = Some g → lastPos n = Some (position g) →
  ∃ s' n' g',
    dragMoves this moves s = Some (tt, s')
    ∧ nodes s' !! this = Some n' ∧ nodeGroup n' = Some g' ∧ position g' = position g
    ∧ hasKonvaObjects n' = hasKonvaObjects n
    ∧ (∀ r, r ≠ this → nodes s' !! r = nodes s !! r)
    ∧ tentativeTransitionHead s'
      = from_option Some (tentativeTransitionHead s) (lastPointer moves)
    ∧ tentativeTransitionSource s' = tentativeTransitionSource s
    ∧ tentativeTransitionInProgress s' = tentativeTransitionInProgress s
    ∧ tentativeTransitionTarget s' = tentativeTransitionTarget s
    ∧ selectedObjects s' = selectedObjects s
    ∧ calls s' = calls s.
Proof.
  revert s n g. induction moves as [|[p ev] moves IH]; intros s n g Htool Hn Hg Hlast.
  - exists s, n, g. by repeat split.
  - unfold dragMoves. cbn [forEach]. rewrite bind_run.
    cbn [fst snd]. rewrite (dragmove_Transitions_run s this n g (position g) p ev) by done.
    cbv beta iota.
    set (g1 := setGroupPosition (position g) (setGroupPosition p g)).
    set (s1 := set_tentativeTransitionHead _ _).
    destruct (IH s1 (set_nodeGroup (Some g1) n) g1) as (s' & n' & g' & Hrun & R);
      [done|apply lookup_insert_eq|done|by unfold g1; rewrite position_setGroupPosition|].
    destruct R as (Hn' & Hg' & Hp & Hk' & Hother & Hhead & Hsrc & Hprog & Htgt & Hsel & Hcalls).
    exists s', n', g'. split; [exact Hrun|].
    split; [done|]. split; [done|].
    split; [by rewrite Hp; unfold g1; rewrite position_setGroupPosition|].
    split; [rewrite Hk'; unfold hasKonvaObjects; cbn; by rewrite Hg|].
    split; [intros r Hr; rewrite (Hother r Hr); cbn; by rewrite lookup_insert_ne|].
    split; [|done].
    rewrite Hhead. unfold lastPointer. rewrite last_cons.
    destruct (last moves); reflexivity.
Qed.

Lemma onDragStart_Transitions_run (s : State) (this : ref) (n : NodeWrapper) (g : Group)
    (ev : MouseEvent) :
  currentTool s = Transitions →
  nodes s !! this = Some n → nodeGroup n = Some g →
  onDragStart this ev s
  = Some (tt, set_tentativeTransitionHead None
                (set_tentativeTransitionTarget None
                  (set_tentativeTransitionSource (Some this)
                    (set_tentativeTransitionInProgress true
                      (set_nodes (<[this := set_lastPos (Some (position g)) n]> (nodes s))
                         s))))).
Proof.
  intros Htool Hn Hg. unfold onDragStart.
  rewrite bind_run, (nodePosition_run _ _ _ _ Hn Hg). cbv beta iota.
  rewrite bind_run, (readNode_run _ _ _ Hn). cbv beta iota.
  rewrite bind_run. unfold writeNode. cbn [modify]. cbv beta iota.
  mstep. cbn [currentTool set_nodes]. rewrite Htool. cbn [Tool_eqb]. cbv beta iota.
  reflexivity.
Qed.

(** C7.  During a drag of a node with the Transitions tool the node stays
    where it was when the drag started: after the drag start and after each
    drag-move event, wherever the native drag had put the node, its position
    is the one it had at the start.  No other node changes, and the free end
    of the tentative transition, whose source is the node, is at the page
    coordinates of the last move. *)
Theorem transitions_drag_does_not_move_node (s : State) (this : ref) (ev : MouseEvent)
    (moves : list (Vector2d * MouseEvent)) :
  currentTool s = Transitions →
  rendered (nodes s) (NodeObject this) →
  ∃ s', dragGesture this ev moves s = Some (tt, s')
        ∧ rendered (nodes s') (NodeObject this)
        ∧ positionOf (nodes s') this = positionOf (nodes s) this
        ∧ (∀ r, r ≠ this → nodes s' !! r = nodes s !! r)
        ∧ tentativeTransitionInProgress s' = true
        ∧ tentativeTransitionSource s' = Some this
        ∧ tentativeTransitionHead s' = lastPointer moves.
Proof.
  intros Htool Hthis.
  destruct (rendered_positionOf _ _ Hthis) as (n & g & Hn & Hk & Hg & Hpos).
  unfold dragGesture. rewrite bind_run. cbn [fire].
  rewrite (onDragStart_Transitions_run s this n g ev Htool Hn Hg). cbv beta iota.
  set (s1 := set_tentativeTransitionHead _ _).
  destruct (dragMoves_Transitions_run moves s1 this (set_lastPos (Some (position g)) n) g)
    as (s' & n' & g' & Hrun & Hn' & Hg' & Hp & Hk' & Hother & Hhead & Hsrc & Hprog & _);
    [done|apply lookup_insert_eq|done|done|].
  exists s'. split; [exact Hrun|].
  split; [exists n'; split; [done|by rewrite Hk']|].
  split; [unfold positionOf at 1; rewrite Hn'; cbn; rewrite Hg'; cbn; by rewrite Hp, Hpos|].
  split; [intros r Hr; rewrite (Hother r Hr); cbn; by rewrite lookup_insert_ne|].
  split; [by rewrite Hprog|]. split; [by rewrite Hsrc|].
  rewrite Hhead. cbn. by destruct (lastPointer moves).
Qed.

Lemma transitions_drag_does_not_move_node_witness :
  ∃ s', dragGesture 1%positive (mkMouseEvent false 73 124 0 0)
          [(mkVector2d 80 130, mkMouseEvent false 80 130 7 6);
           (mkVector2d 200 300, mkMouseEvent false 200 300 120 170)]
          (oneNode Transitions false 73 124) = Some (tt, s')
        ∧ positionOf (nodes s') 1%positive
          = positionOf (nodes (oneNode Transitions false 73 124)) 1%positive
        ∧ tentativeTransitionHead s'
          = lastPointer [(mkVector2d 80 130, mkMouseEvent false 80 130 7 6);
                         (mkVector2d 200 300, mkMouseEvent false 200 300 120 170)].
Proof.
  destruct (transitions_drag_does_not_move_node (oneNode Transitions false 73 124) 1%positive
              (mkMouseEvent false 73 124 0 0)
              [(mkVector2d 80 130, mkMouseEvent false 80 130 7 6);
               (mkVector2d 200 300, mkMouseEvent false 200 300 120 170)])
    as (s' & Hrun & _ & Hpos & _ & _ & _ & Hhead).
  - computed.
  - rendered_computed.
  - exists s'. split; [exact Hrun|]. split; [exact Hpos|exact Hhead].
Defined.

(** C8.  A mouse-leave on a node in Transitions mode, while a tentative
    transition is in progress: when the node is the tracked target, the
    target is cleared and the glow of the node is switched off; when it is
    not, nothing changes at all, so the tracked target stays. *)
Theorem onMouseLeave_clears_only_own_target (s : State) (this : ref) :
  currentTool s = Transitions →
  tentativeTransitionInProgress s = true →
  (tentativeTransitionTarget s = Some this → rendered (nodes s) (NodeObject this) →
   ∃ s', onMouseLeave this s = Some (tt, s')
         ∧ tentativeTransitionTarget s' = None
         ∧ shadowEnabledOf (nodes s') this = Some (VBool false)
         ∧ (∀ r, r ≠ this → nodes s' !! r = nodes s !! r)) ∧
  (tentativeTransitionTarget s ≠ Some this → onMouseLeave this s = Some (tt, s)).
Proof.
  intros Htool Hprog. split.
  - intros Htgt (n & Hn & Hk).
    destruct (hasKonvaObjects_background _ Hk) as [bg Hbg].
    unfold onMouseLeave. mstep. rewrite Htool. cbn [Tool_eqb]. cbv beta iota.
    do 2 mstep. rewrite Hprog, Htgt, bool_decide_eq_true_2 by done.
    cbn [andb]. cbv beta iota. mstep.
    unfold disableShadowEffects.
    erewrite onBackground_run; [|exact Hn|exact Hbg].
    eexists. split; [reflexivity|]. split; [reflexivity|]. split.
    + unfold shadowEnabledOf. cbn [nodes set_nodes set_tentativeTransitionTarget].
      rewrite lookup_insert_eq. cbn. apply lookup_insert_eq.
    + intros r Hr. cbn. by rewrite lookup_insert_ne.
  - intros Htgt. unfold onMouseLeave. mstep. rewrite Htool. cbn [Tool_eqb]. cbv beta iota.
    do 2 mstep. rewrite Hprog, bool_decide_eq_false_2 by done. reflexivity.
Qed.

Lemma onMouseLeave_clears_only_own_target_witness :
  (∃ s', onMouseLeave 2%positive hoveredTarget = Some (tt, s')
         ∧ tentativeTransitionTarget s' = None
         ∧ shadowEnabledOf (nodes s') 2%positive = Some (VBool false)) ∧
  onMouseLeave 1%positive hoveredTarget = Some (tt, hoveredTarget).
Proof.
  destruct (onMouseLeave_clears_only_own_target hoveredTarget 2%positive) as [H2 _];
    [computed|computed|].
  destruct (onMouseLeave_clears_only_own_target hoveredTarget 1%positive) as [_ H1];
    [computed|computed|].
  split.
  - destruct H2 as (s' & Hrun & Htgt & Hshadow & _).
    + computed.
    + rendered_computed.
    + exists s'. split; [exact Hrun|]. split; [exact Htgt|exact Hshadow].
  - apply H1. vm_compute. discriminate.
Defined.

(** C9.  A drag start on a node while the tool is States stops the drag at
    once and changes nothing that is shared: the only call made is
    [stopDrag] on the node, so the operation log is not touched, and the
    selection and the tentative transition are as before; no node moves.
    The drag end that follows does nothing in States mode. *)
Theorem states_mode_drag_is_inert (s : State) (this : ref) (ev : MouseEvent) :
  currentTool s = States →
  rendered (nodes s) (NodeObject this) →
  ∃ s', onDragStart this ev s = Some (tt, s')
        ∧ callsSince s s' = [stopDrag_call this]
        ∧ selectedObjects s' = selectedObjects s
        ∧ tentativeTransitionInProgress s' = tentativeTransitionInProgress s
        ∧ tentativeTransitionSource s' = tentativeTransitionSource s
        ∧ tentativeTransitionTarget s' = tentativeTransitionTarget s
        ∧ tentativeTransitionHead s' = tentativeTransitionHead s
        ∧ currentTool s' = States
        ∧ (∀ r, positionOf (nodes s') r = positionOf (nodes s) r)
        ∧ (∀ r, r ≠ this → nodes s' !! r = nodes s !! r)
        ∧ onDragEnd this s' = Some (tt, s').
Proof.
  intros Htool Hthis.
  destruct (rendered_positionOf _ _ Hthis) as (n & g & Hn & Hk & Hg & Hpos).
  unfold onDragStart.
  rewrite bind_run, (nodePosition_run _ _ _ _ Hn Hg). cbv beta iota.
  rewrite bind_run, (readNode_run _ _ _ Hn). cbv beta iota.
  rewrite bind_run. unfold writeNode. cbn [modify]. cbv beta iota.
  mstep. cbn [currentTool set_nodes]. rewrite Htool. cbn [Tool_eqb]. cbv beta iota.
  unfold call. cbn [modify].
  eexists. split; [reflexivity|].
  split; [by apply callsSince_app|].
  do 6 (split; [done|]).
  split; [|split].
  - intros r. cbn [nodes set_nodes set_calls]. unfold positionOf.
    destruct (decide (this = r)) as [<-|Hne].
    + rewrite lookup_insert_eq, Hn. reflexivity.
    + by rewrite lookup_insert_ne.
  - intros r Hr. cbn. by rewrite lookup_insert_ne.
  - unfold onDragEnd. do 2 mstep. cbn [currentTool set_calls set_nodes]. rewrite Htool.
    reflexivity.
Qed.

Lemma states_mode_drag_is_inert_witness :
  ∃ s', onDragStart 1%positive (mkMouseEvent false 73 124 0 0) (oneNode States true 73 124)
        = Some (tt, s')
        ∧ callsSince (oneNode States true 73 124) s' = [stopDrag_call 1%positive]
        ∧ onDragEnd 1%positive s' = Some (tt, s').
Proof.
  destruct (states_mode_drag_is_inert (oneNode States true 73 124) 1%positive
              (mkMouseEvent false 73 124 0 0))
    as (s' & Hrun & Hcalls & R).
  - computed.
  - rendered_computed.
  - exists s'. split; [exact Hrun|]. split; [exact Hcalls|].
    apply R.
Defined.


(** ** The start of a drag in Select mode *)

Lemma keepsLayout_refl (s : State) : keepsLayout s s.
Proof.
  repeat split. intros r. destruct (nodes s !! r) as [n|]; [|done]. by exists n.
Qed.

Lemma keepsLayout_trans (s1 s2 s3 : State) :
  keepsLayout s1 s2 → keepsLayout s2 s3 → keepsLayout s1 s3.
Proof.
  intros (T1 & G1 & C1 & N1) (T2 & G2 & C2 & N2).
  split; [congruence|]. split; [congruence|]. split; [congruence|].
  intros r. specialize (N1 r). specialize (N2 r).
  destruct (nodes s1 !! r) as [n1|].
  - destruct N1 as (n2 & Hn2 & ? & ? & ? & ?). rewrite Hn2 in N2.
    destruct N2 as (n3 & Hn3 & ? & ? & ? & ?). exists n3. repeat split; congruence.
  - by rewrite N1 in N2.
Qed.

Lemma keepsLayout_rendered (s s' : State) (obj : SelectableObject) :
  keepsLayout s s' → rendered (nodes s) obj → rendered (nodes s') obj.
Proof.
  intros (_ & _ & _ & N) Hr. destruct obj as [r|t]; [|done].
  destruct Hr as (n & Hn & Hk). specialize (N r). rewrite Hn in N.
  destruct N as (n' & Hn' & _ & _ & _ & Hk'). exists n'. split; [done|congruence].
Qed.

Lemma keepsLayout_positionOf (s s' : State) (r : ref) :
  keepsLayout s s' → positionOf (nodes s') r = positionOf (nodes s) r.
Proof.
  intros (_ & _ & _ & N). specialize (N r). unfold positionOf.
  destruct (nodes s !! r) as [n|].
  - destruct N as (n' & Hn' & Hg' & _). rewrite Hn'. cbn. by rewrite Hg'.
  - by rewrite N.
Qed.

Lemma keepsLayout_lastSnappedPosOf (s s' : State) (r : ref) :
  keepsLayout s s' → lastSnappedPosOf (nodes s') r = lastSnappedPosOf (nodes s) r.
Proof.
  intros (_ & _ & _ & N). specialize (N r). unfold lastSnappedPosOf.
  destruct (nodes s !! r) as [n|].
  - destruct N as (n' & Hn' & _ & _ & Hl' & _). rewrite Hn'. cbn. by rewrite Hl'.
  - by rewrite N.
Qed.

Lemma keepsLayout_lastPosOf (s s' : State) (r : ref) :
  keepsLayout s s' → lastPosOf (nodes s') r = lastPosOf (nodes s) r.
Proof.
  intros (_ & _ & _ & N). specialize (N r). unfold lastPosOf.
  destruct (nodes s !! r) as [n|].
  - destruct N as (n' & Hn' & _ & Hl' & _). rewrite Hn'. cbn. by rewrite Hl'.
  - by rewrite N.
Qed.

Lemma keepsLayout_insert (s : State) (r : ref) (n n' : NodeWrapper) :
  nodes s !! r = Some n → nodeGroup n' = nodeGroup n → lastPos n' = lastPos n →
  lastSnappedPos n' = lastSnappedPos n → hasKonvaObjects n' = hasKonvaObjects n →
  keepsLayout s (set_nodes (<[r := n']> (nodes s)) s).
Proof.
  intros Hn Hg Hp Hl Hk. repeat split. intros i. cbn [nodes set_nodes].
  destruct (decide (r = i)) as [<-|Hne].
  - rewrite Hn, lookup_insert_eq. by exists n'.
  - rewrite lookup_insert_ne by done. destruct (nodes s !! i) as [ni|]; [|done]. by exists ni.
Qed.

(** Restyling the background circle of a node that has its Konva objects. *)
Lemma onBackground_keeps (s : State) (r : ref) (f : Shape → Shape) :
  rendered (nodes s) (NodeObject r) →
  ∃ s', onBackground r f s = Some (tt, s')
        ∧ keepsLayout s s' ∧ selectedObjects s' = selectedObjects s.
Proof.
  intros (n & Hn & Hk). destruct (hasKonvaObjects_background _ Hk) as [bg Hbg].
  rewrite (onBackground_run _ _ _ _ _ Hn Hbg). eexists. split; [reflexivity|].
  split; [|reflexivity]. apply (keepsLayout_insert s r n); try done.
  unfold hasKonvaObjects. cbn. by rewrite Hbg.
Qed.

Lemma call_keeps (s : State) (c : Call) :
  ∃ s', call c s = Some (tt, s') ∧ keepsLayout s s' ∧ selectedObjects s' = selectedObjects s.
Proof.
  eexists. split; [reflexivity|]. split; [|reflexivity].
  repeat split. intros r. cbn. destruct (nodes s !! r) as [n|]; [|done]. by exists n.
Qed.

Lemma forEach_keeps (step : SelectableObject → M unit) (l : list SelectableObject) (s : State) :
  (∀ obj s0, rendered (nodes s0) obj →
     ∃ s1, step obj s0 = Some (tt, s1)
           ∧ keepsLayout s0 s1 ∧ selectedObjects s1 = selectedObjects s0) →
  Forall (rendered (nodes s)) l →
  ∃ s', forEach step l s = Some (tt, s')
        ∧ keepsLayout s s' ∧ selectedObjects s' = selectedObjects s.
Proof.
  intros Hstep. revert s. induction l as [|obj l IH]; intros s Hl.
  - exists s. split; [reflexivity|]. split; [apply keepsLayout_refl|reflexivity].
  - apply Forall_cons in Hl as [Hobj Hl].
    destruct (Hstep obj s Hobj) as (s1 & Hrun1 & K1 & S1).
    destruct (IH s1) as (s' & Hrun & K & S).
    { eapply Forall_impl; [exact Hl|]. intros o. by apply keepsLayout_rendered. }
    exists s'. cbn [forEach]. rewrite bind_run, Hrun1. split; [exact Hrun|].
    split; [by eapply keepsLayout_trans|congruence].
Qed.

Lemma keepsLayout_set_selectedObjects (s : State) (l : list SelectableObject) :
  keepsLayout s (set_selectedObjects l s).
Proof.
  repeat split. intros r. cbn. destruct (nodes s !! r) as [n|]; [|done]. by exists n.
Qed.

Lemma deselectAllObjects_keeps (s : State) :
  Forall (rendered (nodes s)) (selectedObjects s) →
  ∃ s', deselectAllObjects s = Some (tt, s') ∧ keepsLayout s s' ∧ selectedObjects s' = [].
Proof.
  intros Hsel. unfold deselectAllObjects. mstep.
  destruct (forEach_keeps
              (λ obj, match obj with
                      | NodeObject r => deselect r
                      | TransitionObject t => call (transition_deselect_call t)
                      end) (selectedObjects s) s) as (s1 & Hrun & K & _); [|done|].
  { intros [r|t] s0 Hr; [|apply call_keeps]. unfold deselect. mstep.
    by apply onBackground_keeps. }
  rewrite bind_run, Hrun. cbv beta iota. cbn [modify].
  eexists. split; [reflexivity|]. split; [|reflexivity].
  eapply keepsLayout_trans; [exact K|apply keepsLayout_set_selectedObjects].
Qed.

Lemma selectObject_keeps (s : State) (obj : SelectableObject) :
  rendered (nodes s) obj →
  ∃ s', selectObject obj s = Some (tt, s') ∧ keepsLayout s s'
        ∧ obj ∈ selectedObjects s'
        ∧ ∀ o, o ∈ selectedObjects s' → o = obj ∨ o ∈ selectedObjects s.
Proof.
  intros Hobj. unfold selectObject. mstep.
  destruct (existsb (SelectableObject_eqb obj) (selectedObjects s)) eqn:E.
  - exists s. split; [reflexivity|]. split; [apply keepsLayout_refl|].
    split; [by apply existsb_selected|]. intros o Ho. by right.
  - mstep. set (s1 := set_selectedObjects _ s).
    assert (∃ s', match obj with
                  | NodeObject r => select r
                  | TransitionObject t => call (transition_select_call t)
                  end s1 = Some (tt, s')
                  ∧ keepsLayout s1 s' ∧ selectedObjects s' = selectedObjects s1)
      as (s' & Hrun & K & S).
    { destruct obj as [r|t]; [|apply call_keeps]. unfold select. mstep.
      apply onBackground_keeps.
      apply (keepsLayout_rendered s s1 (NodeObject r)); [|exact Hobj].
      apply keepsLayout_set_selectedObjects. }
    exists s'. split; [exact Hrun|].
    split; [eapply keepsLayout_trans; [apply keepsLayout_set_selectedObjects|exact K]|].
    rewrite S. unfold s1. cbn [selectedObjects set_selectedObjects].
    split; [apply elem_of_app; right; apply elem_of_cons; by left|].
    intros o [Ho|Ho]%elem_of_app; [by right|]. left. by apply list_elem_of_singleton in Ho.
Qed.

(** A drag start in Select mode succeeds when the node and the selection have
    their Konva objects.  It leaves the node selected, keeps every selected
    node rendered, and changes neither the mode, nor the snap setting, nor
    the position or the [lastSnappedPos] of any node: what the statements
    about the drag end assume. *)
Lemma onDragStart_Select_selects (s : State) (this : ref) (ev : MouseEvent) :
  currentTool s = Select →
  rendered (nodes s) (NodeObject this) →
  Forall (rendered (nodes s)) (selectedObjects s) →
  ∃ s', onDragStart this ev s = Some (tt, s')
        ∧ NodeObject this ∈ selectedObjects s'
        ∧ Forall (rendered (nodes s')) (selectedObjects s')
        ∧ rendered (nodes s') (NodeObject this)
        ∧ currentTool s' = Select
        ∧ snapToGridEnabled s' = snapToGridEnabled s
        ∧ (∀ r, positionOf (nodes s') r = positionOf (nodes s) r)
        ∧ (∀ r, lastSnappedPosOf (nodes s') r = lastSnappedPosOf (nodes s) r)
        ∧ lastPosOf (nodes s') this = Some (positionOf (nodes s) this).
Proof.
  intros Htool Hthis Hsel.
  destruct (rendered_positionOf _ _ Hthis) as (n & g & Hn & Hk & Hg & Hpos).
  unfold onDragStart.
  rewrite bind_run, (nodePosition_run _ _ _ _ Hn Hg). cbv beta iota.
  rewrite bind_run, (readNode_run _ _ _ Hn). cbv beta iota.
  rewrite bind_run. unfold writeNode. cbn [modify]. cbv beta iota.
  set (s0 := set_nodes _ s).
  assert (∀ obj, rendered (nodes s) obj → rendered (nodes s0) obj) as R0.
  { intros [r|t] Hr; [|done]. destruct Hr as (nr & Hnr & Hkr). cbn.
    destruct (decide (this = r)) as [<-|Hne].
    - rewrite lookup_insert_eq. eexists. split; [reflexivity|].
      rewrite Hn in Hnr. injection Hnr as <-. exact Hkr.
    - rewrite lookup_insert_ne by done. by exists nr. }
  assert (∀ r, positionOf (nodes s0) r = positionOf (nodes s) r) as P0.
  { intros r. unfold positionOf. cbn. destruct (decide (this = r)) as [<-|Hne].
    - by rewrite lookup_insert_eq, Hn.
    - by rewrite lookup_insert_ne. }
  assert (∀ r, lastSnappedPosOf (nodes s0) r = lastSnappedPosOf (nodes s) r) as L0.
  { intros r. unfold lastSnappedPosOf. cbn. destruct (decide (this = r)) as [<-|Hne].
    - by rewrite lookup_insert_eq, Hn.
    - by rewrite lookup_insert_ne. }
  assert (lastPosOf (nodes s0) this = Some (position g)) as LP0.
  { unfold lastPosOf. cbn. by rewrite lookup_insert_eq. }
  mstep. change (currentTool s0) with (currentTool s). rewrite Htool.
  cbn [Tool_eqb]. cbv beta iota.
  mstep. change (selectedObjects s0) with (selectedObjects s).
  assert (Forall (rendered (nodes s0)) (selectedObjects s0)) as Hsel0.
  { eapply Forall_impl; [exact Hsel|]. exact R0. }
  assert (∃ s1, (if negb (shiftKey ev) && (length (selectedObjects s) =? 1)%nat
                 then deselectAllObjects else mret tt) s0 = Some (tt, s1)
                ∧ keepsLayout s0 s1
                ∧ ∀ o, o ∈ selectedObjects s1 → o ∈ selectedObjects s)
    as (s1 & Hrun1 & K1 & S1).
  { destruct (negb (shiftKey ev) && (length (selectedObjects s) =? 1)%nat).
    - destruct (deselectAllObjects_keeps s0 Hsel0) as (s1 & Hrun & K & S).
      exists s1. split; [done|]. split; [done|]. rewrite S. intros o Ho.
      by apply elem_of_nil in Ho.
    - exists s0. split; [reflexivity|]. split; [apply keepsLayout_refl|done]. }
  rewrite bind_run, Hrun1. cbv beta iota.
  destruct (selectObject_keeps s1 (NodeObject this)) as (s2 & Hrun2 & K2 & Hin2 & S2).
  { by apply (keepsLayout_rendered s0 s1), R0. }
  rewrite bind_run, Hrun2. cbv beta iota. mstep.
  assert (keepsLayout s0 s2) as K02 by (by eapply keepsLayout_trans).
  assert (Forall (rendered (nodes s2)) (selectedObjects s2)) as Hsel2.
  { apply Forall_forall. intros o Ho. apply (keepsLayout_rendered s0 s2 o K02), R0.
    destruct (S2 o Ho) as [->|Ho']; [done|].
    by apply (proj1 (Forall_forall _ _) Hsel), S1. }
  destruct (forEach_keeps
              (λ obj, match obj with
                      | NodeObject r => enableDragDropShadow r
                      | TransitionObject _ => mret tt
                      end) (selectedObjects s2) s2) as (s3 & Hrun3 & K3 & S3); [|done|].
  { intros [r|t] sa Hr.
    - unfold enableDragDropShadow. mstep. by apply onBackground_keeps.
    - exists sa. split; [reflexivity|]. split; [apply keepsLayout_refl|reflexivity]. }
  rewrite bind_run, Hrun3. cbv beta iota.
  assert (keepsLayout s0 s3) as K03 by (by eapply keepsLayout_trans).
  assert (lastPosOf (nodes s3) this = Some (position g)) as LP3
    by (by rewrite (keepsLayout_lastPosOf s0 s3)).
  assert (∃ n3, nodes s3 !! this = Some n3 ∧ lastPos n3 = Some (position g)) as (n3 & Hn3 & Hl3).
  { unfold lastPosOf in LP3. destruct (nodes s3 !! this) as [n3|]; [|done]. by exists n3. }
  rewrite bind_run, (readNode_run _ _ _ Hn3). cbv beta iota. rewrite Hl3. cbn [defined].
  rewrite bind_run. cbn [mret M_ret]. cbv beta iota.
  destruct (call_keeps s3 (startDragStatesOperation_call (position g))) as (s4 & Hrun4 & K4 & S4).
  unfold startDragStatesOperation. rewrite Hrun4.
  assert (keepsLayout s0 s4) as K04 by (by eapply keepsLayout_trans).
  exists s4. split; [reflexivity|].
  split; [by rewrite S4, S3|].
  split.
  { rewrite S4, S3. eapply Forall_impl; [exact Hsel2|]. intros o.
    apply keepsLayout_rendered. by eapply keepsLayout_trans. }
  split; [by apply (keepsLayout_rendered s0 s4), R0|].
  pose proof K04 as (T4 & G4 & _).
  split; [by rewrite T4|]. split; [by rewrite G4|].
  split; [intros r; by rewrite (keepsLayout_positionOf s0 s4)|].
  split; [intros r; by rewrite (keepsLayout_lastSnappedPosOf s0 s4)|].
  by rewrite (keepsLayout_lastPosOf s0 s4), Hpos.
Qed.

(** * Further properties *)

(** ** What no handler changes *)

Section NodeInvariant.

(** A property of the nodes of the store that the four fields a handler
    writes do not matter to, and the set of references in use. *)
Variable J : ref → NodeWrapper → Prop.
Variable D : gset ref.
Hypothesis J_nodeBackground :
  ∀ r n v, is_Some (nodeBackground n) → J r n → J r (set_nodeBackground (Some v) n).
Hypothesis J_nodeGroup :
  ∀ r n v, is_Some (nodeGroup n) → J r n → J r (set_nodeGroup (Some v) n).
Hypothesis J_lastPos : ∀ r n v, J r n → J r (set_lastPos v n).
Hypothesis J_lastSnappedPos : ∀ r n v, J r n → J r (set_lastSnappedPos v n).

Local Abbreviation holds := (holds J D).
Local Abbreviation keepsGiven := (keepsGiven J D).
Local Abbreviation keeps := (keeps J D).

Lemma keeps_weaken {A} (P : State → Prop) (m : M A) : keeps m → keepsGiven P m.
Proof. intros H s a s' Hs _. by apply H. Qed.

Lemma keeps_ret {A} (a : A) : keeps (mret a).
Proof. intros s a' s' Hs _ E. injection E as _ <-. exact Hs. Qed.

Lemma keeps_throw {A} : keeps (@throw A).
Proof. intros s a s' _ _ E. discriminate E. Qed.

Lemma keeps_gets {A B} (f : State → A) (k : A → M B) :
  (∀ a, keeps (k a)) → keeps (gets f ≫= k).
Proof. intros Hk s b s' Hs _ E. by apply (Hk (f s) s b s'). Qed.

Lemma keeps_bind {A B} (m : M A) (k : A → M B) :
  keeps m → (∀ a, keeps (k a)) → keeps (m ≫= k).
Proof.
  intros Hm Hk s b s' Hs _ E. rewrite bind_run in E.
  destruct (m s) as [[a s1]|] eqn:E1; [|done].
  apply (Hk a s1 b s'); [|done|done]. by apply (Hm s a s1).
Qed.

Lemma keeps_defined {A} (o : option A) : keeps (defined o).
Proof. destruct o; [apply keeps_ret|apply keeps_throw]. Qed.

Lemma holds_same_nodes (s s' : State) : nodes s' = nodes s → holds s → holds s'.
Proof. intros E [Hd Hj]. split; by rewrite E. Qed.

Lemma keeps_modify (f : State → State) :
  (∀ s, nodes (f s) = nodes s) → keeps (modify f).
Proof.
  intros Hf s a s' Hs _ E. injection E as _ <-. apply (holds_same_nodes s); [apply Hf|exact Hs].
Qed.

Lemma keeps_call (c : Call) : keeps (call c).
Proof. by apply keeps_modify. Qed.

Lemma holds_insert (s : State) (r : ref) (n n' : NodeWrapper) :
  nodes s !! r = Some n → J r n' → holds s → holds (set_nodes (<[r := n']> (nodes s)) s).
Proof.
  intros Hn Hj [Hd Hall]. split; cbn [nodes set_nodes].
  - rewrite dom_insert_L, <- Hd. apply subseteq_union_1_L, singleton_subseteq_l.
    by apply elem_of_dom_2 in Hn.
  - intros i ni. destruct (decide (r = i)) as [<-|Hne].
    + rewrite lookup_insert_eq. by intros [= <-].
    + rewrite lookup_insert_ne by done. apply Hall.
Qed.

(** Reading a wrapper and then acting with the knowledge of what was read. *)
Lemma keeps_read {A} (r : ref) (k : NodeWrapper → M A) :
  (∀ n, keepsGiven (λ s, nodes s !! r = Some n) (k n)) → keeps (readNode r ≫= k).
Proof.
  intros Hk s a s' Hs _ E. rewrite bind_run in E. unfold readNode in E.
  destruct (nodes s !! r) as [n|] eqn:Hn; [|done].
  by apply (Hk n s a s').
Qed.

(** Writing back a changed copy of the wrapper just read. *)
Lemma keeps_write {A} (r : ref) (n n' : NodeWrapper) (k : M A) :
  (J r n → J r n') → keeps k →
  keepsGiven (λ s, nodes s !! r = Some n) (writeNode r n' ≫= λ _, k).
Proof.
  intros Hj Hk s a s' Hs Hn E. rewrite bind_run in E. cbn in E.
  apply (Hk (set_nodes (<[r := n']> (nodes s)) s) a s'); [|done|done].
  apply (holds_insert s r n); [done| |done]. apply Hj. by apply (proj2 Hs).
Qed.

Lemma keeps_readNode (r : ref) : keeps (readNode r).
Proof.
  intros s a s' Hs _ E. unfold readNode in E.
  destruct (nodes s !! r); [|done]. injection E as _ <-. exact Hs.
Qed.

Lemma keepsGiven_if {A} (P : State → Prop) (b : bool) (m1 m2 : M A) :
  keepsGiven P m1 → keepsGiven P m2 → keepsGiven P (if b then m1 else m2).
Proof. by destruct b. Qed.

Lemma keeps_onBackground (r : ref) (f : Shape → Shape) : keeps (onBackground r f).
Proof.
  unfold onBackground. apply keeps_read. intros n s a s' Hs Hn E.
  rewrite bind_run in E. destruct (nodeBackground n) as [bg|] eqn:Hbg; [|done].
  cbn in E. injection E as _ <-.
  apply (holds_insert s r n); [done| |done].
  apply J_nodeBackground; [by rewrite Hbg|]. by apply (proj2 Hs).
Qed.

Lemma keeps_onGroup (r : ref) (f : Group → Group) : keeps (onGroup r f).
Proof.
  unfold onGroup. apply keeps_read. intros n s a s' Hs Hn E.
  rewrite bind_run in E. destruct (nodeGroup n) as [g|] eqn:Hg; [|done].
  cbn in E. injection E as _ <-.
  apply (holds_insert s r n); [done| |done].
  apply J_nodeGroup; [by rewrite Hg|]. by apply (proj2 Hs).
Qed.

Lemma keeps_forEach {A} (f : A → M unit) (l : list A) :
  (∀ a, keeps (f a)) → keeps (forEach f l).
Proof.
  intros Hf. induction l as [|a l IH]; [apply keeps_ret|].
  cbn [forEach]. apply keeps_bind; [apply Hf|]. intros _. exact IH.
Qed.

Lemma keeps_forEachWith {A B} (f : B → A → M B) (b : B) (l : list A) :
  (∀ b a, keeps (f b a)) → keeps (forEachWith f b l).
Proof.
  intros Hf. revert b. induction l as [|a l IH]; intros b; [apply keeps_ret|].
  cbn [forEachWith]. apply keeps_bind; [apply Hf|]. intros b'. apply IH.
Qed.

Lemma keeps_nodePosition (r : ref) : keeps (nodePosition r).
Proof.
  unfold nodePosition. apply keeps_read. intros n. apply keeps_weaken.
  apply keeps_bind; [apply keeps_defined|]. intros g. apply keeps_ret.
Qed.

Lemma keeps_batchDrawLayer (r : ref) : keeps (batchDrawLayer r).
Proof.
  unfold batchDrawLayer. apply keeps_read. intros n. apply keeps_weaken.
  apply keeps_bind; [apply keeps_defined|]. intros g.
  destruct (onLayer g); [apply keeps_call|apply keeps_ret].
Qed.

Lemma keeps_konvaObject (r : ref) : keeps (konvaObject r).
Proof.
  unfold konvaObject. apply keeps_bind; [apply keeps_readNode|]. intros n. apply keeps_ret.
Qed.

Lemma keeps_fireMove (r : ref) : keeps (fireMove r).
Proof.
  unfold fireMove. apply keeps_bind; [apply keeps_konvaObject|]. intros g.
  apply keeps_bind; [apply keeps_defined|]. intros _. apply keeps_call.
Qed.

Create HintDb keeps discriminated.
Hint Resolve keeps_ret keeps_throw keeps_defined keeps_call keeps_readNode keeps_onBackground
  keeps_onGroup keeps_nodePosition keeps_batchDrawLayer keeps_konvaObject keeps_fireMove
  : keeps.

Ltac keeps_step :=
  match goal with
  | |- keeps (gets _ ≫= _) => apply keeps_gets; intros ?
  | |- keeps (if ?b then _ else _) => destruct b
  | |- keeps (match ?o with NodeObject _ => _ | TransitionObject _ => _ end) => destruct o
  | |- keeps (forEach _ _) => apply keeps_forEach; intros ?
  | |- keeps (forEachWith _ _ _) => apply keeps_forEachWith; intros ? ?
  | |- keeps (modify _) => apply keeps_modify; intros ?; reflexivity
  | |- keeps (_ ≫= _) => apply keeps_bind; [|intros ?]
  | |- keeps _ => solve [eauto with keeps]
  end.

Lemma keeps_select r : keeps (select r).
Proof. unfold select. repeat keeps_step. Qed.

Lemma keeps_deselect r : keeps (deselect r).
Proof. unfold deselect. repeat keeps_step. Qed.

Lemma keeps_enableNewConnectionGlow r : keeps (enableNewConnectionGlow r).
Proof. unfold enableNewConnectionGlow. repeat keeps_step. Qed.

Lemma keeps_enableDragDropShadow r : keeps (enableDragDropShadow r).
Proof. unfold enableDragDropShadow. repeat keeps_step. Qed.

Lemma keeps_disableShadowEffects r : keeps (disableShadowEffects r).
Proof. unfold disableShadowEffects. repeat keeps_step. Qed.

Lemma keeps_setPosition r p : keeps (setPosition r p).
Proof. unfold setPosition. repeat keeps_step. Qed.

Lemma keeps_deleteKonvaObjects r : keeps (deleteKonvaObjects r).
Proof. unfold deleteKonvaObjects. repeat keeps_step. Qed.

Hint Resolve keeps_select keeps_deselect keeps_enableNewConnectionGlow
  keeps_enableDragDropShadow keeps_disableShadowEffects keeps_setPosition
  keeps_deleteKonvaObjects : keeps.

Lemma keeps_deselectAllObjects : keeps deselectAllObjects.
Proof. unfold deselectAllObjects. repeat keeps_step. Qed.

Lemma keeps_selectObject obj : keeps (selectObject obj).
Proof. unfold selectObject. repeat keeps_step. Qed.

Lemma keeps_snapToGrid r : keeps (snapToGrid r).
Proof. unfold snapToGrid, updatePoints. repeat keeps_step. Qed.

Hint Resolve keeps_deselectAllObjects keeps_selectObject keeps_snapToGrid : keeps.

Lemma keeps_onClick r ev : keeps (onClick r ev).
Proof. unfold onClick. repeat keeps_step. Qed.

Lemma keeps_onMouseEnter r : keeps (onMouseEnter r).
Proof. unfold onMouseEnter. repeat keeps_step. Qed.

Lemma keeps_onMouseLeave r : keeps (onMouseLeave r).
Proof. unfold onMouseLeave. repeat keeps_step. Qed.

Lemma keeps_onDragMove r ev : keeps (onDragMove r ev).
Proof.
  unfold onDragMove. apply keeps_gets. intros tool.
  destruct (Tool_eqb tool Transitions).
  - apply keeps_read. intros n. apply keeps_weaken.
    unfold updateTentativeTransitionHead. repeat keeps_step.
  - repeat keeps_step.
Qed.

Lemma keeps_onDragStart r ev : keeps (onDragStart r ev).
Proof.
  unfold onDragStart. apply keeps_bind; [apply keeps_nodePosition|]. intros p.
  apply keeps_read. intros n. apply keeps_write; [apply J_lastPos|].
  apply keeps_gets. intros tool.
  unfold startTentativeTransition, startDragStatesOperation.
  destruct (Tool_eqb tool States); [repeat keeps_step|].
  destruct (Tool_eqb tool Transitions); [repeat keeps_step|].
  destruct (Tool_eqb tool Select); [|repeat keeps_step].
  repeat keeps_step.
Qed.

Lemma keeps_onDragEnd r : keeps (onDragEnd r).
Proof.
  unfold onDragEnd. apply keeps_gets. intros tool. apply keeps_gets. intros snap.
  unfold updateStartNodePosition, completeDragStatesOperation, endTentativeTransition.
  destruct (Tool_eqb tool States); [repeat keeps_step|].
  destruct (Tool_eqb tool Select && snap).
  - apply keeps_gets. intros selected.
    apply keeps_bind; [repeat keeps_step|]. intros snappedPos.
    apply keeps_bind; [repeat keeps_step|]. intros _.
    apply keeps_read. intros n. apply keepsGiven_if.
    + apply keeps_write; [apply J_lastSnappedPos|]. repeat keeps_step.
    + apply keeps_weaken. repeat keeps_step.
  - repeat keeps_step.
Qed.

Lemma keeps_fire r e : keeps (fire r e).
Proof.
  destruct e; cbn [fire];
    [apply keeps_onMouseEnter|apply keeps_onMouseLeave|apply keeps_onClick
    |apply keeps_onDragStart|apply keeps_onDragMove|apply keeps_onDragEnd].
Qed.

Lemma keeps_fireAll events : keeps (fireAll events).
Proof. unfold fireAll. apply keeps_forEach. intros [r e]. apply keeps_fire. Qed.

Lemma keeps_toSerializable r : keeps (toSerializable r).
Proof. unfold toSerializable. repeat keeps_step. Qed.

Lemma keeps_setErrorState r isError : keeps (setErrorState r isError).
Proof. unfold setErrorState. repeat keeps_step. Qed.

Lemma keeps_get_isAcceptNode r : keeps (get_isAcceptNode r).
Proof. unfold get_isAcceptNode. repeat keeps_step. Qed.

Lemma keeps_get_labelText r : keeps (get_labelText r).
Proof. unfold get_labelText. repeat keeps_step. Qed.

Lemma keeps_onAcceptCircle_with (r : ref) (f : Shape → Shape) :
  (∀ n c, nodeAcceptCircle n = Some c → J r n → J r (set_nodeAcceptCircle (Some (f c)) n)) →
  keeps (onAcceptCircle r f).
Proof.
  intros Hf. unfold onAcceptCircle. apply keeps_read. intros n s a s' Hs Hn E.
  rewrite bind_run in E. destruct (nodeAcceptCircle n) as [c|] eqn:Hc; [|done].
  cbn in E. injection E as _ <-.
  apply (holds_insert s r n); [done| |done]. apply Hf; [done|]. by apply (proj2 Hs).
Qed.

Lemma keeps_onLabel_with (r : ref) (f : Shape → Shape) :
  (∀ n l, nodeLabel n = Some l → J r n → J r (set_nodeLabel (Some (f l)) n)) →
  keeps (onLabel r f).
Proof.
  intros Hf. unfold onLabel. apply keeps_read. intros n s a s' Hs Hn E.
  rewrite bind_run in E. destruct (nodeLabel n) as [l|] eqn:Hl; [|done].
  cbn in E. injection E as _ <-.
  apply (holds_insert s r n); [done| |done]. apply Hf; [done|]. by apply (proj2 Hs).
Qed.

(** The methods that write other fields: the property has to bear those
    writes as well. *)

Hypothesis J_nodeAcceptCircle :
  ∀ r n v, is_Some (nodeAcceptCircle n) → J r n → J r (set_nodeAcceptCircle (Some v) n).
Hypothesis J_nodeLabel :
  ∀ r n v, is_Some (nodeLabel n) → J r n → J r (set_nodeLabel (Some v) n).
Hypothesis J_isAcceptNode : ∀ r n v, J r n → J r (set__isAcceptNode v n).
Hypothesis J_labelText : ∀ r n v, J r n → J r (set__labelText v n).
Hypothesis J_createKonvaObjects :
  ∀ r n bg c l g, J r n →
    J r (mkNodeWrapper (Some bg) (Some c) (Some l) (Some g) (lastPos n) (lastSnappedPos n)
           (_isAcceptNode n) (_labelText n) (_id n)).

Lemma keeps_onAcceptCircle (r : ref) (f : Shape → Shape) : keeps (onAcceptCircle r f).
Proof.
  apply keeps_onAcceptCircle_with. intros n c Hc. apply J_nodeAcceptCircle. by rewrite Hc.
Qed.

Lemma keeps_onLabel (r : ref) (f : Shape → Shape) : keeps (onLabel r f).
Proof.
  apply keeps_onLabel_with. intros n l Hl. apply J_nodeLabel. by rewrite Hl.
Qed.

Hint Resolve keeps_onAcceptCircle keeps_onLabel : keeps.

Lemma keeps_createKonvaObjects r x y : keeps (createKonvaObjects r x y).
Proof.
  unfold createKonvaObjects. apply keeps_read. intros n s a s' Hs Hn E.
  cbn in E. injection E as _ <-.
  apply (holds_insert s r n); [done| |done].
  apply J_createKonvaObjects. by apply (proj2 Hs).
Qed.

Lemma keeps_set_isAcceptNode r value : keeps (set_isAcceptNode r value).
Proof.
  unfold set_isAcceptNode. apply keeps_read. intros n.
  apply keeps_write; [apply J_isAcceptNode|]. repeat keeps_step.
Qed.

Lemma keeps_toggleAcceptNode r : keeps (toggleAcceptNode r).
Proof.
  unfold toggleAcceptNode. apply keeps_bind; [apply keeps_readNode|]. intros n.
  apply keeps_set_isAcceptNode.
Qed.

Lemma keeps_updateColorScheme r : keeps (updateColorScheme r).
Proof. unfold updateColorScheme. repeat keeps_step. Qed.

Variable measure : string → Q → Q.

Lemma keeps_adjustFontSize r : keeps (adjustFontSize measure r).
Proof. unfold adjustFontSize. repeat keeps_step. Qed.

Lemma keeps_set_labelText r value : keeps (set_labelText measure r value).
Proof.
  unfold set_labelText. apply keeps_read. intros n.
  apply keeps_write; [apply J_labelText|].
  apply keeps_bind; [apply keeps_readNode|]. intros n'.
  apply keeps_bind; [apply keeps_onLabel|]. intros _. apply keeps_adjustFontSize.
Qed.

Lemma keeps_invoke r m : keeps (invoke measure r m).
Proof.
  destruct m; cbn [invoke];
    try (apply keeps_bind; [|intros ?; apply keeps_ret]);
    eauto using keeps_toSerializable, keeps_createKonvaObjects, keeps_adjustFontSize,
      keeps_get_isAcceptNode, keeps_set_isAcceptNode, keeps_toggleAcceptNode,
      keeps_get_labelText, keeps_set_labelText, keeps_updateColorScheme,
      keeps_setErrorState, keeps_fire with keeps.
Qed.

End NodeInvariant.

Lemma hasKonvaObjects_set_nodeBackground n v :
  is_Some (nodeBackground n) → hasKonvaObjects (set_nodeBackground (Some v) n) = hasKonvaObjects n.
Proof. intros [bg Hbg]. unfold hasKonvaObjects. cbn. by rewrite Hbg. Qed.

Lemma hasKonvaObjects_set_nodeGroup n v :
  is_Some (nodeGroup n) → hasKonvaObjects (set_nodeGroup (Some v) n) = hasKonvaObjects n.
Proof. intros [g Hg]. unfold hasKonvaObjects. cbn. by rewrite Hg. Qed.

(** From the property at the end back to a statement about every node of
    the start. *)
Lemma holds_forward (J : NodeWrapper → NodeWrapper → Prop) (s s' : State) :
  holds (λ r n', ∃ n, nodes s !! r = Some n ∧ J n n') (dom (nodes s)) s' →
  dom (nodes s') = dom (nodes s)
  ∧ ∀ r n, nodes s !! r = Some n → ∃ n', nodes s' !! r = Some n' ∧ J n n'.
Proof.
  intros [Hd Hj]. split; [done|]. intros r n Hn.
  assert (r ∈ dom (nodes s')) as [n' Hn']%elem_of_dom by (rewrite Hd; by apply elem_of_dom_2 in Hn).
  exists n'. split; [done|]. destruct (Hj r n' Hn') as (n0 & Hn0 & H). congruence.
Qed.

(** X1.  Whenever a sequence of events (mouse enter, mouse leave, click,
    drag start, drag move, drag end, on any nodes, in any mode) runs without
    an exception, the store holds the same nodes as before and every node
    has kept its identifier, its label text, its accept flag, its accept
    ring, its label shape and the presence of its Konva objects: the
    handlers only restyle the background circle, move groups and record
    positions. *)
Theorem handlers_keep_node_data (events : list (ref * Event)) (s s' : State) :
  fireAll events s = Some (tt, s') →
  dom (nodes s') = dom (nodes s)
  ∧ ∀ r n, nodes s !! r = Some n → ∃ n', nodes s' !! r = Some n' ∧ sameData n n'.
Proof.
  intros E. apply holds_forward.
  apply (keeps_fireAll (λ r n', ∃ n, nodes s !! r = Some n ∧ sameData n n') (dom (nodes s)))
    with (events := events) (s := s) (a := tt).
  - intros r n v Hbg (n0 & Hn0 & H). exists n0. split; [done|].
    unfold sameData in *. cbn. rewrite hasKonvaObjects_set_nodeBackground by done. exact H.
  - intros r n v Hg (n0 & Hn0 & H). exists n0. split; [done|].
    unfold sameData in *. cbn. rewrite hasKonvaObjects_set_nodeGroup by done. exact H.
  - intros r n v (n0 & Hn0 & H). by exists n0.
  - intros r n v (n0 & Hn0 & H). by exists n0.
  - split; [done|]. intros r n Hn. exists n. by repeat split.
  - done.
  - exact E.
Qed.

Lemma handlers_keep_node_data_witness :
  dom (nodes (afterEvents exampleEvents (oneNode Select true 73 124)))
  = dom (nodes (oneNode Select true 73 124))
  ∧ ∀ r n, nodes (oneNode Select true 73 124) !! r = Some n →
           ∃ n', nodes (afterEvents exampleEvents (oneNode Select true 73 124)) !! r = Some n'
                 ∧ sameData n n'.
Proof.
  apply (handlers_keep_node_data exampleEvents). vm_compute. reflexivity.
Defined.

(** X2.  No public method changes the identifier of a node, and none adds
    or removes a node: after any sequence of method calls that runs without
    an exception, the store has the same references and every node has the
    identifier it had. *)
Theorem id_never_changes (measure : string → Q → Q) (calls : list (ref * Method))
    (s s' : State) :
  invokeAll measure calls s = Some (tt, s') →
  dom (nodes s') = dom (nodes s)
  ∧ ∀ r n, nodes s !! r = Some n → ∃ n', nodes s' !! r = Some n' ∧ _id n' = _id n.
Proof.
  intros E. apply (holds_forward (λ n n', _id n' = _id n)).
  assert (keeps (λ r n', ∃ n, nodes s !! r = Some n ∧ _id n' = _id n) (dom (nodes s))
            (invokeAll measure calls)) as K.
  { unfold invokeAll. apply keeps_forEach. intros [r m]. apply keeps_invoke; done. }
  apply (K s tt s'); try done.
  split; [done|]. intros r n Hn. by exists n.
Qed.

Lemma id_never_changes_witness :
  dom (nodes (afterCalls exampleMeasure exampleCalls (oneNode Select true 73 124)))
  = dom (nodes (oneNode Select true 73 124))
  ∧ ∀ r n, nodes (oneNode Select true 73 124) !! r = Some n →
           ∃ n', nodes (afterCalls exampleMeasure exampleCalls (oneNode Select true 73 124)) !! r
                 = Some n' ∧ _id n' = _id n.
Proof.
  apply (id_never_changes exampleMeasure exampleCalls). vm_compute. reflexivity.
Defined.

(** The label shown and the accept ring shown are the label and the flag
    stored. *)
(** ** The setters, step by step *)

Lemma onAcceptCircle_spec (r : ref) (f : Shape → Shape) (s s' : State) :
  onAcceptCircle r f s = Some (tt, s')
  ↔ ∃ n c, nodes s !! r = Some n ∧ nodeAcceptCircle n = Some c
           ∧ s' = set_nodes (<[r := set_nodeAcceptCircle (Some (f c)) n]> (nodes s)) s.
Proof.
  unfold onAcceptCircle, readNode. rewrite bind_run. split.
  - destruct (nodes s !! r) as [n|]; [|done]. cbv beta iota. rewrite bind_run.
    destruct (nodeAcceptCircle n) as [c|] eqn:Hc; [|done]. cbn. intros [= <-]. by exists n, c.
  - intros (n & c & -> & Hc & ->). cbv beta iota. rewrite bind_run, Hc. reflexivity.
Qed.

Lemma onLabel_spec (r : ref) (f : Shape → Shape) (s s' : State) :
  onLabel r f s = Some (tt, s')
  ↔ ∃ n l, nodes s !! r = Some n ∧ nodeLabel n = Some l
           ∧ s' = set_nodes (<[r := set_nodeLabel (Some (f l)) n]> (nodes s)) s.
Proof.
  unfold onLabel, readNode. rewrite bind_run. split.
  - destruct (nodes s !! r) as [n|]; [|done]. cbv beta iota. rewrite bind_run.
    destruct (nodeLabel n) as [l|] eqn:Hl; [|done]. cbn. intros [= <-]. by exists n, l.
  - intros (n & l & -> & Hl & ->). cbv beta iota. rewrite bind_run, Hl. reflexivity.
Qed.

Lemma set_isAcceptNode_spec (r : ref) (value : bool) (s s' : State) :
  set_isAcceptNode r value s = Some (tt, s')
  ↔ ∃ n c, nodes s !! r = Some n ∧ nodeAcceptCircle n = Some c
           ∧ s' = set_nodes (<[r := acceptSet value c n]> (nodes s)) s.
Proof.
  unfold set_isAcceptNode. rewrite bind_run. unfold readNode at 1.
  destruct (nodes s !! r) as [n|] eqn:Hn.
  2:{ split; [done|]. by intros (? & ? & ? & _). }
  cbv beta iota. rewrite bind_run. unfold writeNode. cbn [modify]. cbv beta iota.
  rewrite bind_run. erewrite readNode_run by (cbn [nodes set_nodes]; apply lookup_insert_eq).
  cbv beta iota. cbn [_isAcceptNode set__isAcceptNode].
  assert (∀ s1, (if value then onAcceptCircle r (setAttr "visible" (VBool true))
                 else onAcceptCircle r (setAttr "visible" (VBool false))) s1
                = onAcceptCircle r (setAttr "visible" (VBool value)) s1) as -> by by destruct value.
  rewrite onAcceptCircle_spec. cbn [nodes set_nodes]. split.
  - intros (n1 & c & Hn1 & Hc & ->). rewrite lookup_insert_eq in Hn1. injection Hn1 as <-.
    exists n, c. split; [done|]. split; [done|]. cbn. by rewrite insert_insert_eq.
  - intros (n0 & c & [= <-] & Hc & ->). exists (set__isAcceptNode value n), c.
    split; [apply lookup_insert_eq|]. split; [done|]. cbn. by rewrite insert_insert_eq.
Qed.

Lemma toggleAcceptNode_spec (r : ref) (s s' : State) :
  toggleAcceptNode r s = Some (tt, s')
  ↔ ∃ n c, nodes s !! r = Some n ∧ nodeAcceptCircle n = Some c
           ∧ s' = set_nodes (<[r := acceptSet (negb (_isAcceptNode n)) c n]> (nodes s)) s.
Proof.
  unfold toggleAcceptNode. rewrite bind_run. unfold readNode.
  destruct (nodes s !! r) as [n|] eqn:Hn.
  2:{ split; [done|]. by intros (? & ? & ? & _). }
  cbv beta iota. rewrite set_isAcceptNode_spec. split.
  - intros (n0 & c & Hn0 & Hc & ->). rewrite Hn in Hn0. injection Hn0 as <-. by exists n, c.
  - intros (n0 & c & [= <-] & Hc & ->). by exists n, c.
Qed.

Section FontFitSpec.

Variable measure : string → Q → Q.

Local Abbreviation fontFitted := (fontFitted measure).
Local Abbreviation labelSet := (labelSet measure).

Lemma adjustFontSize_spec (r : ref) (s s' : State) :
  adjustFontSize measure r s = Some (tt, s')
  ↔ ∃ n l, nodes s !! r = Some n ∧ nodeLabel n = Some l
           ∧ s' = set_nodes (<[r := set_nodeLabel (Some (fontFitted (_labelText n) l)) n]>
                               (nodes s)) s.
Proof.
  unfold adjustFontSize. rewrite bind_run. unfold readNode at 1.
  destruct (nodes s !! r) as [n|] eqn:Hn.
  2:{ split; [done|]. by intros (? & ? & ? & _). }
  cbv beta iota. rewrite bind_run. destruct (nodeLabel n) as [l|] eqn:Hl.
  2:{ split; [done|]. intros (n0 & l & [= <-] & Hl' & _). congruence. }
  cbn [defined mret M_ret]. cbv beta iota zeta. rewrite onLabel_spec. split.
  - intros (n0 & l0 & Hn0 & Hl0 & ->). rewrite Hn in Hn0. injection Hn0 as <-.
    rewrite Hl in Hl0. injection Hl0 as <-. by exists n, l.
  - intros (n0 & l0 & [= <-] & Hl0 & ->). rewrite Hl in Hl0. injection Hl0 as <-.
    by exists n, l.
Qed.

Lemma set_labelText_spec (r : ref) (value : string) (s s' : State) :
  set_labelText measure r value s = Some (tt, s')
  ↔ ∃ n l, nodes s !! r = Some n ∧ nodeLabel n = Some l
           ∧ s' = set_nodes (<[r := labelSet value l n]> (nodes s)) s.
Proof.
  unfold set_labelText. rewrite bind_run. unfold readNode at 1.
  destruct (nodes s !! r) as [n|] eqn:Hn.
  2:{ split; [done|]. by intros (? & ? & ? & _). }
  cbv beta iota. rewrite bind_run. unfold writeNode. cbn [modify]. cbv beta iota.
  rewrite bind_run. erewrite readNode_run by (cbn [nodes set_nodes]; apply lookup_insert_eq).
  cbv beta iota. cbn [_labelText set__labelText]. rewrite bind_run.
  set (s1 := set_nodes _ s). split.
  - destruct (onLabel r (setAttr "text" (VStr value)) s1) as [[[] s2]|] eqn:E1; [|done].
    cbv beta iota. apply onLabel_spec in E1 as (n1 & l & Hn1 & Hl & ->).
    unfold s1 in Hn1. cbn [nodes set_nodes] in Hn1. rewrite lookup_insert_eq in Hn1.
    injection Hn1 as <-. cbn [nodeLabel set__labelText] in Hl.
    intros (n2 & l2 & Hn2 & Hl2 & ->)%adjustFontSize_spec.
    cbn [nodes set_nodes] in Hn2. rewrite lookup_insert_eq in Hn2. injection Hn2 as <-.
    cbn [nodeLabel set_nodeLabel] in Hl2. injection Hl2 as <-.
    exists n, l. split; [done|]. split; [done|]. unfold s1. cbn. by rewrite !insert_insert_eq.
  - intros (n0 & l & [= <-] & Hl & ->).
    assert (onLabel r (setAttr "text" (VStr value)) s1
            = Some (tt, set_nodes (<[r := set_nodeLabel (Some (setAttr "text" (VStr value) l))
                                            (set__labelText value n)]> (nodes s1)) s1)) as ->.
    { apply onLabel_spec. exists (set__labelText value n), l.
      split; [apply lookup_insert_eq|]. by split. }
    cbv beta iota. apply adjustFontSize_spec. eexists _, _.
    split; [cbn [nodes set_nodes]; apply lookup_insert_eq|]. split; [reflexivity|].
    unfold s1. cbn. by rewrite !insert_insert_eq.
Qed.

End FontFitSpec.

(** ** The accept flag *)

Lemma rendered_acceptCircle (m : gmap ref NodeWrapper) (r : ref) :
  rendered m (NodeObject r) → ∃ n c, m !! r = Some n ∧ nodeAcceptCircle n = Some c.
Proof.
  intros (n & Hn & Hk). apply hasKonvaObjects_iff in Hk as (_ & [c Hc] & _). by exists n, c.
Qed.

(** X3.  On a node with its Konva objects, [set isAcceptNode(value)] sets
    the flag to [value] and the visibility of the accept ring to the same
    value, leaving the position of the node and every other node alone.
    [toggleAcceptNode] negates the flag and shows the ring exactly when the
    new flag is set; toggling twice gives back the flag, with the ring
    following it. *)
Theorem accept_ring_follows_flag (s : State) (this : ref) (value : bool) :
  rendered (nodes s) (NodeObject this) →
  (∃ s', set_isAcceptNode this value s = Some (tt, s')
         ∧ isAcceptNodeOf (nodes s') this = Some value
         ∧ acceptRingVisibleOf (nodes s') this = Some (VBool value)
         ∧ rendered (nodes s') (NodeObject this)
         ∧ positionOf (nodes s') this = positionOf (nodes s) this
         ∧ ∀ r, r ≠ this → nodes s' !! r = nodes s !! r) ∧
  (∃ s1 s2, toggleAcceptNode this s = Some (tt, s1)
            ∧ toggleAcceptNode this s1 = Some (tt, s2)
            ∧ isAcceptNodeOf (nodes s1) this = negb <$> isAcceptNodeOf (nodes s) this
            ∧ acceptRingVisibleOf (nodes s1) this = VBool <$> isAcceptNodeOf (nodes s1) this
            ∧ isAcceptNodeOf (nodes s2) this = isAcceptNodeOf (nodes s) this
            ∧ acceptRingVisibleOf (nodes s2) this = VBool <$> isAcceptNodeOf (nodes s) this).
Proof.
  intros Hthis. pose proof Hthis as (n0 & Hn0 & Hk).
  destruct (rendered_acceptCircle _ _ Hthis) as (n & c & Hn & Hc).
  rewrite Hn in Hn0. injection Hn0 as <-.
  split.
  - eexists. split; [apply set_isAcceptNode_spec; by exists n, c|].
    cbn [nodes set_nodes]. unfold isAcceptNodeOf, acceptRingVisibleOf, positionOf.
    rewrite !lookup_insert_eq, Hn. cbn.
    split; [done|]. split; [apply lookup_insert_eq|]. split; [|split; [done|]].
    + eexists. split; [apply lookup_insert_eq|].
      apply hasKonvaObjects_iff in Hk as (? & ? & ? & ?). apply hasKonvaObjects_iff. cbn. eauto.
    + intros r Hr. by rewrite lookup_insert_ne.
  - eexists _, _. split; [apply toggleAcceptNode_spec; by exists n, c|].
    split.
    { apply toggleAcceptNode_spec. eexists _, _.
      split; [cbn [nodes set_nodes]; apply lookup_insert_eq|]. split; reflexivity. }
    cbn [nodes set_nodes]. unfold isAcceptNodeOf, acceptRingVisibleOf.
    rewrite !lookup_insert_eq, Hn. cbn. rewrite !lookup_insert_eq, negb_involutive. done.
Qed.

Lemma accept_ring_follows_flag_witness :
  ∃ s', set_isAcceptNode 1%positive true (oneNode Select true 73 124) = Some (tt, s')
        ∧ isAcceptNodeOf (nodes s') 1%positive = Some true
        ∧ acceptRingVisibleOf (nodes s') 1%positive = Some (VBool true).
Proof.
  destruct (accept_ring_follows_flag (oneNode Select true 73 124) 1%positive true)
    as [(s' & E & Hflag & Hring & _) _].
  - rendered_computed.
  - by exists s'.
Defined.

(** ** Fitting the font size *)

Lemma ltb_false (a b : Q) : ltb a b = false ↔ (b <= a)%Q.
Proof. unfold ltb. rewrite negb_false_iff. apply Qle_bool_iff. Qed.

Lemma ltb_true (a b : Q) : ltb a b = true ↔ (a < b)%Q.
Proof.
  unfold ltb. rewrite negb_true_iff. split.
  - intros H. apply Qnot_le_lt. intros Hle. apply Qle_bool_iff in Hle. congruence.
  - intros H. destruct (Qle_bool b a) eqn:E; [|done].
    apply Qle_bool_iff in E. lra.
Qed.

Lemma inject_Z_of_nat_S (k : nat) :
  (inject_Z (Z.of_nat (S k)) == inject_Z (Z.of_nat k) + 1)%Q.
Proof. rewrite Nat2Z.inj_succ, <- Z.add_1_r, inject_Z_plus. reflexivity. Qed.

Lemma fuel_enough (q : Q) : (q <= inject_Z (Z.of_nat (Z.to_nat (Qceiling q))))%Q.
Proof.
  eapply Qle_trans; [apply Qle_ceiling|]. rewrite <- Zle_Qle. lia.
Qed.

Section FontFitLoops.

Variable measure : string → Q → Q.
Variable text : string.

Local Abbreviation tooWide := (tooWide measure text).
Local Abbreviation tooNarrow := (tooNarrow measure text).

Lemma shrinkFont_exit (fuel : nat) (fontSize : Q) :
  (fontSize - 10 <= inject_Z (Z.of_nat fuel))%Q →
  tooWide (shrinkFont measure fuel text fontSize) = false.
Proof.
  revert fontSize. induction fuel as [|fuel IH]; intros fs Hfuel; cbn [shrinkFont].
  - unfold tooWide. apply andb_false_iff. right. apply gtb_false.
    change (inject_Z (Z.of_nat 0)) with 0%Q in Hfuel. lra.
  - fold (tooWide fs). destruct (tooWide fs) eqn:E; [|done].
    apply IH. rewrite inject_Z_of_nat_S in Hfuel. lra.
Qed.

Lemma shrinkFont_steps (fuel : nat) (fontSize : Q) :
  ∃ k : nat, (shrinkFont measure fuel text fontSize == fontSize - inject_Z (Z.of_nat k))%Q
             ∧ ((9 < fontSize)%Q → (9 < shrinkFont measure fuel text fontSize)%Q).
Proof.
  revert fontSize. induction fuel as [|fuel IH]; intros fs; cbn [shrinkFont].
  - exists 0%nat. change (inject_Z (Z.of_nat 0)) with 0%Q. split; [lra|done].
  - fold (tooWide fs). destruct (tooWide fs) eqn:E.
    + destruct (IH (fs - 1)%Q) as (k & Hk & Hlow). exists (S k).
      rewrite inject_Z_of_nat_S. split; [lra|]. intros _. apply Hlow.
      apply andb_true_iff in E as [_ E]. apply gtb_true in E. lra.
    + exists 0%nat. change (inject_Z (Z.of_nat 0)) with 0%Q. split; [lra|done].
Qed.

Lemma growFont_exit (fuel : nat) (fontSize : Q) :
  (15 - fontSize <= inject_Z (Z.of_nat fuel))%Q →
  tooNarrow (growFont measure fuel text fontSize) = false.
Proof.
  revert fontSize. induction fuel as [|fuel IH]; intros fs Hfuel; cbn [growFont].
  - unfold tooNarrow. apply andb_false_iff. right. apply ltb_false.
    change (inject_Z (Z.of_nat 0)) with 0%Q in Hfuel. lra.
  - fold (tooNarrow fs). destruct (tooNarrow fs) eqn:E; [|done].
    apply IH. rewrite inject_Z_of_nat_S in Hfuel. lra.
Qed.

Lemma growFont_steps (fuel : nat) (fontSize : Q) :
  ∃ k : nat, (growFont measure fuel text fontSize == fontSize + inject_Z (Z.of_nat k))%Q
             ∧ ((fontSize < 16)%Q → (growFont measure fuel text fontSize < 16)%Q).
Proof.
  revert fontSize. induction fuel as [|fuel IH]; intros fs; cbn [growFont].
  - exists 0%nat. change (inject_Z (Z.of_nat 0)) with 0%Q. split; [lra|done].
  - fold (tooNarrow fs). destruct (tooNarrow fs) eqn:E.
    + destruct (IH (fs + 1)%Q) as (k & Hk & Hhigh). exists (S k).
      rewrite inject_Z_of_nat_S. split; [lra|]. intros _. apply Hhigh.
      apply andb_true_iff in E as [_ E]. apply ltb_true in E. lra.
    + exists 0%nat. change (inject_Z (Z.of_nat 0)) with 0%Q. split; [lra|done].
Qed.

Lemma fitFontSize_range (fontSize : Q) (z : Z) :
  (fontSize == inject_Z z)%Q → (10 <= z <= 15)%Z →
  ∃ z' : Z, (fitFontSize measure text fontSize == inject_Z z')%Q ∧ (10 <= z' <= 15)%Z.
Proof.
  intros Hz Hrange. unfold fitFontSize. fold (tooWide fontSize) (tooNarrow fontSize).
  assert (10 <= fontSize <= 15)%Q as Hq.
  { rewrite Hz. change 10%Q with (inject_Z 10). change 15%Q with (inject_Z 15).
    rewrite <- !Zle_Qle. lia. }
  destruct (tooWide fontSize) eqn:Ew; [|destruct (tooNarrow fontSize) eqn:En].
  - destruct (shrinkFont_steps (Z.to_nat (Qceiling (fontSize - 10))) fontSize)
      as (k & Hk & Hlow).
    exists (z - Z.of_nat k)%Z.
    assert (shrinkFont measure (Z.to_nat (Qceiling (fontSize - 10))) text fontSize
            == inject_Z (z - Z.of_nat k))%Q as Hint.
    { rewrite Hk, Hz. unfold Zminus. rewrite inject_Z_plus, inject_Z_opp. lra. }
    split; [exact Hint|].
    assert (9 < inject_Z (z - Z.of_nat k))%Q as H9 by (rewrite <- Hint; apply Hlow; lra).
    change 9%Q with (inject_Z 9) in H9. rewrite <- Zlt_Qlt in H9. lia.
  - destruct (growFont_steps (Z.to_nat (Qceiling (15 - fontSize))) fontSize)
      as (k & Hk & Hhigh).
    exists (z + Z.of_nat k)%Z.
    assert (growFont measure (Z.to_nat (Qceiling (15 - fontSize))) text fontSize
            == inject_Z (z + Z.of_nat k))%Q as Hint.
    { rewrite Hk, Hz, inject_Z_plus. lra. }
    split; [exact Hint|].
    assert (inject_Z (z + Z.of_nat k) < 16)%Q as H16 by (rewrite <- Hint; apply Hhigh; lra).
    change 16%Q with (inject_Z 16) in H16. rewrite <- Zlt_Qlt in H16. lia.
  - by exists z.
Qed.

(** X4.  The font size [adjustFontSize] settles on, for a label whose font
    size is a whole number from 10 to 15 and whatever the widths Konva
    measures: it is again a whole number from 10 to 15.  When the text is
    too wide at a size above 10 the size only goes down, until the text
    fits or the size is 10; otherwise, when the text is narrower than the
    limit at a size below 15, the size only goes up, until the text is no
    longer narrower or the size is 15; otherwise the size is kept.  Both
    loops end. *)
Theorem fitFontSize_settles (fontSize : Q) (z : Z) :
  (fontSize == inject_Z z)%Q → (10 <= z <= 15)%Z →
  (∃ z' : Z, (fitFontSize measure text fontSize == inject_Z z')%Q ∧ (10 <= z' <= 15)%Z) ∧
  (tooWide fontSize = true →
   (fitFontSize measure text fontSize <= fontSize)%Q
   ∧ ((measure text (fitFontSize measure text fontSize) <= maxTextWidth)%Q
      ∨ (fitFontSize measure text fontSize == 10)%Q)) ∧
  (tooWide fontSize = false → tooNarrow fontSize = true →
   (fontSize <= fitFontSize measure text fontSize)%Q
   ∧ ((maxTextWidth <= measure text (fitFontSize measure text fontSize))%Q
      ∨ (fitFontSize measure text fontSize == 15)%Q)) ∧
  (tooWide fontSize = false → tooNarrow fontSize = false →
   fitFontSize measure text fontSize = fontSize).
Proof.
  intros Hz Hrange.
  destruct (fitFontSize_range fontSize z Hz Hrange) as (z' & Hz' & Hrange').
  split; [by exists z'|]. revert Hz'.
  unfold fitFontSize. fold (tooWide fontSize) (tooNarrow fontSize).
  destruct (tooWide fontSize) eqn:Ew; [|destruct (tooNarrow fontSize) eqn:En]; intros Hz'.
  - split; [|split; [done|done]]. intros _.
    set (fuel := Z.to_nat (Qceiling (fontSize - 10))) in *.
    pose proof (shrinkFont_exit fuel fontSize (fuel_enough _)) as Hexit.
    destruct (shrinkFont_steps fuel fontSize) as (k & Hk & _).
    assert (0 <= inject_Z (Z.of_nat k))%Q as Hk0.
    { change 0%Q with (inject_Z 0). rewrite <- Zle_Qle. lia. }
    split; [lra|].
    unfold tooWide in Hexit. apply andb_false_iff in Hexit as [H|H]; apply gtb_false in H.
    + by left.
    + right. apply Qle_antisym; [done|]. rewrite Hz'. change 10%Q with (inject_Z 10).
      rewrite <- Zle_Qle. lia.
  - split; [done|]. split; [|done]. intros _ _.
    set (fuel := Z.to_nat (Qceiling (15 - fontSize))) in *.
    pose proof (growFont_exit fuel fontSize (fuel_enough _)) as Hexit.
    destruct (growFont_steps fuel fontSize) as (k & Hk & _).
    assert (0 <= inject_Z (Z.of_nat k))%Q as Hk0.
    { change 0%Q with (inject_Z 0). rewrite <- Zle_Qle. lia. }
    split; [lra|].
    unfold tooNarrow in Hexit. apply andb_false_iff in Hexit as [H|H]; apply ltb_false in H.
    + by left.
    + right. apply Qle_antisym; [|done]. rewrite Hz'. change 15%Q with (inject_Z 15).
      rewrite <- Zle_Qle. lia.
  - split; [done|]. split; [done|]. done.
Qed.

End FontFitLoops.

Lemma fitFontSize_settles_witness :
  ∃ z' : Z, (fitFontSize exampleMeasure "q_accept" 15 == inject_Z z')%Q ∧ (10 <= z' <= 15)%Z.
Proof.
  destruct (fitFontSize_settles exampleMeasure "q_accept" 15 15) as [H _].
  - reflexivity.
  - lia.
  - exact H.
Defined.

(** ** The label *)

Lemma rendered_label (m : gmap ref NodeWrapper) (r : ref) :
  rendered m (NodeObject r) →
  ∃ n l g, m !! r = Some n ∧ nodeLabel n = Some l ∧ nodeGroup n = Some g
           ∧ hasKonvaObjects n = true.
Proof.
  intros (n & Hn & Hk). pose proof Hk as (_ & _ & [l Hl] & [g Hg])%hasKonvaObjects_iff.
  by exists n, l, g.
Qed.

Lemma getFontSize_setAttr (k : string) (v : AttrValue) (sh : Shape) :
  k ≠ "fontSize" → getFontSize (attrs (setAttr k v sh)) = getFontSize (attrs sh).
Proof. intros H. unfold getFontSize, setAttr. cbn. by rewrite lookup_insert_ne. Qed.

(** X5.  On a node with its Konva objects, [set labelText(value)] succeeds;
    afterwards the getter returns [value], the label shape shows [value],
    its font size is the one [adjustFontSize] fits to [value] from the size
    it had, and the serialized form has the new label with the identifier
    and the position unchanged.  No other node changes. *)
Theorem set_labelText_updates_label (measure : string → Q → Q) (s : State) (this : ref)
    (value : string) :
  rendered (nodes s) (NodeObject this) →
  ∃ s', set_labelText measure this value s = Some (tt, s')
        ∧ get_labelText this s' = Some (value, s')
        ∧ labelShownOf (nodes s') this = Some (VStr value)
        ∧ fontSizeOf (nodes s') this = fitFontSize measure value (fontSizeOf (nodes s) this)
        ∧ (∃ d d', toSerializable this s = Some (d, s)
                   ∧ toSerializable this s' = Some (d', s')
                   ∧ s_label d' = value ∧ s_id d' = s_id d
                   ∧ s_x d' = s_x d ∧ s_y d' = s_y d)
        ∧ rendered (nodes s') (NodeObject this)
        ∧ ∀ r, r ≠ this → nodes s' !! r = nodes s !! r.
Proof.
  intros Hthis. destruct (rendered_label _ _ Hthis) as (n & l & g & Hn & Hl & Hg & Hk).
  eexists. split; [apply set_labelText_spec; by exists n, l|].
  cbn [nodes set_nodes].
  split.
  { unfold get_labelText. rewrite bind_run.
    erewrite readNode_run by (cbn [nodes set_nodes]; apply lookup_insert_eq). reflexivity. }
  split.
  { unfold labelShownOf. rewrite lookup_insert_eq. cbn.
    rewrite !lookup_insert_ne by done. apply lookup_insert_eq. }
  split.
  { unfold fontSizeOf. rewrite lookup_insert_eq, Hn. cbn. rewrite Hl. cbn.
    unfold getFontSize at 1. cbn. rewrite !lookup_insert_ne by done.
    rewrite lookup_insert_eq. f_equal. unfold getFontSize. by rewrite lookup_insert_ne. }
  split.
  { eexists _, _. split; [apply (toSerializable_run _ _ _ _ Hn Hg)|].
    split; [apply (toSerializable_run _ _ (labelSet measure value l n) g);
            [cbn [nodes set_nodes]; apply lookup_insert_eq|exact Hg]|].
    done. }
  split.
  { eexists. split; [apply lookup_insert_eq|].
    apply hasKonvaObjects_iff in Hk as (? & ? & ? & ?). apply hasKonvaObjects_iff. cbn. eauto. }
  intros r Hr. by rewrite lookup_insert_ne.
Qed.

Lemma set_labelText_updates_label_witness :
  ∃ s', set_labelText exampleMeasure 1%positive "q_accept" (oneNode Select true 73 124)
        = Some (tt, s')
        ∧ labelShownOf (nodes s') 1%positive = Some (VStr "q_accept").
Proof.
  destruct (set_labelText_updates_label exampleMeasure (oneNode Select true 73 124) 1%positive
              "q_accept") as (s' & E & _ & H & _).
  - rendered_computed.
  - by exists s'.
Defined.

(** ** Building the Konva objects *)

(** X6.  [createKonvaObjects(x, y)] on any node of the store, whether or
    not it had Konva objects before, leaves it with all four objects, at
    position [(x, y)], with exactly the background, the accept ring and the
    label as children of the group, in that order; the background has the
    unselected fill, stroke and stroke width of the colour scheme and no
    shadow setting, the label has font size 15, the label text and the ring
    visibility agree with the fields.  The identifier, the label text, the
    accept flag, [lastPos] and [lastSnappedPos] are kept, no call leaves the
    module and no other node changes. *)
Theorem createKonvaObjects_builds_node (s : State) (this : ref) (n : NodeWrapper) (px py : Q) :
  nodes s !! this = Some n →
  ∃ s' n', createKonvaObjects this px py s = Some (tt, s')
           ∧ nodes s' !! this = Some n'
           ∧ hasKonvaObjects n' = true
           ∧ inSync n'
           ∧ positionOf (nodes s') this = mkVector2d px py
           ∧ childrenOf (nodes s') this = [BackgroundChild; AcceptCircleChild; LabelChild]
           ∧ backgroundAttrOf "fill" (nodes s') this = Some (VStr (nodeFill (colorScheme s)))
           ∧ backgroundAttrOf "stroke" (nodes s') this
             = Some (VStr (nodeStrokeColor (colorScheme s)))
           ∧ backgroundAttrOf "strokeWidth" (nodes s') this = Some (VNum StrokeWidth)
           ∧ shadowEnabledOf (nodes s') this = None
           ∧ fontSizeOf (nodes s') this = 15%Q
           ∧ _id n' = _id n ∧ _labelText n' = _labelText n
           ∧ _isAcceptNode n' = _isAcceptNode n
           ∧ lastPos n' = lastPos n ∧ lastSnappedPos n' = lastSnappedPos n
           ∧ calls s' = calls s
           ∧ ∀ r, r ≠ this → nodes s' !! r = nodes s !! r.
Proof.
  intros Hn. unfold createKonvaObjects. rewrite !bind_run, (readNode_run _ _ _ Hn).
  cbv beta iota. cbn [gets]. cbv beta iota zeta. unfold writeNode. cbn [modify].
  eexists _, _. split; [reflexivity|]. cbn [nodes set_nodes calls set_calls].
  split; [apply lookup_insert_eq|].
  split; [reflexivity|].
  split; [split; intros sh [= <-]; reflexivity|].
  unfold positionOf, childrenOf, backgroundAttrOf, shadowEnabledOf, fontSizeOf.
  rewrite !lookup_insert_eq.
  repeat (split; [reflexivity|]).
  intros r Hr. by rewrite lookup_insert_ne.
Qed.

Lemma createKonvaObjects_builds_node_witness :
  ∃ s' n', createKonvaObjects 1%positive 10 20 (newNode Select true) = Some (tt, s')
           ∧ nodes s' !! 1%positive = Some n'
           ∧ positionOf (nodes s') 1%positive = mkVector2d 10 20.
Proof.
  destruct (createKonvaObjects_builds_node (newNode Select true) 1%positive
              (mkNodeWrapper None None None None None origin false "q0" "uuid-1") 10 20)
    as (s' & n' & E & Hn' & _ & _ & Hpos & _).
  - computed.
  - by exists s', n'.
Defined.

(** ** What is drawn agrees with the fields *)

Lemma inSyncb_inSync (n : NodeWrapper) : inSyncb n = true → inSync n.
Proof.
  unfold inSyncb, inSync. intros [Hl Hc]%andb_true_iff. split.
  - intros l E. rewrite E in Hl. destruct (attrs l !! "text") as [[| |t|]|]; try done.
    apply String.eqb_eq in Hl. by subst.
  - intros c E. rewrite E in Hc. destruct (attrs c !! "visible") as [[|b| |]|]; try done.
    apply Bool.eqb_prop in Hc. by subst.
Qed.

Lemma allInSyncb_inSync (m : gmap ref NodeWrapper) :
  allInSyncb m = true → ∀ r n, m !! r = Some n → inSync n.
Proof.
  unfold allInSyncb. rewrite forallb_forall. intros H r n Hn.
  apply inSyncb_inSync, (H (r, n)), list_elem_of_In, elem_of_map_to_list, Hn.
Qed.

Lemma inSync_set_nodeBackground n v : inSync n → inSync (set_nodeBackground v n).
Proof. done. Qed.

Lemma inSync_set_nodeGroup n v : inSync n → inSync (set_nodeGroup v n).
Proof. done. Qed.

Lemma inSync_set_lastPos n v : inSync n → inSync (set_lastPos v n).
Proof. done. Qed.

Lemma inSync_set_lastSnappedPos n v : inSync n → inSync (set_lastSnappedPos v n).
Proof. done. Qed.

Lemma inSync_acceptSet n c value : inSync n → inSync (acceptSet value c n).
Proof.
  intros [Hl Hc]. split; cbn.
  - exact Hl.
  - intros c' [= <-]. cbn. apply lookup_insert_eq.
Qed.

Lemma inSync_fontFitted measure n l :
  nodeLabel n = Some l → inSync n →
  inSync (set_nodeLabel (Some (fontFitted measure (_labelText n) l)) n).
Proof.
  intros E [Hl Hc]. split; cbn.
  - intros l' [= <-]. cbn. rewrite !lookup_insert_ne by done. by apply Hl.
  - exact Hc.
Qed.

Lemma inSync_labelSet measure n l value : inSync n → inSync (labelSet measure value l n).
Proof.
  intros [Hl Hc]. split; cbn.
  - intros l' [= <-]. cbn. rewrite !lookup_insert_ne by done. apply lookup_insert_eq.
  - exact Hc.
Qed.

Lemma createKonvaObjects_inSync (s s' : State) (this : ref) (px py : Q) :
  createKonvaObjects this px py s = Some (tt, s') →
  ∃ n n', nodes s !! this = Some n ∧ s' = set_nodes (<[this := n']> (nodes s)) s ∧ inSync n'.
Proof.
  unfold createKonvaObjects. rewrite bind_run. unfold readNode.
  destruct (nodes s !! this) as [n|]; [|done]. cbv beta iota. intros [= <-].
  eexists _, _. split; [done|]. split; [reflexivity|].
  split; intros sh [= <-]; reflexivity.
Qed.

Section InSync.

Variable measure : string → Q → Q.
Variable D : gset ref.

Local Abbreviation keeps := (keeps (λ _, inSync) D).

Ltac sync_side :=
  first [ by intros; apply inSync_set_nodeBackground
        | by intros; apply inSync_set_nodeGroup
        | by intros; apply inSync_set_lastPos
        | by intros; apply inSync_set_lastSnappedPos ].

Lemma keeps_inSync_invoke (r : ref) (m : Method) : keeps (invoke measure r m).
Proof.
  destruct m; cbn [invoke].
  - apply keeps_bind; [apply keeps_toSerializable|intros ?; apply keeps_ret].
  - intros s [] s' Hs _ (n & n' & Hn & -> & Hn')%createKonvaObjects_inSync.
    by apply (holds_insert _ _ s r n).
  - intros s [] s' Hs _ (n & l & Hn & Hl & ->)%adjustFontSize_spec.
    apply (holds_insert _ _ s r n); [done| |done].
    apply inSync_fontFitted; [done|]. by apply (proj2 Hs r).
  - apply keeps_select; sync_side.
  - apply keeps_deselect; sync_side.
  - apply keeps_bind; [apply keeps_get_isAcceptNode|intros ?; apply keeps_ret].
  - intros s [] s' Hs _ (n & c & Hn & Hc & ->)%set_isAcceptNode_spec.
    apply (holds_insert _ _ s r n); [done| |done].
    apply inSync_acceptSet. by apply (proj2 Hs r).
  - intros s [] s' Hs _ (n & c & Hn & Hc & ->)%toggleAcceptNode_spec.
    apply (holds_insert _ _ s r n); [done| |done].
    apply inSync_acceptSet. by apply (proj2 Hs r).
  - apply keeps_enableNewConnectionGlow; sync_side.
  - apply keeps_disableShadowEffects; sync_side.
  - apply keeps_enableDragDropShadow; sync_side.
  - apply keeps_setPosition; sync_side.
  - apply keeps_bind; [apply keeps_snapToGrid; sync_side|intros ?; apply keeps_ret].
  - apply keeps_bind; [apply keeps_get_labelText|intros ?; apply keeps_ret].
  - intros s [] s' Hs _ (n & l & Hn & Hl & ->)%set_labelText_spec.
    apply (holds_insert _ _ s r n); [done| |done].
    apply inSync_labelSet. by apply (proj2 Hs r).
  - unfold updateColorScheme. apply keeps_gets. intros cs.
    apply keeps_bind; [apply keeps_onBackground; sync_side|intros _].
    apply keeps_bind; [apply keeps_onBackground; sync_side|intros _].
    apply keeps_bind.
    + apply keeps_onAcceptCircle_with. intros n c Hc [Hl Hv]. split; cbn; [exact Hl|].
      intros c' [= <-]. cbn. rewrite lookup_insert_ne by done. by apply Hv.
    + intros _. apply keeps_onLabel_with. intros n l Hl [Ht Hv]. split; cbn; [|exact Hv].
      intros l' [= <-]. cbn. rewrite lookup_insert_ne by done. by apply Ht.
  - apply keeps_setErrorState; sync_side.
  - apply keeps_bind; [apply keeps_konvaObject|intros ?; apply keeps_ret].
  - apply keeps_deleteKonvaObjects; sync_side.
  - apply keeps_fire; sync_side.
Qed.

End InSync.

(** X7.  What is drawn keeps agreeing with the fields.  If in every node
    the label shape shows [_labelText] and the accept ring is visible
    exactly when [_isAcceptNode] is set, then the same holds after any
    sequence of public method calls and events that runs without an
    exception. *)
Theorem view_stays_in_sync (measure : string → Q → Q) (calls : list (ref * Method))
    (s s' : State) :
  invokeAll measure calls s = Some (tt, s') →
  (∀ r n, nodes s !! r = Some n → inSync n) →
  ∀ r n, nodes s' !! r = Some n → inSync n.
Proof.
  intros E Hs.
  assert (keeps (λ _, inSync) (dom (nodes s)) (invokeAll measure calls)) as K.
  { unfold invokeAll. apply keeps_forEach. intros [r m]. apply keeps_inSync_invoke. }
  apply (K s tt s'); [by split|done|exact E].
Qed.

Lemma view_stays_in_sync_witness :
  ∃ n, nodes (afterCalls exampleMeasure exampleCalls (oneNode Select true 73 124)) !! 1%positive
       = Some n ∧ inSync n.
Proof.
  destruct (nodes (afterCalls exampleMeasure exampleCalls (oneNode Select true 73 124))
              !! 1%positive) as [n|] eqn:E.
  - exists n. split; [reflexivity|].
    apply (view_stays_in_sync exampleMeasure exampleCalls (oneNode Select true 73 124)
             (afterCalls exampleMeasure exampleCalls (oneNode Select true 73 124)))
      with (r := 1%positive).
    + vm_compute. reflexivity.
    + apply allInSyncb_inSync. vm_compute. reflexivity.
    + exact E.
  - vm_compute in E. discriminate E.
Defined.

(** ** Before the Konva objects exist *)

Lemma headless_onBackground s this n f :
  nodes s !! this = Some n → headless n → onBackground this f s = None.
Proof.
  intros Hn (H & _). unfold onBackground. rewrite bind_run, (readNode_run _ _ _ Hn).
  cbv beta iota. by rewrite H.
Qed.

Lemma headless_onGroup s this n f :
  nodes s !! this = Some n → headless n → onGroup this f s = None.
Proof.
  intros Hn (_ & _ & _ & H). unfold onGroup. rewrite bind_run, (readNode_run _ _ _ Hn).
  cbv beta iota. by rewrite H.
Qed.

Lemma headless_onAcceptCircle s this n f :
  nodes s !! this = Some n → headless n → onAcceptCircle this f s = None.
Proof.
  intros Hn (_ & H & _). unfold onAcceptCircle. rewrite bind_run, (readNode_run _ _ _ Hn).
  cbv beta iota. by rewrite H.
Qed.

Lemma headless_onLabel s this n f :
  nodes s !! this = Some n → headless n → onLabel this f s = None.
Proof.
  intros Hn (_ & _ & H & _). unfold onLabel. rewrite bind_run, (readNode_run _ _ _ Hn).
  cbv beta iota. by rewrite H.
Qed.

Lemma headless_nodePosition s this n :
  nodes s !! this = Some n → headless n → nodePosition this s = None.
Proof.
  intros Hn (_ & _ & _ & H). unfold nodePosition. rewrite bind_run, (readNode_run _ _ _ Hn).
  cbv beta iota. by rewrite H.
Qed.

(** X8.  A node as the constructor leaves it, before [createKonvaObjects],
    has no Konva objects: every method that uses them ([toSerializable],
    [adjustFontSize], [select], [deselect], the setter of [isAcceptNode],
    [toggleAcceptNode], the three shadow methods, [setPosition],
    [snapToGrid], the setter of [labelText], [updateColorScheme],
    [setErrorState], [deleteKonvaObjects] and the drag-start handler) throws.
    The getters of [id], [labelText] and [isAcceptNode] work, and
    [createKonvaObjects] succeeds and gives the node its objects. *)
Theorem methods_need_konva_objects (measure : string → Q → Q) (s : State) (this : ref)
    (n : NodeWrapper) (m : Method) :
  nodes s !! this = Some n → headless n →
  (needsKonvaObjects m = true → invoke measure this m s = None) ∧
  get_id this s = Some (_id n, s) ∧
  get_labelText this s = Some (_labelText n, s) ∧
  get_isAcceptNode this s = Some (_isAcceptNode n, s) ∧
  ∀ px py, ∃ s' n', createKonvaObjects this px py s = Some (tt, s')
                    ∧ nodes s' !! this = Some n' ∧ hasKonvaObjects n' = true.
Proof.
  intros Hn Hh. split; [|split; [|split; [|split]]].
  - intros Hneeds.
    destruct m as [| | | | | | | | | | | | | | | | | | |[| | |ev| |]]; try discriminate Hneeds;
      clear Hneeds; cbn [invoke].
    + unfold toSerializable. rewrite !bind_run, (readNode_run _ _ _ Hn). cbv beta iota.
      destruct Hh as (_ & _ & _ & ->). reflexivity.
    + unfold adjustFontSize. rewrite !bind_run, (readNode_run _ _ _ Hn). cbv beta iota.
      destruct Hh as (_ & _ & -> & _). reflexivity.
    + unfold select. mstep. by apply (headless_onBackground _ _ n).
    + unfold deselect. mstep. by apply (headless_onBackground _ _ n).
    + unfold set_isAcceptNode. rewrite bind_run, (readNode_run _ _ _ Hn). cbv beta iota.
      rewrite bind_run. unfold writeNode. cbn [modify]. cbv beta iota.
      rewrite bind_run.
      erewrite readNode_run by (cbn [nodes set_nodes]; apply lookup_insert_eq).
      cbv beta iota.
      assert (∀ f, onAcceptCircle this f
                     (set_nodes (<[this := set__isAcceptNode value n]> (nodes s)) s) = None) as E.
      { intros f. apply (headless_onAcceptCircle _ _ (set__isAcceptNode value n));
          [cbn [nodes set_nodes]; apply lookup_insert_eq|exact Hh]. }
      destruct (_isAcceptNode _); apply E.
    + unfold toggleAcceptNode. rewrite bind_run, (readNode_run _ _ _ Hn). cbv beta iota.
      unfold set_isAcceptNode. rewrite bind_run, (readNode_run _ _ _ Hn). cbv beta iota.
      rewrite bind_run. unfold writeNode. cbn [modify]. cbv beta iota.
      rewrite bind_run.
      erewrite readNode_run by (cbn [nodes set_nodes]; apply lookup_insert_eq).
      cbv beta iota.
      assert (∀ f, onAcceptCircle this f
                     (set_nodes (<[this := set__isAcceptNode (negb (_isAcceptNode n)) n]>
                                   (nodes s)) s) = None) as E.
      { intros f. apply (headless_onAcceptCircle _ _
                           (set__isAcceptNode (negb (_isAcceptNode n)) n));
          [cbn [nodes set_nodes]; apply lookup_insert_eq|exact Hh]. }
      destruct (_isAcceptNode _); apply E.
    + unfold enableNewConnectionGlow. mstep. by apply (headless_onBackground _ _ n).
    + by apply (headless_onBackground _ _ n).
    + unfold enableDragDropShadow. mstep. by apply (headless_onBackground _ _ n).
    + by apply (headless_onGroup _ _ n).
    + rewrite bind_run. unfold snapToGrid. rewrite bind_run.
      by rewrite (headless_nodePosition _ _ n).
    + unfold set_labelText. rewrite bind_run, (readNode_run _ _ _ Hn). cbv beta iota.
      rewrite bind_run. unfold writeNode. cbn [modify]. cbv beta iota.
      rewrite bind_run.
      erewrite readNode_run by (cbn [nodes set_nodes]; apply lookup_insert_eq).
      cbv beta iota. rewrite bind_run.
      rewrite (headless_onLabel _ _ (set__labelText value n));
        [done|cbn [nodes set_nodes]; apply lookup_insert_eq|exact Hh].
    + unfold updateColorScheme. mstep. rewrite bind_run.
      by rewrite (headless_onBackground _ _ n).
    + unfold setErrorState. rewrite bind_run, (readNode_run _ _ _ Hn). cbv beta iota.
      rewrite bind_run. by rewrite (headless_onGroup _ _ n).
    + by apply (headless_onGroup _ _ n).
    + cbn [fire]. unfold onDragStart. rewrite bind_run.
      by rewrite (headless_nodePosition _ _ n).
  - unfold get_id. by rewrite bind_run, (readNode_run _ _ _ Hn).
  - unfold get_labelText. by rewrite bind_run, (readNode_run _ _ _ Hn).
  - unfold get_isAcceptNode. by rewrite bind_run, (readNode_run _ _ _ Hn).
  - intros px py. unfold createKonvaObjects. rewrite !bind_run, (readNode_run _ _ _ Hn).
    cbv beta iota. cbn [gets]. cbv beta iota zeta. unfold writeNode. cbn [modify].
    eexists _, _. split; [reflexivity|]. cbn [nodes set_nodes].
    split; [apply lookup_insert_eq|reflexivity].
Qed.

Lemma methods_need_konva_objects_witness :
  invoke exampleMeasure 1%positive (call_setPosition (mkVector2d 10 20)) (newNode Select true)
  = None.
Proof.
  destruct (methods_need_konva_objects exampleMeasure (newNode Select true) 1%positive
              (mkNodeWrapper None None None None None origin false "q0" "uuid-1")
              (call_setPosition (mkVector2d 10 20))) as [H _].
  - computed.
  - by repeat split.
  - by apply H.
Defined.

(** ** Dragging a group of selected nodes *)

Lemma hasKonvaObjects_translateNode dx dy n :
  hasKonvaObjects (translateNode dx dy n) = hasKonvaObjects n.
Proof. unfold hasKonvaObjects, translateNode. cbn. by destruct (nodeGroup n). Qed.

Lemma alterNodes_lookup_NoDup (f : NodeWrapper → NodeWrapper) (l : list SelectableObject)
    (m : gmap ref NodeWrapper) (r : ref) :
  NoDup l →
  alterNodes f l m !! r = if decide (NodeObject r ∈ l) then f <$> m !! r else m !! r.
Proof.
  revert m. induction l as [|obj l IH]; intros m Hl.
  - cbn. rewrite decide_False; [done|]. apply not_elem_of_nil.
  - apply NoDup_cons in Hl as [Hobj Hl].
    cbn [alterNodes foldl]. fold (alterNodes f l (alterObject f m obj)). rewrite IH by done.
    destruct obj as [r'|t]; cbn [alterObject].
    + destruct (decide (r' = r)) as [->|Hne].
      * rewrite lookup_alter_eq.
        rewrite (decide_True (P := NodeObject r ∈ NodeObject r :: l))
          by (apply elem_of_cons; by left).
        by rewrite decide_False.
      * rewrite lookup_alter_ne by done.
        apply decide_ext. symmetry. by apply elem_of_cons_node.
    + apply decide_ext. symmetry. apply elem_of_cons_transition.
Qed.

Lemma moveCalls_elem (l : list SelectableObject) (c : Call) :
  c ∈ moveCalls l ↔ ∃ r, c = fire_move_call r ∧ NodeObject r ∈ l.
Proof.
  induction l as [|[r'|t] l IH]; cbn [moveCalls].
  - split; [by intros ?%elem_of_nil|]. by intros (? & _ & ?%elem_of_nil).
  - rewrite elem_of_app, IH, list_elem_of_singleton. split.
    + intros [(r & -> & Hr)| ->].
      * exists r. split; [done|]. by right.
      * exists r'. split; [done|]. by left.
    + intros (r & -> & [E|Hr]%elem_of_cons).
      * right. congruence.
      * left. by exists r.
  - rewrite IH. split.
    + intros (r & -> & Hr). exists r. split; [done|]. by right.
    + intros (r & -> & [E|Hr]%elem_of_cons); [done|]. by exists r.
Qed.

Lemma fireMove_run (s : State) (r : ref) (n : NodeWrapper) (g : Group) :
  nodes s !! r = Some n → nodeGroup n = Some g →
  fireMove r s = Some (tt, set_calls (fire_move_call r :: calls s) s).
Proof.
  intros Hn Hg. unfold fireMove, konvaObject.
  rewrite !bind_run, (readNode_run _ _ _ Hn). cbv beta iota. cbn [mret M_ret].
  rewrite Hg. reflexivity.
Qed.

Lemma dragOthers_run (dx dy : Q) (l : list SelectableObject) (s : State) :
  Forall (rendered (nodes s)) l →
  forEach (λ obj, match obj with
                  | NodeObject r =>
                      p ← nodePosition r;
                      _ ← setPosition r (mkVector2d (x p + dx) (y p + dy));
                      fireMove r
                  | TransitionObject _ => mret tt
                  end) l s
  = Some (tt, set_calls (moveCalls l ++ calls s)
                (set_nodes (alterNodes (translateNode dx dy) l (nodes s)) s)).
Proof.
  revert s. induction l as [|obj l IH]; intros s Hl.
  - destruct s; reflexivity.
  - apply Forall_cons in Hl as [Hobj Hl]. cbn [forEach]. rewrite bind_run.
    destruct obj as [r|t].
    + destruct Hobj as (n & Hn & Hk). destruct (hasKonvaObjects_group _ Hk) as [g Hg].
      rewrite bind_run, (nodePosition_run _ _ _ _ Hn Hg). cbv beta iota.
      unfold setPosition. rewrite bind_run, (onGroup_run _ _ _ _ _ Hn Hg). cbv beta iota.
      erewrite fireMove_run; [|cbn [nodes set_nodes]; apply lookup_insert_eq|reflexivity].
      cbn [nodes set_nodes set_calls calls].
      replace (set_nodeGroup
                 (Some (setGroupPosition (mkVector2d (x (position g) + dx) (y (position g) + dy))
                          g)) n)
        with (translateNode dx dy n) by (unfold translateNode; by rewrite Hg).
      rewrite (insert_alter_Some (translateNode dx dy) _ _ _ Hn). rewrite IH.
      * cbn [moveCalls alterObject alterNodes foldl nodes set_nodes set_calls calls].
        rewrite <- app_assoc. reflexivity.
      * cbn [nodes set_nodes set_calls].
        eapply Forall_impl; [exact Hl|]. intros obj Hr.
        apply (rendered_alterObject (translateNode dx dy) (hasKonvaObjects_translateNode dx dy)
                 _ _ (NodeObject r) Hr).
    + cbn [mret M_ret]. rewrite IH by done. reflexivity.
Qed.

Lemma positionOf_translateNode dx dy (m : gmap ref NodeWrapper) (r : ref) :
  rendered m (NodeObject r) →
  from_option (λ n, from_option position origin (nodeGroup n)) origin
    (translateNode dx dy <$> m !! r)
  = translate (positionOf m r) dx dy.
Proof.
  intros (n & g & Hn & _ & Hg & Hpos)%rendered_positionOf. rewrite Hpos, Hn. cbn.
  rewrite Hg. cbn. apply position_setGroupPosition.
Qed.

Lemma elem_of_others (this r : ref) (l : list SelectableObject) :
  NodeObject r ∈ filter (λ i, negb (SelectableObject_eqb i (NodeObject this))) l
  ↔ NodeObject r ∈ l ∧ r ≠ this.
Proof.
  rewrite list_elem_of_filter, SelectableObject_eqb_node.
  destruct (decide (r = this)) as [->|Hne].
  - rewrite bool_decide_eq_true_2 by done. cbn. tauto.
  - rewrite bool_decide_eq_false_2 by done. cbn. tauto.
Qed.

(** X9.  A drag-move event on a node in Select mode moves every other
    selected node by the movement of the pointer, [(movementX, movementY)],
    and moves nothing else: the dragged node itself and the nodes that are
    not selected stay where they are.  It fires ['move'] on the dragged node
    and on every selected node, and makes no other call; the selection and
    the set of nodes are unchanged.  The statement is made for coordinates
    and movements that are multiples of one power of two [2 ^ - m], at most
    [2 ^ 51] steps from 0 (whole numbers up to [2 ^ 51] for [m = 0]): there
    the binary64 sums of the source are the exact sums. *)
Theorem group_drag_moves_selection (s : State) (this : ref) (ev : MouseEvent) (m : Z) :
  currentTool s = Select →
  rendered (nodes s) (NodeObject this) →
  Forall (rendered (nodes s)) (selectedObjects s) →
  NoDup (selectedObjects s) →
  (0 <= m <= 1000)%Z →
  dyadic m (movementX ev) → dyadic m (movementY ev) →
  (∀ r, NodeObject r ∈ selectedObjects s → dyadicPosition m (positionOf (nodes s) r)) →
  ∃ s', onDragMove this ev s = Some (tt, s')
        ∧ (∀ r, positionOf (nodes s') r
                = if decide (NodeObject r ∈ selectedObjects s ∧ r ≠ this)
                  then translate (positionOf (nodes s) r) (movementX ev) (movementY ev)
                  else positionOf (nodes s) r)
        ∧ (∀ r, NodeObject r ∈ selectedObjects s → r ≠ this →
                (binary64 (x (positionOf (nodes s) r) + movementX ev)
                 == x (positionOf (nodes s') r))%Q
                ∧ (binary64 (y (positionOf (nodes s) r) + movementY ev)
                   == y (positionOf (nodes s') r))%Q)
        ∧ (∀ r, fire_move_call r ∈ callsSince s s'
                ↔ r = this ∨ NodeObject r ∈ selectedObjects s)
        ∧ (∀ c, c ∈ callsSince s s' → ∃ r, c = fire_move_call r)
        ∧ selectedObjects s' = selectedObjects s
        ∧ dom (nodes s') = dom (nodes s).
Proof.
  intros Htool Hthis Hsel Hnodup Hm Hdx Hdy Hexact.
  set (others := filter (λ i, negb (SelectableObject_eqb i (NodeObject this)))
                   (selectedObjects s)).
  assert (Forall (rendered (nodes s)) others) as Hothers.
  { apply Forall_forall. intros obj [_ Hobj]%list_elem_of_filter.
    by apply (proj1 (Forall_forall _ _) Hsel). }
  assert (NoDup others) as Hnd by by apply NoDup_filter.
  destruct (rendered_positionOf _ _ Hthis) as (n & g & Hn & _ & Hg & _).
  unfold onDragMove. mstep. rewrite Htool. cbn [Tool_eqb]. cbv beta iota.
  rewrite bind_run, (fireMove_run _ _ _ _ Hn Hg). cbv beta iota. mstep.
  cbn [selectedObjects set_calls]. fold others.
  rewrite dragOthers_run by done.
  eexists. split; [reflexivity|].
  cbn [nodes set_nodes set_calls calls selectedObjects].
  assert (∀ r, positionOf (alterNodes (translateNode (movementX ev) (movementY ev)) others
                             (nodes s)) r
               = if decide (NodeObject r ∈ selectedObjects s ∧ r ≠ this)
                 then translate (positionOf (nodes s) r) (movementX ev) (movementY ev)
                 else positionOf (nodes s) r) as Hpos.
  { intros r. unfold positionOf at 1. rewrite alterNodes_lookup_NoDup by done.
    destruct (decide (NodeObject r ∈ others)) as [Hin|Hout].
    + rewrite decide_True by by apply elem_of_others.
      apply positionOf_translateNode.
      by apply (proj1 (Forall_forall _ _) Hothers (NodeObject r)).
    + rewrite decide_False; [done|]. intros H. by apply Hout, elem_of_others. }
  split; [exact Hpos|]. split; [|split; [|split; [|split]]].
  - intros r Hr Hne. rewrite Hpos, decide_True by done. cbn [x y translate].
    destruct (Hexact r Hr) as [Hx Hy].
    split; by apply (binary64_sum _ _ m).
  - intros r. rewrite (callsSince_app s _ (moveCalls others ++ [fire_move_call this])).
    2:{ cbn [calls set_calls set_nodes]. by rewrite <- app_assoc. }
    rewrite elem_of_app, list_elem_of_singleton, moveCalls_elem. split.
    + intros [(r' & [= <-] & Hr)|[= ->]]; [|by left].
      right. by apply elem_of_others in Hr as [? _].
    + intros [->|Hr]; [by right|].
      destruct (decide (r = this)) as [->|Hne]; [by right|].
      left. exists r. split; [done|]. by apply elem_of_others.
  - intros c. rewrite (callsSince_app s _ (moveCalls others ++ [fire_move_call this])).
    2:{ cbn [calls set_calls set_nodes]. by rewrite <- app_assoc. }
    rewrite elem_of_app, list_elem_of_singleton, moveCalls_elem.
    intros [(r & -> & _)| ->]; eauto.
  - reflexivity.
  - apply set_eq. intros r. rewrite !elem_of_dom.
    rewrite alterNodes_lookup_NoDup by done. case_decide; [|done].
    by rewrite fmap_is_Some.
Qed.

Lemma selected_dyadicPosition (m : Z) (s : State) :
  forallb (λ obj, match obj with
                  | NodeObject r => dyadicPositionb m (positionOf (nodes s) r)
                  | TransitionObject _ => true
                  end) (selectedObjects s) = true →
  ∀ r, NodeObject r ∈ selectedObjects s → dyadicPosition m (positionOf (nodes s) r).
Proof.
  intros H r Hr. apply dyadicPositionb_spec.
  apply list_elem_of_In in Hr. exact (proj1 (forallb_forall _ _) H _ Hr).
Qed.

Lemma group_drag_moves_selection_witness :
  ∃ s', onDragMove 1%positive (mkMouseEvent false 17 16 17 16) twoSelected = Some (tt, s')
        ∧ positionOf (nodes s') 2%positive
          = translate (positionOf (nodes twoSelected) 2%positive) 17 16
        ∧ positionOf (nodes s') 1%positive = positionOf (nodes twoSelected) 1%positive
        ∧ (binary64 (200 + 17) == x (positionOf (nodes s') 2%positive))%Q
        ∧ (binary64 (40 + 16) == y (positionOf (nodes s') 2%positive))%Q.
Proof.
  destruct (group_drag_moves_selection twoSelected 1%positive
              (mkMouseEvent false 17 16 17 16) 0)
    as (s' & E & Hpos & H64 & _).
  - computed.
  - rendered_computed.
  - selection_computed.
  - apply (NoDup_fmap_1 (λ obj, match obj with
                                | NodeObject r => Zpos r
                                | TransitionObject t => Z0
                                end)).
    vm_compute. apply NoDup_cons. split; [|apply NoDup_singleton].
    intros H%list_elem_of_singleton. discriminate H.
  - lia.
  - apply dyadicb_spec. computed.
  - apply dyadicb_spec. computed.
  - apply selected_dyadicPosition. computed.
  - exists s'. split; [exact E|]. split; [|split].
    + rewrite Hpos. apply decide_True. split; [selected_computed|intros [=]].
    + rewrite Hpos. apply decide_False. intros [_ H]. exact (H eq_refl).
    + apply (H64 2%positive); [selected_computed|intros [=]].
Defined.

(** ** Snapping, from any position *)

Lemma snapped_close (c : Q) : (Qabs (snapped c - c) <= 25)%Q.
Proof.
  pose proof (snapped_nearest c) as [H1 H2]. apply Qabs_Qle_condition. split; lra.
Qed.

Lemma sameData_snapNode (n : NodeWrapper) : sameData n (snapNode n).
Proof. unfold sameData. rewrite hasKonvaObjects_snapNode. by repeat split. Qed.

(** X10.  [snapToGrid] twice: a second call returns the same position as
    the first and changes no node, each coordinate moves by at most 25, no
    other node changes, and the node keeps its identifier, label, accept
    flag, shapes, background, children, [lastPos] and [lastSnappedPos].  The
    statement is made for a node whose coordinates are binary64 numbers of
    magnitude at most [2 ^ 51]: there the binary64 computation of the
    source gives the same position, in the first call and in the second. *)
Theorem snapToGrid_twice (s : State) (this : ref) :
  rendered (nodes s) (NodeObject this) →
  binary64Position (positionOf (nodes s) this) →
  ∃ p s1 s2, snapToGrid this s = Some (p, s1)
             ∧ snapToGrid this s1 = Some (p, s2)
             ∧ nodes s2 = nodes s1
             ∧ (snapped64 (x (positionOf (nodes s) this)) == x p)%Q
             ∧ (snapped64 (y (positionOf (nodes s) this)) == y p)%Q
             ∧ (snapped64 (x p) == x p)%Q
             ∧ (snapped64 (y p) == y p)%Q
             ∧ (Qabs (x p - x (positionOf (nodes s) this)) <= 25)%Q
             ∧ (Qabs (y p - y (positionOf (nodes s) this)) <= 25)%Q
             ∧ (∀ r, r ≠ this → nodes s1 !! r = nodes s !! r)
             ∧ (∀ n, nodes s !! this = Some n →
                     ∃ n1, nodes s1 !! this = Some n1 ∧ sameData n n1
                           ∧ nodeBackground n1 = nodeBackground n
                           ∧ lastPos n1 = lastPos n
                           ∧ lastSnappedPos n1 = lastSnappedPos n)
             ∧ childrenOf (nodes s1) this = childrenOf (nodes s) this.
Proof.
  intros Hthis [Hx Hy].
  destruct (rendered_positionOf _ _ Hthis) as (n & g & Hn & Hk & Hg & Hpos).
  rewrite Hpos in Hx, Hy.
  eexists _, _, _. split; [apply (snapToGrid_run _ _ _ _ Hn Hg)|].
  split.
  { erewrite snapToGrid_run;
      [|cbn [nodes set_nodes set_calls]; apply lookup_insert_eq
       |unfold snapNode; rewrite Hg; reflexivity].
    rewrite position_snapGroup, snappedPosition_idempotent. reflexivity. }
  cbn [nodes set_nodes set_calls].
  split.
  { rewrite insert_insert_eq. by rewrite snapNode_idempotent. }
  rewrite Hpos. cbn [x y snappedPosition].
  split; [by apply snapped64_snapped|]. split; [by apply snapped64_snapped|].
  split; [by apply snapped64_again|]. split; [by apply snapped64_again|].
  split; [apply snapped_close|]. split; [apply snapped_close|].
  split; [intros r Hr; by rewrite lookup_insert_ne|].
  split.
  { intros n0 Hn0. rewrite Hn in Hn0. injection Hn0 as <-. exists (snapNode n).
    split; [apply lookup_insert_eq|]. split; [apply sameData_snapNode|done]. }
  unfold childrenOf. rewrite lookup_insert_eq, Hn. cbn. by rewrite Hg.
Qed.

Lemma snapToGrid_twice_witness :
  ∃ p s1 s2, snapToGrid 1%positive (oneNode Select true 73 124) = Some (p, s1)
             ∧ snapToGrid 1%positive s1 = Some (p, s2)
             ∧ nodes s2 = nodes s1
             ∧ (snapped64 73 == x p)%Q ∧ (snapped64 124 == y p)%Q
             ∧ (snapped64 (x p) == x p)%Q ∧ (snapped64 (y p) == y p)%Q.
Proof.
  destruct (snapToGrid_twice (oneNode Select true 73 124) 1%positive)
    as (p & s1 & s2 & E1 & E2 & E & X1 & Y1 & X2 & Y2 & _).
  - rendered_computed.
  - apply binary64Positionb_spec. computed.
  - exists p, s1, s2. repeat split; assumption.
Defined.

Lemma involvesNode_iff (t : TransitionWrapper) (r : ref) :
  involvesNode t r = true ↔ sourceNode t = r ∨ destNode t = r.
Proof. unfold involvesNode. by rewrite orb_true_iff, !Pos.eqb_eq. Qed.

(** X11.  The calls [snapToGrid] makes: [updatePoints] once on each
    transition that has the node as its source or its destination, in the
    order of the list of transitions (a loop on the node is updated once),
    and then, when the group of the node is on a layer, [batchDraw] on that
    layer; nothing else, and no [batchDraw] for a group that is on no layer.
    The transitions, the selection and the set of nodes are unchanged. *)
Theorem snapToGrid_updates_incident_transitions (s : State) (this : ref) :
  rendered (nodes s) (NodeObject this) →
  ∃ p s', snapToGrid this s = Some (p, s')
          ∧ callsSince s s'
            = (if layerOf (nodes s) this then [batchDraw_call this] else [])
              ++ reverse (updatePoints_call
                            <$> filter (λ t, sourceNode t = this ∨ destNode t = this)
                                  (transitions s))
          ∧ layerOf (nodes s') this = layerOf (nodes s) this
          ∧ transitions s' = transitions s
          ∧ selectedObjects s' = selectedObjects s
          ∧ dom (nodes s') = dom (nodes s).
Proof.
  intros Hthis. destruct (rendered_positionOf _ _ Hthis) as (n & g & Hn & Hk & Hg & Hpos).
  eexists _, _. split; [apply (snapToGrid_run _ _ _ _ Hn Hg)|].
  split.
  { rewrite (callsSince_app s _ (snapCalls (nodes s) this (transitions s))) by reflexivity.
    unfold snapCalls, drawCalls, transitionCalls. do 3 f_equal.
    apply filter_ext_eq. intros t. apply involvesNode_iff. }
  split.
  { cbn [nodes set_nodes set_calls]. rewrite (insert_alter_Some snapNode _ _ _ Hn).
    apply layerOf_snap. }
  split; [reflexivity|]. split; [reflexivity|].
  cbn [nodes set_nodes set_calls]. rewrite dom_insert_L.
  apply subseteq_union_1_L, singleton_subseteq_l. by apply elem_of_dom_2 in Hn.
Qed.

Lemma snapToGrid_updates_incident_transitions_witness :
  (∃ p s', snapToGrid 1%positive (linkedOnLayer true) = Some (p, s')
           ∧ callsSince (linkedOnLayer true) s'
             = [batchDraw_call 1%positive;
                updatePoints_call (mkTransitionWrapper 1%positive 2%positive);
                updatePoints_call (mkTransitionWrapper 1%positive 1%positive)]) ∧
  (∃ p s', snapToGrid 2%positive (linkedOnLayer true) = Some (p, s')
           ∧ callsSince (linkedOnLayer true) s'
             = [updatePoints_call (mkTransitionWrapper 2%positive 2%positive);
                updatePoints_call (mkTransitionWrapper 1%positive 2%positive)]).
Proof.
  split.
  - destruct (snapToGrid_updates_incident_transitions (linkedOnLayer true) 1%positive)
      as (p & s' & E & H & _).
    + rendered_computed.
    + exists p, s'. split; [exact E|]. rewrite H. vm_compute. reflexivity.
  - destruct (snapToGrid_updates_incident_transitions (linkedOnLayer true) 2%positive)
      as (p & s' & E & H & _).
    + rendered_computed.
    + exists p, s'. split; [exact E|]. rewrite H. vm_compute. reflexivity.
Defined.

(** ** The glow of the node a transition is dragged towards *)

Lemma rendered_background (m : gmap ref NodeWrapper) (r : ref) :
  rendered m (NodeObject r) →
  ∃ n bg, m !! r = Some n ∧ nodeBackground n = Some bg ∧ hasKonvaObjects n = true.
Proof.
  intros (n & Hn & Hk). destruct (hasKonvaObjects_background _ Hk) as [bg Hbg].
  by exists n, bg.
Qed.

Lemma onMouseEnter_run (s : State) (this : ref) (n : NodeWrapper) (bg : Shape) :
  currentTool s = Transitions → tentativeTransitionInProgress s = true →
  nodes s !! this = Some n → nodeBackground n = Some bg →
  onMouseEnter this s
  = Some (tt, set_nodes
                (<[this := set_nodeBackground
                     (Some (setAttr "shadowEnabled" (VBool true)
                       (setAttr "shadowBlur" (VNum (newConnectionShadowBlur (colorScheme s)))
                         (setAttr "shadowOpacity"
                            (VNum (newConnectionShadowOpacity (colorScheme s)))
                           (setAttr "shadowOffset" (VVec (mkVector2d 0 0))
                             (setAttr "shadowColor"
                                (VStr (newConnectionGlowColor (colorScheme s))) bg)))))) n]>
                   (nodes s))
                (set_tentativeTransitionTarget (Some this) s)).
Proof.
  intros Htool Hprog Hn Hbg. unfold onMouseEnter. do 2 mstep. rewrite Htool, Hprog.
  cbn [Tool_eqb andb]. cbv beta iota. mstep. unfold enableNewConnectionGlow. mstep.
  erewrite onBackground_run; [|exact Hn|exact Hbg]. reflexivity.
Qed.

Lemma onMouseLeave_own_run (s : State) (this : ref) (n : NodeWrapper) (bg : Shape) :
  currentTool s = Transitions → tentativeTransitionInProgress s = true →
  tentativeTransitionTarget s = Some this →
  nodes s !! this = Some n → nodeBackground n = Some bg →
  onMouseLeave this s
  = Some (tt, set_nodes
                (<[this := set_nodeBackground
                             (Some (setAttr "shadowEnabled" (VBool false) bg)) n]> (nodes s))
                (set_tentativeTransitionTarget None s)).
Proof.
  intros Htool Hprog Htgt Hn Hbg. unfold onMouseLeave. mstep. rewrite Htool.
  cbn [Tool_eqb]. cbv beta iota. do 2 mstep.
  rewrite Hprog, Htgt, bool_decide_eq_true_2 by done. cbn [andb]. cbv beta iota. mstep.
  unfold disableShadowEffects. erewrite onBackground_run; [|exact Hn|exact Hbg]. reflexivity.
Qed.

Lemma onMouseLeave_other_run (s : State) (this : ref) :
  currentTool s = Transitions → tentativeTransitionTarget s ≠ Some this →
  onMouseLeave this s = Some (tt, s).
Proof.
  intros Htool Htgt. unfold onMouseLeave. mstep. rewrite Htool.
  cbn [Tool_eqb]. cbv beta iota. do 2 mstep.
  rewrite bool_decide_eq_false_2 by done. by rewrite andb_false_r.
Qed.

(** X12.  While a tentative transition is in progress in Transitions mode,
    a mouse-enter on a node makes it the target and switches on its glow in
    the new-connection colour, and a mouse-leave that follows clears the
    target and switches the glow off, leaving the source, the positions and
    the calls as they were.  But when the pointer enters another node before
    it leaves the first, the leave of the first node does nothing: the other
    node is the target and both nodes glow. *)
Theorem hover_glow_follows_pointer (s : State) (this : ref) :
  currentTool s = Transitions →
  tentativeTransitionInProgress s = true →
  rendered (nodes s) (NodeObject this) →
  (∃ s1 s2, onMouseEnter this s = Some (tt, s1)
            ∧ tentativeTransitionTarget s1 = Some this
            ∧ shadowEnabledOf (nodes s1) this = Some (VBool true)
            ∧ backgroundAttrOf "shadowColor" (nodes s1) this
              = Some (VStr (newConnectionGlowColor (colorScheme s)))
            ∧ onMouseLeave this s1 = Some (tt, s2)
            ∧ tentativeTransitionTarget s2 = None
            ∧ shadowEnabledOf (nodes s2) this = Some (VBool false)
            ∧ tentativeTransitionSource s2 = tentativeTransitionSource s
            ∧ tentativeTransitionInProgress s2 = true
            ∧ (∀ r, positionOf (nodes s2) r = positionOf (nodes s) r)
            ∧ calls s2 = calls s) ∧
  (∀ other, other ≠ this → rendered (nodes s) (NodeObject other) →
     ∃ s3, (_ ← onMouseEnter this; _ ← onMouseEnter other; onMouseLeave this) s
           = Some (tt, s3)
           ∧ tentativeTransitionTarget s3 = Some other
           ∧ shadowEnabledOf (nodes s3) this = Some (VBool true)
           ∧ shadowEnabledOf (nodes s3) other = Some (VBool true)).
Proof.
  intros Htool Hprog Hthis.
  destruct (rendered_background _ _ Hthis) as (n & bg & Hn & Hbg & Hk).
  split.
  - eexists _, _. split; [apply (onMouseEnter_run _ _ _ _ Htool Hprog Hn Hbg)|].
    split; [reflexivity|].
    split; [unfold shadowEnabledOf; cbn [nodes set_nodes]; rewrite lookup_insert_eq;
            cbn; apply lookup_insert_eq|].
    split.
    { unfold backgroundAttrOf. cbn [nodes set_nodes]. rewrite lookup_insert_eq. cbn.
      rewrite !lookup_insert_ne by done. apply lookup_insert_eq. }
    split.
    { erewrite onMouseLeave_own_run;
        [reflexivity|exact Htool|exact Hprog|reflexivity
        |cbn [nodes set_nodes]; apply lookup_insert_eq|reflexivity]. }
    split; [reflexivity|].
    split; [unfold shadowEnabledOf; cbn [nodes set_nodes]; rewrite lookup_insert_eq;
            cbn; apply lookup_insert_eq|].
    split; [reflexivity|]. split; [exact Hprog|].
    split; [|reflexivity].
    intros r. unfold positionOf. cbn [nodes set_nodes].
    destruct (decide (this = r)) as [<-|Hne].
    + by rewrite !lookup_insert_eq, Hn.
    + by rewrite !lookup_insert_ne.
  - intros other Hne Hother.
    destruct (rendered_background _ _ Hother) as (n' & bg' & Hn' & Hbg' & Hk').
    rewrite bind_run, (onMouseEnter_run _ _ _ _ Htool Hprog Hn Hbg). cbv beta iota.
    rewrite bind_run. erewrite onMouseEnter_run;
      [|exact Htool|exact Hprog
       |cbn [nodes set_nodes]; rewrite lookup_insert_ne by done; exact Hn'|exact Hbg'].
    cbv beta iota. rewrite onMouseLeave_other_run; [|exact Htool|cbn; congruence].
    eexists. split; [reflexivity|]. split; [reflexivity|].
    unfold shadowEnabledOf. cbn [nodes set_nodes].
    rewrite lookup_insert_eq, lookup_insert_ne, lookup_insert_eq by done. cbn.
    split; apply lookup_insert_eq.
Qed.

Lemma hover_glow_follows_pointer_witness :
  ∃ s3, (_ ← onMouseEnter 1%positive; _ ← onMouseEnter 2%positive; onMouseLeave 1%positive)
          hoveredTarget = Some (tt, s3)
        ∧ tentativeTransitionTarget s3 = Some 2%positive
        ∧ shadowEnabledOf (nodes s3) 1%positive = Some (VBool true).
Proof.
  destruct (hover_glow_follows_pointer hoveredTarget 1%positive) as [_ H].
  - computed.
  - computed.
  - rendered_computed.
  - destruct (H 2%positive) as (s3 & E & Htgt & Hglow & _).
    + intros [=].
    + rendered_computed.
    + exists s3. split; [exact E|]. split; [exact Htgt|exact Hglow].
Defined.

(** ** From the constructor to the first serialization *)

(** X13.  From the constructor to the first serialization: [new
    NodeWrapper(label, id)] adds a node under a reference that was not in
    use, without Konva objects, so that [toSerializable] throws while the
    getter of [id] returns the given identifier (the generated one when none
    was given); after [createKonvaObjects(x, y)] the node serializes to that
    identifier, [(x, y)] and the label, and is not an accept node.  No other
    node changes. *)
Theorem node_lifecycle (uuid label : string) (id : option string) (px py : Q) (s : State) :
  ∃ r s1 s2 n, NodeWrapper_new uuid label id s = Some (r, s1)
               ∧ nodes s !! r = None
               ∧ nodes s1 !! r = Some n ∧ headless n
               ∧ toSerializable r s1 = None
               ∧ get_id r s1 = Some (default uuid id, s1)
               ∧ createKonvaObjects r px py s1 = Some (tt, s2)
               ∧ toSerializable r s2
                 = Some (mkSerializableState (default uuid id) px py label, s2)
               ∧ get_isAcceptNode r s2 = Some (false, s2)
               ∧ rendered (nodes s2) (NodeObject r)
               ∧ ∀ r', r' ≠ r → nodes s2 !! r' = nodes s !! r'.
Proof.
  destruct (NodeWrapper_new_run uuid label id s) as (r & n & Hnew & Hfresh & ->).
  eexists r, _, _, _. split; [exact Hnew|]. split; [exact Hfresh|].
  split; [cbn [nodes set_nodes]; apply lookup_insert_eq|].
  split; [by repeat split|].
  split.
  { unfold toSerializable. rewrite bind_run.
    erewrite readNode_run by (cbn [nodes set_nodes]; apply lookup_insert_eq). reflexivity. }
  split.
  { unfold get_id. rewrite bind_run.
    erewrite readNode_run by (cbn [nodes set_nodes]; apply lookup_insert_eq). reflexivity. }
  split.
  { unfold createKonvaObjects. rewrite !bind_run.
    erewrite readNode_run by (cbn [nodes set_nodes]; apply lookup_insert_eq).
    cbv beta iota. cbn [gets]. cbv beta iota zeta. unfold writeNode. cbn [modify].
    reflexivity. }
  split.
  { erewrite toSerializable_run;
      [|cbn [nodes set_nodes]; apply lookup_insert_eq|reflexivity]. reflexivity. }
  split.
  { unfold get_isAcceptNode. rewrite bind_run.
    erewrite readNode_run by (cbn [nodes set_nodes]; apply lookup_insert_eq). reflexivity. }
  split.
  { eexists. split; [cbn [nodes set_nodes]; apply lookup_insert_eq|reflexivity]. }
  intros r' Hr. cbn [nodes set_nodes]. by rewrite !lookup_insert_ne.
Qed.

(** ** A drag in Select mode without snapping *)

Lemma shadowEnabledOf_unshadow (l : list SelectableObject) (m : gmap ref NodeWrapper)
    (r : ref) :
  rendered m (NodeObject r) → NodeObject r ∈ l →
  shadowEnabledOf (alterNodes unshadowNode l m) r = Some (VBool false).
Proof.
  intros (n & bg & Hn & Hbg & _)%rendered_background Hin. unfold shadowEnabledOf.
  rewrite (alterNodes_lookup unshadowNode unshadowNode_idempotent), decide_True by done.
  rewrite Hn. cbn. rewrite Hbg. cbn. apply lookup_insert_eq.
Qed.

Lemma lastPosOf_unshadow (l : list SelectableObject) (m : gmap ref NodeWrapper) (r : ref) :
  lastPosOf (alterNodes unshadowNode l m) r = lastPosOf m r.
Proof.
  unfold lastPosOf. rewrite (alterNodes_lookup unshadowNode unshadowNode_idempotent).
  case_decide; [|done]. by destruct (m !! r).
Qed.

(** X14.  With snap-to-grid off, a drag start in Select mode followed by the
    drag end leaves the node selected, every selected node with its shadow
    switched off and every node where it was, and the last call is
    [completeDragStatesOperation] with the position of the node: the drag is
    committed although nothing moved, where the branch with snapping
    compares with the last snapped position first. *)
Theorem select_drag_without_snap (s : State) (this : ref) (ev : MouseEvent) :
  currentTool s = Select → snapToGridEnabled s = false →
  rendered (nodes s) (NodeObject this) →
  Forall (rendered (nodes s)) (selectedObjects s) →
  ∃ s1 s2, onDragStart this ev s = Some (tt, s1)
           ∧ onDragEnd this s1 = Some (tt, s2)
           ∧ NodeObject this ∈ selectedObjects s2
           ∧ (∀ r, NodeObject r ∈ selectedObjects s2 →
                   shadowEnabledOf (nodes s2) r = Some (VBool false))
           ∧ (∀ r, positionOf (nodes s2) r = positionOf (nodes s) r)
           ∧ head (calls s2)
             = Some (completeDragStatesOperation_call (positionOf (nodes s) this))
           ∧ lastPosOf (nodes s2) this = Some (positionOf (nodes s) this).
Proof.
  intros Htool Hsnap Hthis Hsel.
  destruct (onDragStart_Select_selects s this ev Htool Hthis Hsel)
    as (s1 & E1 & Hin & Hsel1 & Hthis1 & Htool1 & Hsnap1 & Hpos1 & _ & Hlast1).
  rewrite Hsnap in Hsnap1.
  exists s1. eexists. split; [exact E1|].
  split; [apply (onDragEnd_nosnap_run this s1 Htool1 Hsnap1 Hthis1 Hsel1)|].
  cbn [nodes set_nodes set_calls calls selectedObjects].
  split; [exact Hin|].
  split.
  { intros r Hr. apply shadowEnabledOf_unshadow; [|exact Hr].
    by apply (proj1 (Forall_forall _ _) Hsel1 (NodeObject r)). }
  split; [intros r; by rewrite positionOf_unshadow|].
  split; [cbn; by rewrite Hpos1|].
  by rewrite lastPosOf_unshadow.
Qed.

Lemma select_drag_without_snap_witness :
  ∃ s1 s2, onDragStart 1%positive (mkMouseEvent false 73 124 0 0) (oneNode Select false 73 124)
           = Some (tt, s1)
           ∧ onDragEnd 1%positive s1 = Some (tt, s2)
           ∧ shadowEnabledOf (nodes s2) 1%positive = Some (VBool false).
Proof.
  destruct (select_drag_without_snap (oneNode Select false 73 124) 1%positive
              (mkMouseEvent false 73 124 0 0)) as (s1 & s2 & E1 & E2 & Hin & Hshadow & _).
  - computed.
  - computed.
  - rendered_computed.
  - selection_computed.
  - exists s1, s2. split; [exact E1|]. split; [exact E2|]. by apply Hshadow.
Defined.

(** ** Attributes set one after the other *)

Lemma setAttr_setAttr (k : string) (v v' : AttrValue) (sh : Shape) :
  setAttr k v (setAttr k v' sh) = setAttr k v sh.
Proof. unfold setAttr. cbn. by rewrite insert_insert_eq. Qed.

Lemma setAttr_comm (k k' : string) (v v' : AttrValue) (sh : Shape) :
  k ≠ k' → setAttr k v (setAttr k' v' sh) = setAttr k' v' (setAttr k v sh).
Proof. intros H. unfold setAttr. cbn. f_equal. by apply insert_insert_ne. Qed.

Lemma restyle_absorbs (k k' : string) (a b c d : AttrValue) (sh : Shape) :
  k ≠ k' →
  setAttr k a (setAttr k' b (setAttr k c (setAttr k' d sh))) = setAttr k a (setAttr k' b sh).
Proof.
  intros H. rewrite (setAttr_comm k' k) by done.
  by rewrite setAttr_setAttr, setAttr_setAttr.
Qed.

Lemma lookup_setAttr_ne (k k' : string) (v : AttrValue) (sh : Shape) :
  k ≠ k' → attrs (setAttr k v sh) !! k' = attrs sh !! k'.
Proof. intros H. unfold setAttr. cbn. by rewrite lookup_insert_ne. Qed.

Lemma lookup_setAttr_eq (k : string) (v : AttrValue) (sh : Shape) :
  attrs (setAttr k v sh) !! k = Some v.
Proof. unfold setAttr. cbn. apply lookup_insert_eq. Qed.

(** ** The outline of a selected node *)

Lemma select_run (s : State) (this : ref) (n : NodeWrapper) (bg : Shape) :
  nodes s !! this = Some n → nodeBackground n = Some bg →
  select this s
  = Some (tt, set_nodes
                (<[this := set_nodeBackground
                     (Some (setAttr "strokeWidth" (VNum SelectedStrokeWidth)
                              (setAttr "stroke"
                                 (VStr (selectedNodeStrokeColor (colorScheme s))) bg))) n]>
                   (nodes s)) s).
Proof.
  intros Hn Hbg. unfold select. mstep.
  erewrite onBackground_run; [reflexivity|exact Hn|exact Hbg].
Qed.

Lemma deselect_run (s : State) (this : ref) (n : NodeWrapper) (bg : Shape) :
  nodes s !! this = Some n → nodeBackground n = Some bg →
  deselect this s
  = Some (tt, set_nodes
                (<[this := set_nodeBackground
                     (Some (setAttr "strokeWidth" (VNum StrokeWidth)
                              (setAttr "stroke" (VStr (nodeStrokeColor (colorScheme s))) bg)))
                     n]> (nodes s)) s).
Proof.
  intros Hn Hbg. unfold deselect. mstep.
  erewrite onBackground_run; [reflexivity|exact Hn|exact Hbg].
Qed.

Ltac again run :=
  erewrite run; [|cbn [nodes set_nodes]; apply lookup_insert_eq|reflexivity];
  cbn [nodes set_nodes colorScheme set_nodeBackground nodeBackground nodeAcceptCircle nodeLabel
         nodeGroup lastPos lastSnappedPos _isAcceptNode _labelText _id];
  rewrite insert_insert_eq, (restyle_absorbs "strokeWidth" "stroke") by done; reflexivity.

(** X15.  [select] gives the background the selected stroke colour and
    stroke width 4, [deselect] the unselected colour and width 2, and both
    leave every other attribute of the background (fill, shadow), the
    selection set and the positions alone.  The outcome does not depend on
    what the outline was: [deselect] after [select] gives the state of
    [deselect] alone, [select] after [deselect] that of [select] alone, and
    each of them done twice is the same as done once. *)
Theorem select_deselect_outline (s : State) (this : ref) :
  rendered (nodes s) (NodeObject this) →
  ∃ s1 s2, select this s = Some (tt, s1) ∧ deselect this s = Some (tt, s2)
           ∧ backgroundAttrOf "stroke" (nodes s1) this
             = Some (VStr (selectedNodeStrokeColor (colorScheme s)))
           ∧ backgroundAttrOf "strokeWidth" (nodes s1) this = Some (VNum SelectedStrokeWidth)
           ∧ backgroundAttrOf "stroke" (nodes s2) this
             = Some (VStr (nodeStrokeColor (colorScheme s)))
           ∧ backgroundAttrOf "strokeWidth" (nodes s2) this = Some (VNum StrokeWidth)
           ∧ deselect this s1 = Some (tt, s2) ∧ select this s2 = Some (tt, s1)
           ∧ select this s1 = Some (tt, s1) ∧ deselect this s2 = Some (tt, s2)
           ∧ (∀ k, k ≠ "stroke" → k ≠ "strokeWidth" →
                   backgroundAttrOf k (nodes s1) this = backgroundAttrOf k (nodes s) this
                   ∧ backgroundAttrOf k (nodes s2) this = backgroundAttrOf k (nodes s) this)
           ∧ selectedObjects s1 = selectedObjects s
           ∧ selectedObjects s2 = selectedObjects s
           ∧ (∀ r, positionOf (nodes s1) r = positionOf (nodes s) r).
Proof.
  intros Hthis. destruct (rendered_background _ _ Hthis) as (n & bg & Hn & Hbg & Hk).
  eexists _, _. split; [apply (select_run _ _ _ _ Hn Hbg)|].
  split; [apply (deselect_run _ _ _ _ Hn Hbg)|].
  unfold backgroundAttrOf. cbn [nodes set_nodes]. rewrite !lookup_insert_eq, Hn. cbn.
  rewrite Hbg. cbn.
  split; [rewrite lookup_insert_ne by done; apply lookup_insert_eq|].
  split; [apply lookup_insert_eq|].
  split; [rewrite lookup_insert_ne by done; apply lookup_insert_eq|].
  split; [apply lookup_insert_eq|].
  split; [again deselect_run|]. split; [again select_run|].
  split; [again select_run|]. split; [again deselect_run|].
  split; [intros k H1 H2; by rewrite !lookup_insert_ne|].
  split; [reflexivity|]. split; [reflexivity|].
  intros r. unfold positionOf. destruct (decide (this = r)) as [<-|Hne].
  - by rewrite lookup_insert_eq, Hn.
  - by rewrite lookup_insert_ne.
Qed.

Lemma select_deselect_outline_witness :
  ∃ s1 s2, select 1%positive (oneNode Select true 73 124) = Some (tt, s1)
           ∧ deselect 1%positive (oneNode Select true 73 124) = Some (tt, s2)
           ∧ deselect 1%positive s1 = Some (tt, s2).
Proof.
  destruct (select_deselect_outline (oneNode Select true 73 124) 1%positive)
    as (s1 & s2 & E1 & E2 & _ & _ & _ & _ & E3 & _).
  - rendered_computed.
  - exists s1, s2. split; [exact E1|]. split; [exact E2|exact E3].
Defined.

(** ** The colour scheme *)

Lemma rendered_shapes (m : gmap ref NodeWrapper) (r : ref) :
  rendered m (NodeObject r) →
  ∃ n bg c l g, m !! r = Some n ∧ nodeBackground n = Some bg ∧ nodeAcceptCircle n = Some c
                ∧ nodeLabel n = Some l ∧ nodeGroup n = Some g.
Proof.
  intros (n & Hn & ([bg Hbg] & [c Hc] & [l Hl] & [g Hg])%hasKonvaObjects_iff).
  by exists n, bg, c, l, g.
Qed.

Lemma updateColorScheme_run (s : State) (this : ref) (n : NodeWrapper) (bg c l : Shape) :
  nodes s !! this = Some n → nodeBackground n = Some bg → nodeAcceptCircle n = Some c →
  nodeLabel n = Some l →
  updateColorScheme this s
  = Some (tt, set_nodes (<[this := recoloured (colorScheme s) bg c l n]> (nodes s)) s).
Proof.
  intros Hn Hbg Hc Hl. unfold updateColorScheme. mstep.
  rewrite bind_run. erewrite onBackground_run; [|exact Hn|exact Hbg]. cbv beta iota.
  rewrite bind_run.
  erewrite onBackground_run; [|cbn [nodes set_nodes]; apply lookup_insert_eq|reflexivity].
  cbv beta iota. rewrite bind_run.
  erewrite (proj2 (onAcceptCircle_spec _ _ _ _)).
  2:{ eexists _, _. split; [cbn [nodes set_nodes]; apply lookup_insert_eq|].
      split; [exact Hc|reflexivity]. }
  cbv beta iota.
  erewrite (proj2 (onLabel_spec _ _ _ _)).
  2:{ eexists _, _. split; [cbn [nodes set_nodes]; apply lookup_insert_eq|].
      split; [exact Hl|reflexivity]. }
  cbn [nodes set_nodes]. rewrite !insert_insert_eq. reflexivity.
Qed.

(** X16.  [updateColorScheme] sets the fill and the stroke of the
    background, the stroke of the accept ring and the fill of the label to
    the colours of the scheme and changes no other attribute: in particular
    the stroke width is kept, so a selected node takes the unselected stroke
    colour at the selected width.  The position and the children are kept,
    no other node changes, and a second call changes nothing. *)
Theorem updateColorScheme_recolours (s : State) (this : ref) :
  rendered (nodes s) (NodeObject this) →
  ∃ s', updateColorScheme this s = Some (tt, s')
        ∧ backgroundAttrOf "fill" (nodes s') this = Some (VStr (nodeFill (colorScheme s)))
        ∧ backgroundAttrOf "stroke" (nodes s') this
          = Some (VStr (nodeStrokeColor (colorScheme s)))
        ∧ acceptCircleAttrOf "stroke" (nodes s') this
          = Some (VStr (nodeAcceptStrokeColor (colorScheme s)))
        ∧ labelAttrOf "fill" (nodes s') this = Some (VStr (nodeLabelColor (colorScheme s)))
        ∧ (∀ k, k ≠ "fill" → k ≠ "stroke" →
                backgroundAttrOf k (nodes s') this = backgroundAttrOf k (nodes s) this)
        ∧ (∀ k, k ≠ "stroke" →
                acceptCircleAttrOf k (nodes s') this = acceptCircleAttrOf k (nodes s) this)
        ∧ (∀ k, k ≠ "fill" → labelAttrOf k (nodes s') this = labelAttrOf k (nodes s) this)
        ∧ updateColorScheme this s' = Some (tt, s')
        ∧ positionOf (nodes s') this = positionOf (nodes s) this
        ∧ childrenOf (nodes s') this = childrenOf (nodes s) this
        ∧ (∀ r, r ≠ this → nodes s' !! r = nodes s !! r).
Proof.
  intros Hthis.
  destruct (rendered_shapes _ _ Hthis) as (n & bg & c & l & g & Hn & Hbg & Hc & Hl & Hg).
  eexists. split; [apply (updateColorScheme_run _ _ _ _ _ _ Hn Hbg Hc Hl)|].
  unfold backgroundAttrOf, acceptCircleAttrOf, labelAttrOf, positionOf, childrenOf.
  cbn [nodes set_nodes]. rewrite !lookup_insert_eq, Hn. cbn. rewrite Hbg, Hc, Hl. cbn.
  split; [rewrite lookup_insert_ne by done; apply lookup_insert_eq|].
  split; [apply lookup_insert_eq|].
  split; [apply lookup_insert_eq|].
  split; [apply lookup_insert_eq|].
  split; [intros k H1 H2; by rewrite !lookup_insert_ne|].
  split; [intros k H1; by rewrite !lookup_insert_ne|].
  split; [intros k H1; by rewrite !lookup_insert_ne|].
  split.
  { erewrite updateColorScheme_run;
      [|cbn [nodes set_nodes]; apply lookup_insert_eq|reflexivity..].
    cbn [nodes set_nodes colorScheme]. rewrite insert_insert_eq.
    unfold recoloured.
    cbn [set_nodeBackground set_nodeAcceptCircle set_nodeLabel nodeBackground nodeAcceptCircle
           nodeLabel nodeGroup lastPos lastSnappedPos _isAcceptNode _labelText _id].
    rewrite (setAttr_setAttr "fill" _ _ l), (setAttr_setAttr "stroke" _ _ c).
    rewrite (restyle_absorbs "stroke" "fill") by done. reflexivity. }
  split; [done|]. split; [done|].
  intros r Hr. by rewrite lookup_insert_ne.
Qed.

Lemma updateColorScheme_recolours_witness :
  ∃ s', updateColorScheme 1%positive (pickedUp Select true 73 124) = Some (tt, s')
        ∧ backgroundAttrOf "stroke" (nodes s') 1%positive = Some (VStr "black")
        ∧ backgroundAttrOf "strokeWidth" (nodes s') 1%positive = Some (VNum 4).
Proof.
  destruct (updateColorScheme_recolours (pickedUp Select true 73 124) 1%positive)
    as (s' & E & _ & Hstroke & _ & _ & Hkeep & _).
  - rendered_computed.
  - exists s'. split; [exact E|]. split; [exact Hstroke|].
    rewrite Hkeep; [vm_compute; reflexivity|intros [=]|intros [=]].
Defined.

(** ** The look of a node in the error state *)

(** X17.  The look [setErrorState] gives a node with its Konva objects.
    With [true] the background gets the light red fill, the dark red stroke
    and stroke width 4; with [false] it gets the fill and the stroke of the
    colour scheme and the unselected stroke width, whatever the outline was.
    The other attributes of the background are kept.  The children of the
    group are the children it had that are not part of an error overlay, in
    their order, followed with [true] by a circle named [errorIcon] and a
    text named [errorText] showing the cross, both at [(0, 29)], the text
    with offsets 10 and 10, and by nothing with [false].  The position, the
    selection and the other nodes are unchanged. *)
Theorem setErrorState_appearance (s : State) (this : ref) (isError : bool) :
  rendered (nodes s) (NodeObject this) →
  ∃ s' overlay,
    setErrorState this isError s = Some (tt, s')
    ∧ backgroundAttrOf "fill" (nodes s') this
      = Some (VStr (if isError then "rgb(254, 226, 225)" else nodeFill (colorScheme s)))
    ∧ backgroundAttrOf "stroke" (nodes s') this
      = Some (VStr (if isError then "rgb(220, 38, 37)" else nodeStrokeColor (colorScheme s)))
    ∧ backgroundAttrOf "strokeWidth" (nodes s') this
      = Some (VNum (if isError then 4 else StrokeWidth))
    ∧ (∀ k, k ≠ "fill" → k ≠ "stroke" → k ≠ "strokeWidth" →
            backgroundAttrOf k (nodes s') this = backgroundAttrOf k (nodes s) this)
    ∧ childrenOf (nodes s') this
      = filter (λ c, negb (errorChildOf (nodes s) this c)) (childrenOf (nodes s) this)
        ++ overlay
    ∧ (if isError
       then ∃ icon text, overlay = [OwnedChild icon; OwnedChild text]
                         ∧ className icon = Circle ∧ getName (attrs icon) = "errorIcon"
                         ∧ className text = Text ∧ getName (attrs text) = "errorText"
                         ∧ attrs text !! "text" = Some (VStr "✕")
                         ∧ (getNum "x" (attrs icon) == 0)%Q
                         ∧ (getNum "y" (attrs icon) == 29)%Q
                         ∧ (getNum "x" (attrs text) == 0)%Q
                         ∧ (getNum "y" (attrs text) == 29)%Q
                         ∧ (getNum "offsetX" (attrs text) == 10)%Q
                         ∧ (getNum "offsetY" (attrs text) == 10)%Q
       else overlay = [])
    ∧ positionOf (nodes s') this = positionOf (nodes s) this
    ∧ selectedObjects s' = selectedObjects s
    ∧ (∀ r, r ≠ this → nodes s' !! r = nodes s !! r).
Proof.
  intros Hthis.
  destruct (rendered_shapes _ _ Hthis) as (n & bg & c & l & g & Hn & Hbg & Hc & Hl & Hg).
  unfold setErrorState. rewrite bind_run, (readNode_run _ _ _ Hn). cbv beta iota.
  rewrite bind_run, (onGroup_run _ _ _ _ _ Hn Hg). cbv beta iota. mstep.
  rewrite bind_run. destruct isError.
  - rewrite bind_run.
    erewrite onBackground_run;
      [|cbn [nodes set_nodes]; apply lookup_insert_eq|exact Hbg].
    cbv beta iota zeta. rewrite bind_run.
    erewrite onGroup_run; [|cbn [nodes set_nodes]; apply lookup_insert_eq|reflexivity].
    cbv beta iota.
    erewrite onGroup_run; [|cbn [nodes set_nodes]; apply lookup_insert_eq|reflexivity].
    cbv beta iota.
    erewrite batchDrawLayer_run; [|cbn [nodes set_nodes]; apply lookup_insert_eq|reflexivity].
    eexists _, _. split; [reflexivity|].
    unfold backgroundAttrOf, childrenOf, positionOf, errorChildOf.
    cbn [nodes set_nodes set_calls calls selectedObjects].
    rewrite !lookup_insert_eq, Hn. cbn. rewrite Hbg, Hg. cbn.
    split; [rewrite !lookup_insert_ne by done; apply lookup_insert_eq|].
    split; [rewrite !lookup_insert_ne by done; apply lookup_insert_eq|].
    split; [apply lookup_insert_eq|].
    split; [intros k H1 H2 H3; by rewrite !lookup_insert_ne|].
    split; [rewrite <- app_assoc; reflexivity|].
    split.
    { eexists _, _. split; [reflexivity|]. repeat split; reflexivity. }
    split; [reflexivity|]. split; [reflexivity|].
    intros r Hr. by rewrite !lookup_insert_ne.
  - erewrite onBackground_run;
      [|cbn [nodes set_nodes]; apply lookup_insert_eq|exact Hbg].
    cbv beta iota.
    erewrite batchDrawLayer_run; [|cbn [nodes set_nodes]; apply lookup_insert_eq|reflexivity].
    eexists _, []. split; [reflexivity|].
    unfold backgroundAttrOf, childrenOf, positionOf, errorChildOf.
    cbn [nodes set_nodes set_calls calls selectedObjects].
    rewrite !lookup_insert_eq, Hn. cbn. rewrite Hbg, Hg. cbn.
    split; [rewrite !lookup_insert_ne by done; apply lookup_insert_eq|].
    split; [rewrite !lookup_insert_ne by done; apply lookup_insert_eq|].
    split; [apply lookup_insert_eq|].
    split; [intros k H1 H2 H3; by rewrite !lookup_insert_ne|].
    split; [by rewrite app_nil_r|].
    split; [reflexivity|].
    split; [reflexivity|]. split; [reflexivity|].
    intros r Hr. by rewrite !lookup_insert_ne.
Qed.

Lemma setErrorState_appearance_witness :
  ∃ s' overlay,
    setErrorState 1%positive true (oneNode Select true 73 124) = Some (tt, s')
    ∧ backgroundAttrOf "fill" (nodes s') 1%positive = Some (VStr "rgb(254, 226, 225)")
    ∧ childrenOf (nodes s') 1%positive
      = filter (λ c, negb (errorChildOf (nodes (oneNode Select true 73 124)) 1%positive c))
          (childrenOf (nodes (oneNode Select true 73 124)) 1%positive) ++ overlay.
Proof.
  destruct (setErrorState_appearance (oneNode Select true 73 124) 1%positive true)
    as (s' & overlay & E & Hfill & _ & _ & _ & Hchildren & _).
  - rendered_computed.
  - exists s', overlay. split; [exact E|]. split; [exact Hfill|exact Hchildren].
Defined.

(** ** A whole gesture with the Transitions tool *)

Lemma onDragEnd_Transitions_run (s : State) (this : ref) :
  currentTool s = Transitions →
  onDragEnd this s
  = Some (tt, set_tentativeTransitionHead None
                (set_tentativeTransitionTarget None
                  (set_tentativeTransitionSource None
                    (set_tentativeTransitionInProgress false
                      (set_calls (endTentativeTransition_call (tentativeTransitionSource s)
                                    (tentativeTransitionTarget s) :: calls s) s))))).
Proof.
  intros Htool. unfold onDragEnd. do 2 mstep. rewrite Htool. cbn [Tool_eqb andb].
  cbv beta iota. reflexivity.
Qed.

Lemma positionOf_set_lastPos (m : gmap ref NodeWrapper) (r r' : ref) (n : NodeWrapper) p :
  m !! r = Some n → positionOf (<[r := set_lastPos p n]> m) r' = positionOf m r'.
Proof.
  intros Hn. unfold positionOf. destruct (decide (r = r')) as [<-|Hne].
  - by rewrite lookup_insert_eq, Hn.
  - by rewrite lookup_insert_ne.
Qed.

(** X18.  A whole gesture with the Transitions tool: drag start on a node,
    mouse-enter on a node (the same or another), drag end.  The only call
    that leaves the module is the one that ends the tentative transition,
    with the dragged node as source and the entered node as target; the
    record of the tentative transition is cleared, no node has moved, and
    [lastPos] of the dragged node is its position.  Without the mouse-enter
    the call has no target.  The collaborators that start and end the
    tentative transition are the ones modelled above. *)
Theorem transition_gesture_reports_endpoints (s : State) (a b : ref) (ev : MouseEvent) :
  currentTool s = Transitions →
  rendered (nodes s) (NodeObject a) →
  rendered (nodes s) (NodeObject b) →
  (∃ s', (_ ← fire a (dragstart ev); _ ← fire b mouseenter; fire a dragend) s
         = Some (tt, s')
         ∧ callsSince s s' = [endTentativeTransition_call (Some a) (Some b)]
         ∧ tentativeTransitionInProgress s' = false
         ∧ tentativeTransitionSource s' = None
         ∧ tentativeTransitionTarget s' = None
         ∧ (∀ r, positionOf (nodes s') r = positionOf (nodes s) r)
         ∧ lastPosOf (nodes s') a = Some (positionOf (nodes s) a)) ∧
  (∃ s', (_ ← fire a (dragstart ev); fire a dragend) s = Some (tt, s')
         ∧ callsSince s s' = [endTentativeTransition_call (Some a) None]
         ∧ (∀ r, positionOf (nodes s') r = positionOf (nodes s) r)).
Proof.
  intros Htool Ha Hb.
  destruct (rendered_positionOf _ _ Ha) as (n & g & Hn & Hk & Hg & Hpos).
  split.
  - rewrite bind_run. cbn [fire].
    rewrite (onDragStart_Transitions_run s a n g ev Htool Hn Hg). cbv beta iota.
    set (s1 := set_tentativeTransitionHead _ _).
    assert (rendered (nodes s1) (NodeObject b)) as Hb1.
    { destruct Hb as (nb & Hnb & Hkb). cbn. destruct (decide (a = b)) as [<-|Hne].
      - rewrite lookup_insert_eq. eexists. split; [reflexivity|].
        rewrite Hn in Hnb. injection Hnb as <-. exact Hkb.
      - rewrite lookup_insert_ne by done. by exists nb. }
    destruct (rendered_background _ _ Hb1) as (nb & bg & Hnb & Hbg & _).
    assert (<[a := set_lastPos (Some (position g)) n]> (nodes s) !! b = Some nb) as Hnb'
      by exact Hnb.
    rewrite bind_run.
    erewrite onMouseEnter_run; [|exact Htool|reflexivity|exact Hnb|exact Hbg].
    cbv beta iota. rewrite onDragEnd_Transitions_run by exact Htool.
    subst s1.
    eexists. split; [reflexivity|].
    split; [by apply callsSince_app|].
    split; [reflexivity|]. split; [reflexivity|]. split; [reflexivity|].
    cbn [nodes set_nodes set_calls set_tentativeTransitionHead set_tentativeTransitionTarget
           set_tentativeTransitionSource set_tentativeTransitionInProgress].
    split.
    + intros r. rewrite <- (positionOf_set_lastPos (nodes s) a r n (Some (position g)) Hn).
      unfold positionOf. destruct (decide (b = r)) as [<-|Hne].
      * rewrite lookup_insert_eq, Hnb'. reflexivity.
      * by rewrite lookup_insert_ne.
    + unfold lastPosOf. destruct (decide (b = a)) as [->|Hne].
      * rewrite lookup_insert_eq. cbn.
        rewrite lookup_insert_eq in Hnb'. injection Hnb' as <-. cbn. by rewrite Hpos.
      * rewrite lookup_insert_ne, lookup_insert_eq by done. cbn. by rewrite Hpos.
  - rewrite bind_run. cbn [fire].
    rewrite (onDragStart_Transitions_run s a n g ev Htool Hn Hg). cbv beta iota.
    rewrite onDragEnd_Transitions_run by exact Htool.
    eexists. split; [reflexivity|]. split; [by apply callsSince_app|].
    intros r. cbn. by apply positionOf_set_lastPos.
Qed.

Lemma transition_gesture_reports_endpoints_witness :
  ∃ s', (_ ← fire 2%positive (dragstart (mkMouseEvent false 0 0 0 0));
         _ ← fire 1%positive mouseenter; fire 2%positive dragend) hoveredTarget
        = Some (tt, s')
        ∧ callsSince hoveredTarget s'
          = [endTentativeTransition_call (Some 2%positive) (Some 1%positive)].
Proof.
  destruct (transition_gesture_reports_endpoints hoveredTarget 2%positive 1%positive
              (mkMouseEvent false 0 0 0 0)) as [(s' & E & Hcalls & _) _].
  - computed.
  - rendered_computed.
  - rendered_computed.
  - exists s'. split; [exact E|exact Hcalls].
Defined.

(** ** A click *)

Lemma SelectableObject_eqb_refl (obj : SelectableObject) : SelectableObject_eqb obj obj = true.
Proof. destruct obj as [r|[a b]]; cbn; by rewrite ?Pos.eqb_refl. Qed.

Lemma existsb_selected_iff (obj : SelectableObject) (l : list SelectableObject) :
  existsb (SelectableObject_eqb obj) l = true ↔ obj ∈ l.
Proof.
  split; [apply existsb_selected|]. intros H. apply existsb_exists. exists obj.
  split; [by apply list_elem_of_In|apply SelectableObject_eqb_refl].
Qed.

Lemma selectObject_selection (s : State) (this : ref) :
  rendered (nodes s) (NodeObject this) →
  ∃ s', selectObject (NodeObject this) s = Some (tt, s') ∧ keepsLayout s s'
        ∧ selectedObjects s'
          = (if decide (NodeObject this ∈ selectedObjects s) then selectedObjects s
             else selectedObjects s ++ [NodeObject this])
        ∧ (NodeObject this ∉ selectedObjects s →
           backgroundAttrOf "strokeWidth" (nodes s') this = Some (VNum SelectedStrokeWidth)).
Proof.
  intros Hthis. destruct (rendered_background _ _ Hthis) as (n & bg & Hn & Hbg & Hk).
  unfold selectObject. mstep.
  destruct (existsb (SelectableObject_eqb (NodeObject this)) (selectedObjects s)) eqn:E.
  - apply existsb_selected_iff in E. exists s. split; [reflexivity|].
    split; [apply keepsLayout_refl|]. by rewrite decide_True.
  - assert (NodeObject this ∉ selectedObjects s) as Hout.
    { intros H%existsb_selected_iff. congruence. }
    mstep. erewrite select_run; [|exact Hn|exact Hbg].
    eexists. split; [reflexivity|]. split.
    + eapply keepsLayout_trans; [apply keepsLayout_set_selectedObjects|].
      apply (keepsLayout_insert _ this n); try done.
      unfold hasKonvaObjects. cbn. by rewrite Hbg.
    + split; [by rewrite decide_False|]. intros _.
      unfold backgroundAttrOf. cbn [nodes set_nodes]. rewrite lookup_insert_eq. cbn.
      apply lookup_insert_eq.
Qed.

(** X19.  A click on a node does nothing unless the tool is Select.  In
    Select mode without the shift key the selection becomes the clicked node
    alone, which gets the selected stroke width; with the shift key the node
    is added at the end of the selection unless it is already in it.  No
    node moves, and every selected node still has its Konva objects.  The
    selection set is kept by the collaborators modelled above. *)
Theorem click_selects (s : State) (this : ref) (ev : MouseEvent) :
  rendered (nodes s) (NodeObject this) →
  Forall (rendered (nodes s)) (selectedObjects s) →
  (currentTool s ≠ Select → onClick this ev s = Some (tt, s)) ∧
  (currentTool s = Select →
   ∃ s', onClick this ev s = Some (tt, s')
         ∧ selectedObjects s'
           = (if shiftKey ev
              then if decide (NodeObject this ∈ selectedObjects s) then selectedObjects s
                   else selectedObjects s ++ [NodeObject this]
              else [NodeObject this])
         ∧ (shiftKey ev = false →
            backgroundAttrOf "strokeWidth" (nodes s') this = Some (VNum SelectedStrokeWidth))
         ∧ (∀ r, positionOf (nodes s') r = positionOf (nodes s) r)
         ∧ Forall (rendered (nodes s')) (selectedObjects s')).
Proof.
  intros Hthis Hsel. split.
  - intros Htool. unfold onClick. mstep. by destruct (currentTool s).
  - intros Htool. unfold onClick. mstep. rewrite Htool. cbn [Tool_eqb]. cbv beta iota.
    rewrite bind_run. destruct (shiftKey ev); cbn [negb].
    + cbn [mret M_ret]. cbv beta iota.
      destruct (selectObject_selection s this Hthis) as (s' & E & K & S & _).
      exists s'. split; [exact E|]. split; [exact S|]. split; [done|].
      split; [intros r; by apply keepsLayout_positionOf|].
      rewrite S. case_decide.
      * eapply Forall_impl; [exact Hsel|]. intros o. by apply keepsLayout_rendered.
      * apply Forall_app. split.
        -- eapply Forall_impl; [exact Hsel|]. intros o. by apply keepsLayout_rendered.
        -- apply Forall_singleton. by apply (keepsLayout_rendered s s').
    + destruct (deselectAllObjects_keeps s Hsel) as (s1 & E1 & K1 & S1).
      rewrite E1. cbv beta iota.
      destruct (selectObject_selection s1 this) as (s' & E & K & S & W).
      { by apply (keepsLayout_rendered s s1). }
      rewrite S1 in S, W. rewrite decide_False in S by apply not_elem_of_nil.
      exists s'. split; [exact E|]. split; [exact S|].
      split; [intros _; apply W, not_elem_of_nil|].
      split.
      * intros r. rewrite (keepsLayout_positionOf s1 s') by done.
        by apply keepsLayout_positionOf.
      * rewrite S. apply Forall_singleton.
        apply (keepsLayout_rendered s1 s'); [done|]. by apply (keepsLayout_rendered s s1).
Qed.

Lemma click_selects_witness :
  ∃ s', onClick 1%positive (mkMouseEvent false 0 0 0 0) twoSelected = Some (tt, s')
        ∧ selectedObjects s' = [NodeObject 1%positive].
Proof.
  destruct (click_selects twoSelected 1%positive (mkMouseEvent false 0 0 0 0)) as [_ H].
  - rendered_computed.
  - selection_computed.
  - destruct H as (s' & E & S & _).
    + computed.
    + exists s'. split; [exact E|exact S].
Defined.

(** ** The font size of the label stays in its range *)

Lemma fontInRangeb_fontInRange (n : NodeWrapper) : fontInRangeb n = true → fontInRange n.
Proof.
  unfold fontInRangeb, fontInRange. intros H l E. rewrite E in H. cbv zeta in H.
  apply andb_true_iff in H as [[H1 H2]%andb_true_iff H3].
  apply Qeq_bool_iff in H1. apply Qle_bool_iff in H2, H3.
  exists (Qfloor (getFontSize (attrs l))). split; [exact H1|].
  rewrite H1 in H2, H3. change 10%Q with (inject_Z 10) in H2.
  change 15%Q with (inject_Z 15) in H3. rewrite <- Zle_Qle in H2, H3. lia.
Qed.

Lemma allFontInRangeb_fontInRange (m : gmap ref NodeWrapper) :
  allFontInRangeb m = true → ∀ r n, m !! r = Some n → fontInRange n.
Proof.
  unfold allFontInRangeb. rewrite forallb_forall. intros H r n Hn.
  apply fontInRangeb_fontInRange, (H (r, n)), list_elem_of_In, elem_of_map_to_list, Hn.
Qed.

Lemma getFontSize_fontFitted measure text l :
  getFontSize (attrs (fontFitted measure text l))
  = fitFontSize measure text (getFontSize (attrs l)).
Proof.
  unfold fontFitted. rewrite !getFontSize_setAttr by done.
  unfold getFontSize at 1. by rewrite lookup_setAttr_eq.
Qed.

Lemma fontInRange_fontFitted measure text n l :
  nodeLabel n = Some l → fontInRange n →
  fontInRange (set_nodeLabel (Some (fontFitted measure text l)) n).
Proof.
  intros E H l' [= <-]. destruct (H l E) as (z & Hz & Hrange).
  rewrite getFontSize_fontFitted. by apply (fitFontSize_range measure text _ z).
Qed.

Lemma fontInRange_labelSet measure value n l :
  nodeLabel n = Some l → fontInRange n → fontInRange (labelSet measure value l n).
Proof.
  intros E H l' [= <-]. destruct (H l E) as (z & Hz & Hrange).
  rewrite getFontSize_fontFitted, getFontSize_setAttr by done.
  by apply (fitFontSize_range measure value _ z).
Qed.

Lemma createKonvaObjects_fontInRange (s s' : State) (this : ref) (px py : Q) :
  createKonvaObjects this px py s = Some (tt, s') →
  ∃ n n', nodes s !! this = Some n ∧ s' = set_nodes (<[this := n']> (nodes s)) s
          ∧ fontInRange n'.
Proof.
  unfold createKonvaObjects. rewrite bind_run. unfold readNode.
  destruct (nodes s !! this) as [n|]; [|done]. cbv beta iota. intros [= <-].
  eexists _, _. split; [done|]. split; [reflexivity|].
  intros l [= <-]. exists 15%Z. split; [reflexivity|lia].
Qed.

Section FontRange.

Variable measure : string → Q → Q.
Variable D : gset ref.

Local Abbreviation keeps := (keeps (λ _, fontInRange) D).

Ltac font_side := by intros.

Lemma keeps_fontInRange_invoke (r : ref) (m : Method) : keeps (invoke measure r m).
Proof.
  destruct m; cbn [invoke].
  - apply keeps_bind; [apply keeps_toSerializable|intros ?; apply keeps_ret].
  - intros s [] s' Hs _ (n & n' & Hn & -> & Hn')%createKonvaObjects_fontInRange.
    by apply (holds_insert _ _ s r n).
  - intros s [] s' Hs _ (n & l & Hn & Hl & ->)%adjustFontSize_spec.
    apply (holds_insert _ _ s r n); [done| |done].
    apply fontInRange_fontFitted; [done|]. by apply (proj2 Hs r).
  - apply keeps_select; font_side.
  - apply keeps_deselect; font_side.
  - apply keeps_bind; [apply keeps_get_isAcceptNode|intros ?; apply keeps_ret].
  - intros s [] s' Hs _ (n & c & Hn & Hc & ->)%set_isAcceptNode_spec.
    apply (holds_insert _ _ s r n); [done| |done]. exact (proj2 Hs r n Hn).
  - intros s [] s' Hs _ (n & c & Hn & Hc & ->)%toggleAcceptNode_spec.
    apply (holds_insert _ _ s r n); [done| |done]. exact (proj2 Hs r n Hn).
  - apply keeps_enableNewConnectionGlow; font_side.
  - apply keeps_disableShadowEffects; font_side.
  - apply keeps_enableDragDropShadow; font_side.
  - apply keeps_setPosition; font_side.
  - apply keeps_bind; [apply keeps_snapToGrid; font_side|intros ?; apply keeps_ret].
  - apply keeps_bind; [apply keeps_get_labelText|intros ?; apply keeps_ret].
  - intros s [] s' Hs _ (n & l & Hn & Hl & ->)%set_labelText_spec.
    apply (holds_insert _ _ s r n); [done| |done].
    apply fontInRange_labelSet; [done|]. by apply (proj2 Hs r).
  - unfold updateColorScheme. apply keeps_gets. intros cs.
    apply keeps_bind; [apply keeps_onBackground; font_side|intros _].
    apply keeps_bind; [apply keeps_onBackground; font_side|intros _].
    apply keeps_bind.
    + apply keeps_onAcceptCircle_with. by intros n c Hc H.
    + intros _. apply keeps_onLabel_with. intros n l Hl H l' [= <-].
      rewrite getFontSize_setAttr by done. by apply H.
  - apply keeps_setErrorState; font_side.
  - apply keeps_bind; [apply keeps_konvaObject|intros ?; apply keeps_ret].
  - apply keeps_deleteKonvaObjects; font_side.
  - apply keeps_fire; font_side.
Qed.

End FontRange.

(** X20.  The font size of every label stays a whole number from 10 to 15:
    if that holds in every node, it holds after any sequence of public
    method calls and events that runs without an exception, whatever the
    widths Konva measures. *)
Theorem font_size_stays_in_range (measure : string → Q → Q) (calls : list (ref * Method))
    (s s' : State) :
  invokeAll measure calls s = Some (tt, s') →
  (∀ r n, nodes s !! r = Some n → fontInRange n) →
  ∀ r n, nodes s' !! r = Some n → fontInRange n.
Proof.
  intros E Hs.
  assert (keeps (λ _, fontInRange) (dom (nodes s)) (invokeAll measure calls)) as K.
  { unfold invokeAll. apply keeps_forEach. intros [r m]. apply keeps_fontInRange_invoke. }
  apply (K s tt s'); [by split|done|exact E].
Qed.

Lemma font_size_stays_in_range_witness :
  ∃ n, nodes (afterCalls exampleMeasure exampleCalls (oneNode Select true 73 124)) !! 1%positive
       = Some n ∧ fontInRange n.
Proof.
  destruct (nodes (afterCalls exampleMeasure exampleCalls (oneNode Select true 73 124))
              !! 1%positive) as [n|] eqn:E.
  - exists n. split; [reflexivity|].
    apply (font_size_stays_in_range exampleMeasure exampleCalls (oneNode Select true 73 124)
             (afterCalls exampleMeasure exampleCalls (oneNode Select true 73 124)))
      with (r := 1%positive).
    + vm_compute. reflexivity.
    + apply allFontInRangeb_fontInRange. vm_compute. reflexivity.
    + exact E.
  - vm_compute in E. discriminate E.
Defined.
